(** * gojsonschema: the validation walker and its result accumulator

    A shallow embedding of [subSchema.go] (the [validate*] methods) and of
    [result.go] ([Result], [addError], [mergeErrors], [incrementScore],
    [getBestResult]), with the statements of the specification settled
    against it.

    The file has three parts: the embedding (values, schema tree,
    results, the [validate*] routines and [Schema.Validate], then the
    walker once more with its [range] statements over maps counted); the
    notions the statements are written in, with a concrete runtime and
    sample schemas; and the properties, general ones first, runs on
    concrete documents last.

    Conventions of the embedding.
    - A [*Result] that the Go code mutates in place is passed in and
      returned: every [validate*] routine maps the result it is handed to
      the result it leaves behind.  An early [return] is the branch that
      gives the result back without running what follows it.
    - A Go [map] has no order; [range] visits its entries in an order the
      runtime picks when the statement starts.  A map is held as the list
      of its entries (keys unique).  In the first embedding every [range]
      over a map goes through [rangeMap], one order per map for the whole
      run; in the second ([Ranged]) every [range] statement that runs has
      an order of its own.  What is said of two invocations is said on the
      second.
    - A compiled schema is a finite tree: [refSchema], the combinator
      lists, the item and property children are sub-trees, and the walker
      is a structural recursion over it.  Pointer cycles through [$ref]
      are outside this model: a schema that refers back to itself has no
      such tree, and the walker of the source returns on it only when the
      document stops the descent.
    - Go's [int] is kept as [Z]: the score moves by one or two per call and
      lengths are list lengths, so the 64-bit range is never approached. *)

From Stdlib Require Import List String Ascii ZArith Bool Lia PrimFloat.
From Stdlib Require Import Permutation Sorted DecimalString.
Import ListNotations.
Open Scope string_scope.
Open Scope list_scope.
Open Scope Z_scope.

(* ================================================================== *)
(** * Go values *)

(** The kinds of [reflect.Kind] that the walker's [switch] has no case
    for.  A document value of such a kind (a Go [int], a struct, ...)
    is carried as [VOther]. *)
Inductive OtherKind : Type :=
| Int | Int8 | Int16 | Int32 | Int64
| Uint | Uint8 | Uint16 | Uint32 | Uint64 | Uintptr
| Float32 | Complex64 | Complex128
| Array | Chan | Func | Interface | Pointer | Struct | UnsafePointer.

Module reflect.
Inductive Kind : Type :=
| Invalid | Bool | Float64 | Map | Slice | String
| Other (k : OtherKind).

Definition eqb (a b : Kind) : bool :=
  match a, b with
  | Invalid, Invalid | Bool, Bool | Float64, Float64
  | Map, Map | Slice, Slice | String, String => true
  | Other _, Other _ => true
  | _, _ => false
  end.
End reflect.

Local Unset Elimination Schemes.

(** An [interface{}] holding a document node: [nil], [[]interface{}],
    [map[string]interface{}], [bool], [string], [float64], or a value of
    any other kind.  Slices and maps of other element types (for which the
    walker's type assertions fail or go through [convertDocumentNode]) are
    not represented. *)
Inductive Value : Type :=
| VNil
| VSlice (l : list Value)
| VMap (m : list (string * Value))
| VBool (b : bool)
| VString (s : string)
| VFloat64 (f : float)
| VOther (k : OtherKind).

Local Set Elimination Schemes.

(** [reflect.ValueOf(v).Kind()] *)
Definition kindOf (v : Value) : reflect.Kind :=
  match v with
  | VNil => reflect.Invalid
  | VSlice _ => reflect.Slice
  | VMap _ => reflect.Map
  | VBool _ => reflect.Bool
  | VString _ => reflect.String
  | VFloat64 _ => reflect.Float64
  | VOther k => reflect.Other k
  end.

(** Modelled from the spec: [isKind] lives in utils.go, which is not among
    the sources.  "Those routines early-return" on values whose tag does not
    match: [isKind(what, kind)] compares the value's reflected kind with the
    one asked for ([VOther] values are never asked about). *)
Definition isKind (what : Value) (kind : reflect.Kind) : bool :=
  match kind with
  | reflect.Other _ => false
  | _ => reflect.eqb (kindOf what) kind
  end.

(** Modelled from the spec: [isStringInSlice] (utils.go) is not among the
    sources; it is membership of a string in a slice of strings. *)
Definition isStringInSlice (s : list string) (what : string) : bool :=
  existsb (String.eqb what) s.

(** [m[k]] on a Go map, with the "comma ok" result as an [option]. *)
Fixpoint lookup {A : Type} (k : string) (m : list (string * A)) : option A :=
  match m with
  | [] => None
  | (k', a) :: m' => if String.eqb k k' then Some a else lookup k m'
  end.

(** [m[k]] read for its value alone: the zero value [nil] when [k] is
    absent. *)
Definition valueAt (m : list (string * Value)) (k : string) : Value :=
  match lookup k m with
  | Some v => v
  | None => VNil
  end.

(** [strconv.Itoa] on a non-negative index. *)
Definition Itoa (i : nat) : string := NilEmpty.string_of_uint (Nat.to_uint i).

(** [strings.Join] *)
Definition Join (l : list string) (sep : string) : string := String.concat sep l.

(* ================================================================== *)
(** * Constants *)

Definition KEY_TYPE := "type".
Definition KEY_ADDITIONAL_ITEMS := "additionalItems".
Definition KEY_PATTERN_PROPERTIES := "patternProperties".
Definition KEY_ADDITIONAL_PROPERTIES := "additionalProperties".
Definition KEY_MULTIPLE_OF := "multipleOf".
Definition KEY_MINIMUM := "minimum".
Definition KEY_MAXIMUM := "maximum".
Definition KEY_EXCLUSIVE_MINIMUM := "exclusiveMinimum".
Definition KEY_EXCLUSIVE_MAXIMUM := "exclusiveMaximum".
Definition KEY_MIN_LENGTH := "minLength".
Definition KEY_MAX_LENGTH := "maxLength".
Definition KEY_PATTERN := "pattern".
Definition KEY_MIN_PROPERTIES := "minProperties".
Definition KEY_MAX_PROPERTIES := "maxProperties".
Definition KEY_DEPENDENCIES := "dependencies".
Definition KEY_REQUIRED := "required".
Definition KEY_MIN_ITEMS := "minItems".
Definition KEY_MAX_ITEMS := "maxItems".
Definition KEY_UNIQUE_ITEMS := "uniqueItems".
Definition KEY_ENUM := "enum".
Definition KEY_ONE_OF := "oneOf".
Definition KEY_ANY_OF := "anyOf".
Definition KEY_ALL_OF := "allOf".
Definition KEY_NOT := "not".

Definition STRING_CONTEXT_ROOT := "#".
Definition STRING_ROOT_SCHEMA_PROPERTY := "#".
Definition STRING_UNDEFINED := "undefined".

(** Modelled from the spec: the [TYPE_*] tags are declared in types.go,
    which is not among the sources; they are "the seven schema-type tags
    (null, boolean, integer, number, string, array, object)". *)
Definition TYPE_ARRAY := "array".
Definition TYPE_BOOLEAN := "boolean".
Definition TYPE_INTEGER := "integer".
Definition TYPE_NUMBER := "number".
Definition TYPE_NULL := "null".
Definition TYPE_OBJECT := "object".
Definition TYPE_STRING := "string".

(* ================================================================== *)
(** * Type sets *)

(** Modelled from the spec: [jsonSchemaType] (types.go) is not among the
    sources.  "A set over the seven type tags.  Two states: untyped (empty,
    matches any) or typed (non-empty, matches iff the value's tag is in the
    set)"; its string form is the "type-set string" used as the requirement
    of a [type] error. *)
Module jsonSchemaType.
Record t : Type := mk { types : list string }.

Definition IsTyped (x : t) : bool := negb (Nat.eqb (List.length (types x)) 0).

Definition Contains (x : t) (typ : string) : bool :=
  isStringInSlice (types x) typ.

Definition String (x : t) : string :=
  match types x with
  | [] => STRING_UNDEFINED
  | [ty] => ty
  | tys => ("[" ++ Join tys "," ++ "]")%string
  end.
End jsonSchemaType.

(* ================================================================== *)
(** * The compiled schema tree *)

Local Unset Elimination Schemes.

(** [type subSchema struct] with the fields the validation phase reads.
    The meta fields ([id], [title], [description], [ref], [subSchema],
    [parent], [definitions], [definitionsChildren]) play no part in it.
    - A pointer that may be [nil] is an [option].
    - [additionalProperties] and [additionalItems] are [interface{}]
      holding [nil], a [bool] or a [*subSchema].
    - A [dependencies] entry holds a [[]string] or a [*subSchema].
    - [pattern] is kept as the expression it was compiled from. *)
Inductive subSchema : Type := mkSubSchema {
  property : string;
  types : jsonSchemaType.t;
  refSchema : option subSchema;
  itemsChildren : list subSchema;
  itemsChildrenIsSingleSchema : bool;
  propertiesChildren : list subSchema;
  multipleOf : option float;
  maximum : option float;
  exclusiveMaximum : option bool;
  minimum : option float;
  exclusiveMinimum : option bool;
  minLength : option Z;
  maxLength : option Z;
  pattern : option string;
  minProperties : option Z;
  maxProperties : option Z;
  required : list string;
  dependencies : list (string * (list string + subSchema));
  additionalProperties : option (bool + subSchema);
  patternProperties : list (string * subSchema);
  minItems : option Z;
  maxItems : option Z;
  uniqueItems : option bool;
  additionalItems : option (bool + subSchema);
  enum : list string;
  oneOf : list subSchema;
  anyOf : list subSchema;
  allOf : list subSchema;
  not : option subSchema
}.

Local Set Elimination Schemes.

(** The schema [{}]: every keyword absent. *)
Definition emptySubSchema : subSchema :=
  {| property := ""; types := jsonSchemaType.mk [];
     refSchema := None; itemsChildren := [];
     itemsChildrenIsSingleSchema := false; propertiesChildren := [];
     multipleOf := None; maximum := None; exclusiveMaximum := None;
     minimum := None; exclusiveMinimum := None;
     minLength := None; maxLength := None; pattern := None;
     minProperties := None; maxProperties := None; required := [];
     dependencies := []; additionalProperties := None;
     patternProperties := [];
     minItems := None; maxItems := None; uniqueItems := None;
     additionalItems := None; enum := [];
     oneOf := []; anyOf := []; allOf := []; not := None |}.

(** Induction along the [$ref] chain of a schema. *)
Lemma subSchema_ref_ind (P : subSchema -> Prop) :
  (forall s, (forall r, refSchema s = Some r -> P r) -> P s) ->
  forall s, P s.
Proof.
  intros step. fix IH 1. intros s. apply step.
  destruct s; simpl. intros r E.
  destruct refSchema0 as [r'|]; [| discriminate].
  injection E as <-. apply IH.
Qed.

(* ================================================================== *)
(** * JSON pointer context *)

(** Modelled from the spec: [jsonContext] (jsonContext.go) is not among the
    sources; the walker only calls [newJsonContext(head, tail)] and
    [String()].  "Immutable singly-linked list of path segments from root.
    Rendering: (root) for the empty path; otherwise (root).seg1.seg2...
    with numeric indices stringified"; the comment on [ResultError.Context]
    in result.go has the same form, "ex (root).a.b ...".  The root, the
    empty path, is the context without a tail, the one [Schema.Validate]
    builds with [newJsonContext(STRING_CONTEXT_ROOT, nil)]; the segments
    are the heads of the contexts below it.  The head of the root is the
    marker [STRING_CONTEXT_ROOT] and is no segment of the path. *)
Module jsonContext.
#[local] Unset Elimination Schemes.
Inductive t : Type := mk { head : string; tail : option t }.
#[local] Set Elimination Schemes.

Fixpoint String (c : t) : string :=
  match c with
  | mk _ None => "(root)"
  | mk h (Some tl) => (String tl ++ "." ++ h)%string
  end.
End jsonContext.

Definition newJsonContext (head : string) (tail : option jsonContext.t)
  : jsonContext.t := jsonContext.mk head tail.

(* ================================================================== *)
(** * Errors and results *)

(** What a call site passes as [requirement interface{}].  The value of
    [marshalSubSchema] / [marshalSubSchemas] is kept as the schema(s) it
    is computed from. *)
Inductive Requirement : Type :=
| ReqNil
| ReqString (s : string)
| ReqStrings (l : list string)
| ReqBool (b : bool)
| ReqInt (z : Z)
| ReqFloat (f : float)
| ReqRegexp (expr : string)
| ReqPatternProperties (m : list (string * subSchema))
| ReqSubSchema (s : subSchema)
| ReqSubSchemas (l : list subSchema).

(** The message formats.  Apart from [ERROR_MESSAGE_INTERNAL] their text is
    declared outside the sources, so a description is kept as the format
    and the arguments handed to [fmt.Sprintf]. *)
Inductive MessageFormat : Type :=
| ERROR_MESSAGE_INTERNAL
| invalidTypeErrorMessage | invalidAnyOfErrorMessage
| invalidOneOfErrorMessage | invalidAllOfErrorMessage
| invalidNotErrorMessage | invalidDependencyErrorMessage
| invalidEnumErrorMessage | invalidAdditionalItemsErrorMessage
| invalidMinItemsErrorMessage | invalidMaxItemsErrorMessage
| invalidUniqueItemsErrorMessage
| invalidMinProperties | invalidMaxProperties
| invalidRequiredErrorMessage | invalidAdditionalPropertyErrorMessage
| invalidPatternPropertyErrorMessage
| invalidMinLengthErrorMessage | invalidMaxLengthErrorMessage
| invalidPatternErrorMessage | invalidMultipleOfErrorMessage
| invalidExclusiveMaximumErrorMessage | invalidMaximumErrorMessage
| invalidExclusiveMinimumErrorMessage | invalidMinimumErrorMessage.

Inductive FormatArg : Type :=
| ArgString (s : string)
| ArgInt (z : Z)
| ArgBool (b : bool)
| ArgError (e : string)
| ArgRegexp (expr : string)
| ArgSubSchema (s : subSchema)
| ArgSubSchemas (l : list subSchema).

Inductive Description : Type :=
| Message (m : MessageFormat)
| Sprintf (m : MessageFormat) (a : list FormatArg).

Record ResultError : Type := mkResultError {
  Context : jsonContext.t;
  Description_ : Description;
  Value_ : Value;
  Attribute : string;
  Requirement_ : Requirement
}.

Record Result : Type := mkResult {
  errors : list ResultError;
  score : Z
}.

(** [&Result{}] *)
Definition newResult : Result := {| errors := []; score := 0 |}.

Definition Valid (v : Result) : bool :=
  Nat.eqb (List.length (errors v)) 0.

Definition Errors (v : Result) : list ResultError := errors v.

Definition addError (v : Result) (context : jsonContext.t) (attr : string)
    (requirement : Requirement) (value : Value) (description : Description)
  : Result :=
  let rerr := {| Context := context; Attribute := attr;
                 Requirement_ := requirement; Value_ := value;
                 Description_ := description |} in
  {| errors := errors v ++ [rerr]; score := score v - 2 |}.

Definition mergeErrors (v otherResult : Result) : Result :=
  {| errors := errors v ++ Errors otherResult;
     score := score v + score otherResult |}.

Definition incrementScore (v : Result) : Result :=
  {| errors := errors v; score := score v + 1 |}.

(** ** [ResultsByScore] and [getBestResult] *)

Definition ResultsByScore := list Result.

(** [Less(i, j)]: descending by score. *)
Definition Less (a b : Result) : bool := score b <? score a.

(** [sort.Sort(results)].  Go's sort is not stable and leaves the order of
    results with equal scores unspecified; an insertion sort stands for
    it.  [getBestResult] reads the first two scores of the sorted slice and
    returns its head only when they differ, so the outcome does not depend
    on how ties are ordered ([getBestResult_any_sort] below). *)
Fixpoint insertByScore (r : Result) (l : ResultsByScore) : ResultsByScore :=
  match l with
  | [] => [r]
  | x :: l' => if Less x r then x :: insertByScore r l' else r :: l
  end.

Fixpoint Sort (l : ResultsByScore) : ResultsByScore :=
  match l with
  | [] => []
  | r :: l' => insertByScore r (Sort l')
  end.

(** What [getBestResult] does once the slice is sorted. *)
Definition bestOfSorted (sorted : ResultsByScore) : option Result :=
  match sorted with
  | r0 :: r1 :: _ => if negb (score r0 =? score r1) then Some r0 else None
  | _ => None
  end.

Definition getBestResult (results : ResultsByScore) : option Result :=
  if (1 <? List.length results)%nat then bestOfSorted (Sort results)
  else None.

(* ================================================================== *)
(** * The validation phase *)

(** What the walker takes from the Go runtime and from files of the
    repository that are not among the sources. *)
Class Runtime : Type := {
  (** [range m] over a Go map: the entries of [m] in the order the loop
      visits them, each entry once.  The order is the runtime's choice;
      it is taken here as one function of the entries per run, which is
      enough for what is said of a single loop.  [Ranged] below lets every
      [range] statement that runs take its own order. *)
  rangeMap : forall A : Type, list (string * A) -> list (string * A);
  rangeMap_Permutation :
    forall (A : Type) (m : list (string * A)), Permutation (rangeMap A m) m;

  (** [regexp.MatchString(pattern, s)] and [Regexp.MatchString(s)] on a
      compiled pattern, the error of the former dropped as the call sites
      do. *)
  regexpMatchString : string -> string -> bool;

  (** [utf8.RuneCount([]byte(s))] *)
  RuneCount : string -> Z;

  (** Modelled from the spec: [marshalToJsonString] (utils.go) is not among
      the sources.  It yields the "canonical JSON" of a value or an error;
      a failure "is recorded as a dedicated internal error ... the
      invocation does not crash", so the string stays readable next to the
      error. *)
  marshalToJsonString : Value -> string * option string;

  (** [isFloat64AnInteger] and [resultErrorFormatNumber] (utils.go) and the
      [EmptyProperty] constant are declared outside the sources. *)
  isFloat64AnInteger : float -> bool;
  resultErrorFormatNumber : float -> string;
  EmptyProperty : Value
}.

Section Engine.

Context {rt : Runtime}.

Definition ContainsEnum (s : subSchema) (i : Value) : bool * option string :=
  let '(is_, err) := marshalToJsonString i in
  match err with
  | Some e => (false, Some e)
  | None => (isStringInSlice (enum s) is_, None)
  end.

Definition doubleQuote : string := String (ascii_of_nat 34) EmptyString.

Definition PatternPropertiesString (s : subSchema) : string :=
  if Nat.eqb (List.length (patternProperties s)) 0 then STRING_UNDEFINED
  else
    let patternPropertiesKeySlice :=
      map (fun kv => (doubleQuote ++ fst kv ++ doubleQuote)%string)
          (rangeMap _ (patternProperties s)) in
    match patternPropertiesKeySlice with
    | [k] => k
    | ks => ("[" ++ Join ks "," ++ "]")%string
    end.

(** ** [validateCommon] *)

Definition validateCommon (currentSubSchema : subSchema) (value : Value)
    (result : Result) (context : jsonContext.t) : Result :=
  let result :=
    if (0 <? List.length (enum currentSubSchema))%nat then
      let '(has, err) := ContainsEnum currentSubSchema value in
      let result :=
        match err with
        | Some e =>
            addError result context KEY_ENUM
              (ReqStrings (enum currentSubSchema)) value
              (Sprintf ERROR_MESSAGE_INTERNAL [ArgError e])
        | None => result
        end in
      if negb has then
        addError result context KEY_ENUM
          (ReqStrings (enum currentSubSchema)) value
          (Sprintf invalidEnumErrorMessage
             [ArgString (Join (enum currentSubSchema) ",")])
      else result
    else result in
  incrementScore result.

(** ** [validateString] *)

Definition validateString (currentSubSchema : subSchema) (value : Value)
    (result : Result) (context : jsonContext.t) : Result :=
  (* Ignore non strings *)
  if negb (isKind value reflect.String) then result
  else
    match value with
    | VString stringValue =>
        (* minLength & maxLength *)
        let result :=
          match minLength currentSubSchema with
          | Some min =>
              if RuneCount stringValue <? min then
                addError result context KEY_MIN_LENGTH (ReqInt min) value
                  (Sprintf invalidMinLengthErrorMessage [ArgInt min])
              else result
          | None => result
          end in
        let result :=
          match maxLength currentSubSchema with
          | Some max =>
              if max <? RuneCount stringValue then
                addError result context KEY_MAX_LENGTH (ReqInt max) value
                  (Sprintf invalidMaxLengthErrorMessage [ArgInt max])
              else result
          | None => result
          end in
        (* pattern *)
        let result :=
          match pattern currentSubSchema with
          | Some expr =>
              if negb (regexpMatchString expr stringValue) then
                addError result context KEY_PATTERN (ReqRegexp expr) value
                  (Sprintf invalidPatternErrorMessage [ArgRegexp expr])
              else result
          | None => result
          end in
        incrementScore result
    | _ => result
    end.

(** ** [validateNumber] *)

Definition isTrue (b : option bool) : bool :=
  match b with Some true => true | _ => false end.

Definition validateNumber (currentSubSchema : subSchema) (value : Value)
    (result : Result) (context : jsonContext.t) : Result :=
  (* Ignore non numbers *)
  if negb (isKind value reflect.Float64) then result
  else
    match value with
    | VFloat64 float64Value =>
        let shown := VString (resultErrorFormatNumber float64Value) in
        (* multipleOf *)
        let result :=
          match multipleOf currentSubSchema with
          | Some m =>
              if negb (isFloat64AnInteger (PrimFloat.div float64Value m)) then
                addError result context KEY_MULTIPLE_OF (ReqFloat m) shown
                  (Sprintf invalidMultipleOfErrorMessage
                     [ArgString (resultErrorFormatNumber m)])
              else result
          | None => result
          end in
        (* maximum & exclusiveMaximum *)
        let result :=
          match maximum currentSubSchema with
          | Some m =>
              if isTrue (exclusiveMaximum currentSubSchema) then
                if PrimFloat.leb m float64Value then
                  addError result context KEY_EXCLUSIVE_MAXIMUM (ReqFloat m)
                    shown
                    (Sprintf invalidExclusiveMaximumErrorMessage
                       [ArgString (resultErrorFormatNumber m)])
                else result
              else
                if PrimFloat.ltb m float64Value then
                  addError result context KEY_MAXIMUM (ReqFloat m) shown
                    (Sprintf invalidMaximumErrorMessage
                       [ArgString (resultErrorFormatNumber m)])
                else result
          | None => result
          end in
        (* minimum & exclusiveMinimum *)
        let result :=
          match minimum currentSubSchema with
          | Some m =>
              if isTrue (exclusiveMinimum currentSubSchema) then
                if PrimFloat.leb float64Value m then
                  addError result context KEY_EXCLUSIVE_MINIMUM (ReqFloat m)
                    shown
                    (Sprintf invalidExclusiveMinimumErrorMessage
                       [ArgString (resultErrorFormatNumber m)])
                else result
              else
                if PrimFloat.ltb float64Value m then
                  addError result context KEY_MINIMUM (ReqFloat m) shown
                    (Sprintf invalidMinimumErrorMessage
                       [ArgString (resultErrorFormatNumber m)])
                else result
          | None => result
          end in
        incrementScore result
    | _ => result
    end.

(** ** The routines that validate against child schemas

    They are written against [validateRecursive], the walker itself, which
    is tied below by recursion on the schema tree. *)

Section Walker.

Variable validateRecursive :
  subSchema -> Value -> Result -> jsonContext.t -> Result.

Definition subValidateWithContext (v : subSchema) (document : Value)
    (context : jsonContext.t) : Result :=
  let result := newResult in
  validateRecursive v document result context.

(** *** [validateSchema]: anyOf, oneOf, allOf, not, dependencies *)

(** The [anyOf] loop: alternatives are tried until one is valid. *)
Definition anyOfStep (currentNode : Value) (context : jsonContext.t)
    (st : bool * ResultsByScore) (anyOfSchema : subSchema)
  : bool * ResultsByScore :=
  let '(validatedAnyOf, results) := st in
  if negb validatedAnyOf then
    let validationResult :=
      subValidateWithContext anyOfSchema currentNode context in
    (Valid validationResult, results ++ [validationResult])
  else st.

Definition validateAnyOf (currentSubSchema : subSchema) (currentNode : Value)
    (result : Result) (context : jsonContext.t) : Result :=
  if (0 <? List.length (anyOf currentSubSchema))%nat then
    let '(validatedAnyOf, results) :=
      fold_left (anyOfStep currentNode context)
        (anyOf currentSubSchema) (false, []) in
    if negb validatedAnyOf then
      match getBestResult results with
      | Some bestValidationResult =>
          (* add error messages of closest matching subSchema *)
          mergeErrors result bestValidationResult
      | None =>
          addError result context KEY_ANY_OF
            (ReqSubSchemas (anyOf currentSubSchema)) currentNode
            (Sprintf invalidAnyOfErrorMessage
               [ArgSubSchemas (anyOf currentSubSchema)])
      end
    else result
  else result.

(** The [oneOf] loop: every alternative runs; failures are collected. *)
Definition oneOfStep (currentNode : Value) (context : jsonContext.t)
    (st : ResultsByScore * Z) (oneOfSchema : subSchema)
  : ResultsByScore * Z :=
  let '(results, nbValidated) := st in
  let validationResult :=
    subValidateWithContext oneOfSchema currentNode context in
  if Valid validationResult then (results, nbValidated + 1)
  else (results ++ [validationResult], nbValidated).

Definition validateOneOf (currentSubSchema : subSchema) (currentNode : Value)
    (result : Result) (context : jsonContext.t) : Result :=
  if (0 <? List.length (oneOf currentSubSchema))%nat then
    let '(results, nbValidated) :=
      fold_left (oneOfStep currentNode context)
        (oneOf currentSubSchema) ([], 0) in
    if negb (nbValidated =? 1) then
      let bestValidationResult :=
        if nbValidated =? 0 then getBestResult results else None in
      match bestValidationResult with
      | Some best => mergeErrors result best
      | None =>
          addError result context KEY_ONE_OF
            (ReqSubSchemas (oneOf currentSubSchema)) currentNode
            (Sprintf invalidOneOfErrorMessage
               [ArgSubSchemas (oneOf currentSubSchema)])
      end
    else result
  else result.

Definition allOfStep (currentNode : Value) (context : jsonContext.t)
    (st : Result * Z) (allOfSchema : subSchema) : Result * Z :=
  let '(result, nbValidated) := st in
  let validationResult :=
    subValidateWithContext allOfSchema currentNode context in
  (mergeErrors result validationResult,
   if Valid validationResult then nbValidated + 1 else nbValidated).

Definition validateAllOf (currentSubSchema : subSchema) (currentNode : Value)
    (result : Result) (context : jsonContext.t) : Result :=
  if (0 <? List.length (allOf currentSubSchema))%nat then
    let '(result, nbValidated) :=
      fold_left (allOfStep currentNode context)
        (allOf currentSubSchema) (result, 0) in
    if negb (nbValidated =? Z.of_nat (List.length (allOf currentSubSchema)))
    then
      addError result context KEY_ALL_OF
        (ReqSubSchemas (allOf currentSubSchema)) currentNode
        (Sprintf invalidAllOfErrorMessage
           [ArgSubSchemas (allOf currentSubSchema)])
    else result
  else result.

Definition validateNot (currentSubSchema : subSchema) (currentNode : Value)
    (result : Result) (context : jsonContext.t) : Result :=
  match not currentSubSchema with
  | Some notSchema =>
      let validationResult :=
        subValidateWithContext notSchema currentNode context in
      if Valid validationResult then
        addError result context KEY_NOT (ReqSubSchema notSchema) currentNode
          (Sprintf invalidNotErrorMessage [ArgSubSchema notSchema])
      else result
  | None => result
  end.

(** One key of the object against its [dependencies] entry: a list of
    names that must be present, or a schema the whole object is run
    through with the caller's result and context.  [deps] is the
    [dependencies] map with the walker already bound to each schema. *)
Definition dependencyStep (m : list (string * Value)) (currentNode : Value)
    (context : jsonContext.t)
    (deps : list (string *
              (list string + (Value -> Result -> jsonContext.t -> Result))))
    (result : Result) (elementKey : string) : Result :=
  match lookup elementKey deps with
  | Some (inl dependency) =>
      fold_left (fun result dependOnKey =>
          match lookup dependOnKey m with
          | None =>
              addError result (newJsonContext elementKey (Some context))
                KEY_DEPENDENCIES (ReqStrings dependency) currentNode
                (Sprintf invalidDependencyErrorMessage [ArgString dependOnKey])
          | Some _ => result
          end) dependency result
  | Some (inr dependency) => dependency currentNode result context
  | None => result
  end.

Definition validateDependencies (currentSubSchema : subSchema)
    (currentNode : Value) (result : Result) (context : jsonContext.t)
  : Result :=
  if (0 <? List.length (dependencies currentSubSchema))%nat then
    if isKind currentNode reflect.Map then
      match currentNode with
      | VMap m =>
          let deps :=
            map (fun kv =>
                   (fst kv,
                    match snd kv with
                    | inl names => inl names
                    | inr dependency => inr (validateRecursive dependency)
                    end)) (dependencies currentSubSchema) in
          fold_left (dependencyStep m currentNode context deps)
            (map fst (rangeMap _ m)) result
      | _ => result
      end
    else result
  else result.

Definition validateSchema (currentSubSchema : subSchema) (currentNode : Value)
    (result : Result) (context : jsonContext.t) : Result :=
  let result := validateAnyOf currentSubSchema currentNode result context in
  let result := validateOneOf currentSubSchema currentNode result context in
  let result := validateAllOf currentSubSchema currentNode result context in
  let result := validateNot currentSubSchema currentNode result context in
  let result :=
    validateDependencies currentSubSchema currentNode result context in
  incrementScore result.

(** *** [validateArray] *)

(** The indices of [for i := from; i != to; i++]. *)
Definition indices (from to : nat) : list nat := seq from (to - from).

(** One round of an item loop: element [i] is validated in a fresh result
    under the sub-context [i], and the outcome is merged. *)
Definition validateItemAt
    (schemaAt : nat -> Value -> jsonContext.t -> Result)
    (value : list Value) (context : jsonContext.t)
    (result : Result) (i : nat) : Result :=
  let subContext := newJsonContext (Itoa i) (Some context) in
  let validationResult := schemaAt i (nth i value VNil) subContext in
  mergeErrors result validationResult.

Definition uniqueItemsStep (value : list Value) (context : jsonContext.t)
    (st : Result * list string) (v : Value) : Result * list string :=
  let '(result, stringifiedItems) := st in
  let '(vString, err) := marshalToJsonString v in
  let result :=
    match err with
    | Some e =>
        addError result context KEY_UNIQUE_ITEMS ReqNil (VSlice value)
          (Sprintf ERROR_MESSAGE_INTERNAL [ArgError e])
    | None => result
    end in
  let result :=
    if isStringInSlice stringifiedItems vString then
      addError result context KEY_UNIQUE_ITEMS ReqNil (VSlice value)
        (Message invalidUniqueItemsErrorMessage)
    else result in
  (result, stringifiedItems ++ [vString]).

(** The [items] / [additionalItems] part of [validateArray].  With
    [itemsChildrenIsSingleSchema] the builder has stored the one schema in
    [itemsChildren[0]]; a schema with the flag set and no child, on which
    [itemsChildren[0]] would be out of range, is not one the builder
    makes and is left alone here. *)
Definition validateItems (currentSubSchema : subSchema) (value : list Value)
    (result : Result) (context : jsonContext.t) : Result :=
  if itemsChildrenIsSingleSchema currentSubSchema then
    match itemsChildren currentSubSchema with
    | item0 :: _ =>
        fold_left
          (validateItemAt (fun _ => subValidateWithContext item0)
             value context)
          (indices 0 (List.length value)) result
    | [] => result
    end
  else
    if (0 <? List.length (itemsChildren currentSubSchema))%nat then
      let nbItems := List.length (itemsChildren currentSubSchema) in
      let nbValues := List.length value in
      let items :=
        map subValidateWithContext (itemsChildren currentSubSchema) in
      if Nat.eqb nbItems nbValues then
        fold_left
          (validateItemAt (fun i => nth i items (fun _ _ => newResult))
             value context)
          (indices 0 nbItems) result
      else if (nbItems <? nbValues)%nat then
        match additionalItems currentSubSchema with
        | Some (inl b) =>
            if negb b then
              addError result context KEY_ADDITIONAL_ITEMS (ReqBool b)
                (VSlice value)
                (Sprintf invalidAdditionalItemsErrorMessage [ArgBool false])
            else result
        | Some (inr additionalItemSchema) =>
            fold_left
              (validateItemAt
                 (fun _ => subValidateWithContext additionalItemSchema)
                 value context)
              (indices nbItems nbValues) result
        | None => result
        end
      else result
    else result.

Definition validateArray (currentSubSchema : subSchema) (value : list Value)
    (result : Result) (context : jsonContext.t) : Result :=
  let nbItems := Z.of_nat (List.length value) in
  let result := validateItems currentSubSchema value result context in
  (* minItems & maxItems *)
  let result :=
    match minItems currentSubSchema with
    | Some min =>
        if nbItems <? min then
          addError result context KEY_MIN_ITEMS (ReqInt min) (VSlice value)
            (Sprintf invalidMinItemsErrorMessage [ArgInt min])
        else result
    | None => result
    end in
  let result :=
    match maxItems currentSubSchema with
    | Some max =>
        if max <? nbItems then
          addError result context KEY_MAX_ITEMS (ReqInt max) (VSlice value)
            (Sprintf invalidMaxItemsErrorMessage [ArgInt max])
        else result
    | None => result
    end in
  (* uniqueItems *)
  let result :=
    if isTrue (uniqueItems currentSubSchema) then
      fst (fold_left (uniqueItemsStep value context) value (result, []))
    else result in
  incrementScore result.

(** *** [validatePatternProperty] *)

(** One entry [pk, pv] of [patternProperties] against the key; [pv]
    arrives with the walker bound to it ([pv.subValidateWithContext]). *)
Definition patternPropertyStep (key : string) (value : Value)
    (context : jsonContext.t) (st : Result * bool * bool)
    (entry : string * (Value -> jsonContext.t -> Result))
  : Result * bool * bool :=
  let '(result, has, validatedkey) := st in
  let '(pk, pv) := entry in
  if regexpMatchString pk key then
    let subContext := newJsonContext key (Some context) in
    let validationResult := pv value subContext in
    (mergeErrors result validationResult, true,
     if Valid validationResult then true else validatedkey)
  else st.

Definition validatePatternProperty (currentSubSchema : subSchema)
    (key : string) (value : Value) (result : Result)
    (context : jsonContext.t) : Result * (bool * bool) :=
  let '(result, has, validatedkey) :=
    fold_left (patternPropertyStep key value context)
      (rangeMap _
         (map (fun kv => (fst kv, subValidateWithContext (snd kv)))
              (patternProperties currentSubSchema)))
      (result, false, false) in
  if negb validatedkey then (result, (has, false))
  else (incrementScore result, (has, true)).

(** *** [validateObject] *)

(** [found]: the key is the name of one of [propertiesChildren]. *)
Definition propertyFound (currentSubSchema : subSchema) (pk : string) : bool :=
  existsb (fun spValue => String.eqb pk (property spValue))
          (propertiesChildren currentSubSchema).

(** The body of [for pk := range value] when [additionalProperties] is the
    boolean [false]. *)
Definition additionalPropertiesFalseStep (currentSubSchema : subSchema)
    (value : list (string * Value)) (context : jsonContext.t)
    (result : Result) (pk : string) : Result :=
  let found := propertyFound currentSubSchema pk in
  let '(result, (pp_has, pp_match)) :=
    validatePatternProperty currentSubSchema pk (valueAt value pk)
      result context in
  if found then
    if pp_has && negb pp_match then
      addError result (newJsonContext pk (Some context))
        KEY_ADDITIONAL_PROPERTIES
        (ReqPatternProperties (patternProperties currentSubSchema))
        EmptyProperty
        (Sprintf invalidAdditionalPropertyErrorMessage [ArgString pk])
    else result
  else
    if negb pp_has || negb pp_match then
      addError result (newJsonContext pk (Some context))
        KEY_ADDITIONAL_PROPERTIES ReqNil EmptyProperty
        (Sprintf invalidAdditionalPropertyErrorMessage [ArgString pk])
    else result.

(** The same loop when [additionalProperties] is a schema. *)
Definition additionalPropertiesSchemaStep (currentSubSchema : subSchema)
    (additionalPropertiesSchema : Value -> jsonContext.t -> Result)
    (value : list (string * Value)) (context : jsonContext.t)
    (result : Result) (pk : string) : Result :=
  let found := propertyFound currentSubSchema pk in
  let '(result, (pp_has, pp_match)) :=
    validatePatternProperty currentSubSchema pk (valueAt value pk)
      result context in
  if found then
    if pp_has && negb pp_match then
      let validationResult :=
        additionalPropertiesSchema (valueAt value pk) context in
      mergeErrors result validationResult
    else result
  else
    if negb pp_has || negb pp_match then
      let validationResult :=
        additionalPropertiesSchema (valueAt value pk) context in
      mergeErrors result validationResult
    else result.

(** The loop when [additionalProperties] is absent. *)
Definition patternPropertiesOnlyStep (currentSubSchema : subSchema)
    (value : list (string * Value)) (context : jsonContext.t)
    (result : Result) (pk : string) : Result :=
  let '(result, (pp_has, pp_match)) :=
    validatePatternProperty currentSubSchema pk (valueAt value pk)
      result context in
  if pp_has && negb pp_match then
    addError result (newJsonContext pk (Some context))
      KEY_PATTERN_PROPERTIES
      (ReqPatternProperties (patternProperties currentSubSchema))
      (VMap value)
      (Sprintf invalidPatternPropertyErrorMessage
         [ArgString (PatternPropertiesString currentSubSchema)])
  else result.

Definition requiredStep (value : list (string * Value))
    (context : jsonContext.t) (result : Result) (requiredProperty : string)
  : Result :=
  match lookup requiredProperty value with
  | Some _ => incrementScore result
  | None =>
      addError result (newJsonContext requiredProperty (Some context))
        KEY_REQUIRED ReqNil EmptyProperty
        (Message invalidRequiredErrorMessage)
  end.

Definition validateObject (currentSubSchema : subSchema)
    (value : list (string * Value)) (result : Result)
    (context : jsonContext.t) : Result :=
  let len := Z.of_nat (List.length value) in
  (* minProperties & maxProperties *)
  let result :=
    match minProperties currentSubSchema with
    | Some min =>
        if len <? min then
          addError result context KEY_MIN_PROPERTIES (ReqInt min)
            (VMap value) (Sprintf invalidMinProperties [ArgInt min])
        else result
    | None => result
    end in
  let result :=
    match maxProperties currentSubSchema with
    | Some max =>
        if max <? len then
          addError result context KEY_MAX_PROPERTIES (ReqInt max)
            (VMap value) (Sprintf invalidMaxProperties [ArgInt max])
        else result
    | None => result
    end in
  (* required *)
  let result :=
    fold_left (requiredStep value context)
      (required currentSubSchema) result in
  (* additionalProperty & patternProperty *)
  let keys := map fst (rangeMap _ value) in
  let result :=
    match additionalProperties currentSubSchema with
    | Some (inl b) =>
        if negb b then
          fold_left
            (additionalPropertiesFalseStep currentSubSchema value context)
            keys result
        else result
    | Some (inr additionalPropertiesSchema) =>
        fold_left
          (additionalPropertiesSchemaStep currentSubSchema
             (subValidateWithContext additionalPropertiesSchema)
             value context)
          keys result
    | None =>
        fold_left (patternPropertiesOnlyStep currentSubSchema value context)
          keys result
    end in
  incrementScore result.

(** *** The walker below its [$ref] test *)

Definition typeError (currentSubSchema : subSchema) (currentNode : Value)
    (result : Result) (context : jsonContext.t) : Result :=
  addError result context KEY_TYPE
    (ReqString (jsonSchemaType.String (types currentSubSchema)))
    currentNode
    (Sprintf invalidTypeErrorMessage
       [ArgString (jsonSchemaType.String (types currentSubSchema))]).

(** [IsTyped() && !Contains(t)] *)
Definition typeMismatch (currentSubSchema : subSchema) (t : string) : bool :=
  jsonSchemaType.IsTyped (types currentSubSchema)
  && negb (jsonSchemaType.Contains (types currentSubSchema) t).

Definition propertyStep (castCurrentNode : list (string * Value))
    (context : jsonContext.t) (result : Result) (pSchema : subSchema)
  : Result :=
  match lookup (property pSchema) castCurrentNode with
  | Some nextNode =>
      let subContext := newJsonContext (property pSchema) (Some context) in
      validateRecursive pSchema nextNode result subContext
  | None => result
  end.

(** What [validateRecursive] does once [refSchema] is known to be [nil]:
    the null test, the [switch] on the reflected kind (which has no
    [default] case), and the closing [incrementScore].  A type error
    returns at once. *)
Definition validateNode (currentSubSchema : subSchema) (currentNode : Value)
    (result : Result) (context : jsonContext.t) : Result :=
  match currentNode with
  | VNil =>
      if typeMismatch currentSubSchema TYPE_NULL then
        typeError currentSubSchema currentNode result context
      else
        let result :=
          validateSchema currentSubSchema currentNode result context in
        let result :=
          validateCommon currentSubSchema currentNode result context in
        incrementScore result
  | VSlice castCurrentNode =>
      if typeMismatch currentSubSchema TYPE_ARRAY then
        typeError currentSubSchema currentNode result context
      else
        let result :=
          validateSchema currentSubSchema currentNode result context in
        let result :=
          validateArray currentSubSchema castCurrentNode result context in
        let result :=
          validateCommon currentSubSchema currentNode result context in
        incrementScore result
  | VMap castCurrentNode =>
      if typeMismatch currentSubSchema TYPE_OBJECT then
        typeError currentSubSchema currentNode result context
      else
        let result :=
          validateSchema currentSubSchema currentNode result context in
        let result :=
          validateObject currentSubSchema castCurrentNode result context in
        let result :=
          validateCommon currentSubSchema currentNode result context in
        let result :=
          fold_left (propertyStep castCurrentNode context)
            (propertiesChildren currentSubSchema) result in
        incrementScore result
  | VBool _ =>
      if typeMismatch currentSubSchema TYPE_BOOLEAN then
        typeError currentSubSchema currentNode result context
      else
        let result :=
          validateSchema currentSubSchema currentNode result context in
        let result :=
          validateNumber currentSubSchema currentNode result context in
        let result :=
          validateCommon currentSubSchema currentNode result context in
        let result :=
          validateString currentSubSchema currentNode result context in
        incrementScore result
  | VString _ =>
      if typeMismatch currentSubSchema TYPE_STRING then
        typeError currentSubSchema currentNode result context
      else
        let result :=
          validateSchema currentSubSchema currentNode result context in
        let result :=
          validateNumber currentSubSchema currentNode result context in
        let result :=
          validateCommon currentSubSchema currentNode result context in
        let result :=
          validateString currentSubSchema currentNode result context in
        incrementScore result
  | VFloat64 value =>
      let isInteger := isFloat64AnInteger value in
      let validType :=
        jsonSchemaType.Contains (types currentSubSchema) TYPE_NUMBER
        || (isInteger
            && jsonSchemaType.Contains (types currentSubSchema) TYPE_INTEGER)
      in
      if jsonSchemaType.IsTyped (types currentSubSchema) && negb validType
      then typeError currentSubSchema currentNode result context
      else
        let result :=
          validateSchema currentSubSchema currentNode result context in
        let result :=
          validateNumber currentSubSchema currentNode result context in
        let result :=
          validateCommon currentSubSchema currentNode result context in
        let result :=
          validateString currentSubSchema currentNode result context in
        incrementScore result
  | VOther _ => incrementScore result
  end.

End Walker.

(** ** [validateRecursive]

    Handle referenced schemas first (returns directly when a [$ref] is
    found), then the node itself. *)
Fixpoint validateRecursive (currentSubSchema : subSchema)
    (currentNode : Value) (result : Result) (context : jsonContext.t)
    {struct currentSubSchema} : Result :=
  match refSchema currentSubSchema with
  | Some ref =>
      validateRecursive ref currentNode result context
  | None =>
      validateNode validateRecursive currentSubSchema currentNode
        result context
  end.

(** ** [Schema.Validate] *)

Record Schema : Type := mkSchema { rootSchema : subSchema }.

(** A [JSONLoader], seen through what [loadJSON] returns: the document or
    an error. *)
Definition JSONLoader : Type := Value + string.

Definition Validate (v : Schema) (l : JSONLoader) : Result + string :=
  match l with
  | inr err => inr err
  | inl root =>
      let result := newResult in
      let context := newJsonContext STRING_CONTEXT_ROOT None in
      inl (validateRecursive (rootSchema v) root result context)
  end.

End Engine.

(* ================================================================== *)
(** * The walker with every [range] over a map counted

    Go draws the order of a [range] over a map when the statement starts:
    two [range] statements over the same map, or one statement run twice,
    may visit the entries in different orders.  The routines that range
    over a map, and those that call them, are written here a second time
    with the number of such statements run so far carried along: a
    routine takes that number and gives it back, raised by one for every
    [range] over a map it has run, and statement number [n] of a run
    visits the entries in the order [pick n] gives.  The routines that
    have no such statement below them ([validateString], [validateNumber],
    [validateCommon], the methods of [Result]) are those above. *)
Module Ranged.

(** The orders of one invocation: for each [range] statement over a map,
    by its number in the run, the order in which it visits the entries. *)
Record Choice : Type := {
  pick : nat -> forall A : Type, list (string * A) -> list (string * A);
  pick_Permutation :
    forall (n : nat) (A : Type) (m : list (string * A)),
      Permutation (pick n A m) m
}.

(** A routine that runs [range] statements: from the number of those run
    before it to its outcome and the number run after it. *)
Definition Run (A : Type) : Type := nat -> A * nat.

Definition ret {A : Type} (a : A) : Run A := fun n => (a, n).

Definition bind {A B : Type} (m : Run A) (k : A -> Run B) : Run B :=
  fun n => let x := m n in k (fst x) (snd x).

Notation "x <- m ;; k" := (bind m (fun x => k))
  (at level 61, m at next level, right associativity).

Notation "' pat <- m ;; k" := (bind m (fun x => match x with pat => k end))
  (at level 61, pat pattern, m at next level, right associativity).

(** [for k, v := range m] over a map: the entries in the order picked for
    this statement. *)
Definition range (choice : Choice) {A : Type} (m : list (string * A))
  : Run (list (string * A)) :=
  fun n => (pick choice n A m, S n).

(** A loop whose body may run [range] statements. *)
Definition forEach {S A : Type} (step : S -> A -> Run S)
  : list A -> S -> Run S :=
  fix loop (l : list A) (st : S) : Run S :=
    match l with
    | [] => ret st
    | a :: l' => bind (step st a) (loop l')
    end.

Section Walker.

Context {rt : Runtime}.

Variable choice : Choice.

Definition PatternPropertiesString (s : subSchema) : Run string :=
  if Nat.eqb (List.length (patternProperties s)) 0 then ret STRING_UNDEFINED
  else
    entries <- range choice (patternProperties s) ;;
    let patternPropertiesKeySlice :=
      map (fun kv => (doubleQuote ++ fst kv ++ doubleQuote)%string)
          entries in
    ret match patternPropertiesKeySlice with
        | [k] => k
        | ks => ("[" ++ Join ks "," ++ "]")%string
        end.

Variable validateRecursive :
  subSchema -> Value -> Result -> jsonContext.t -> Run Result.

Definition subValidateWithContext (v : subSchema) (document : Value)
    (context : jsonContext.t) : Run Result :=
  let result := newResult in
  validateRecursive v document result context.

(** *** [validateSchema]: anyOf, oneOf, allOf, not, dependencies *)

Definition anyOfStep (currentNode : Value) (context : jsonContext.t)
    (st : bool * ResultsByScore) (anyOfSchema : subSchema)
  : Run (bool * ResultsByScore) :=
  let '(validatedAnyOf, results) := st in
  if negb validatedAnyOf then
    validationResult <-
      subValidateWithContext anyOfSchema currentNode context ;;
    ret (Valid validationResult, results ++ [validationResult])
  else ret st.

Definition validateAnyOf (currentSubSchema : subSchema) (currentNode : Value)
    (result : Result) (context : jsonContext.t) : Run Result :=
  if (0 <? List.length (anyOf currentSubSchema))%nat then
    ' (validatedAnyOf, results) <-
      forEach (anyOfStep currentNode context)
        (anyOf currentSubSchema) (false, []) ;;
    if negb validatedAnyOf then
      match getBestResult results with
      | Some bestValidationResult =>
          (* add error messages of closest matching subSchema *)
          ret (mergeErrors result bestValidationResult)
      | None =>
          ret (addError result context KEY_ANY_OF
                 (ReqSubSchemas (anyOf currentSubSchema)) currentNode
                 (Sprintf invalidAnyOfErrorMessage
                    [ArgSubSchemas (anyOf currentSubSchema)]))
      end
    else ret result
  else ret result.

Definition oneOfStep (currentNode : Value) (context : jsonContext.t)
    (st : ResultsByScore * Z) (oneOfSchema : subSchema)
  : Run (ResultsByScore * Z) :=
  let '(results, nbValidated) := st in
  validationResult <-
    subValidateWithContext oneOfSchema currentNode context ;;
  if Valid validationResult then ret (results, nbValidated + 1)
  else ret (results ++ [validationResult], nbValidated).

Definition validateOneOf (currentSubSchema : subSchema) (currentNode : Value)
    (result : Result) (context : jsonContext.t) : Run Result :=
  if (0 <? List.length (oneOf currentSubSchema))%nat then
    ' (results, nbValidated) <-
      forEach (oneOfStep currentNode context)
        (oneOf currentSubSchema) ([], 0) ;;
    if negb (nbValidated =? 1) then
      let bestValidationResult :=
        if nbValidated =? 0 then getBestResult results else None in
      match bestValidationResult with
      | Some best => ret (mergeErrors result best)
      | None =>
          ret (addError result context KEY_ONE_OF
                 (ReqSubSchemas (oneOf currentSubSchema)) currentNode
                 (Sprintf invalidOneOfErrorMessage
                    [ArgSubSchemas (oneOf currentSubSchema)]))
      end
    else ret result
  else ret result.

Definition allOfStep (currentNode : Value) (context : jsonContext.t)
    (st : Result * Z) (allOfSchema : subSchema) : Run (Result * Z) :=
  let '(result, nbValidated) := st in
  validationResult <-
    subValidateWithContext allOfSchema currentNode context ;;
  ret (mergeErrors result validationResult,
       if Valid validationResult then nbValidated + 1 else nbValidated).

Definition validateAllOf (currentSubSchema : subSchema) (currentNode : Value)
    (result : Result) (context : jsonContext.t) : Run Result :=
  if (0 <? List.length (allOf currentSubSchema))%nat then
    ' (result, nbValidated) <-
      forEach (allOfStep currentNode context)
        (allOf currentSubSchema) (result, 0) ;;
    if negb (nbValidated =? Z.of_nat (List.length (allOf currentSubSchema)))
    then
      ret (addError result context KEY_ALL_OF
             (ReqSubSchemas (allOf currentSubSchema)) currentNode
             (Sprintf invalidAllOfErrorMessage
                [ArgSubSchemas (allOf currentSubSchema)]))
    else ret result
  else ret result.

Definition validateNot (currentSubSchema : subSchema) (currentNode : Value)
    (result : Result) (context : jsonContext.t) : Run Result :=
  match not currentSubSchema with
  | Some notSchema =>
      validationResult <-
        subValidateWithContext notSchema currentNode context ;;
      if Valid validationResult then
        ret (addError result context KEY_NOT (ReqSubSchema notSchema)
               currentNode
               (Sprintf invalidNotErrorMessage [ArgSubSchema notSchema]))
      else ret result
  | None => ret result
  end.

(** One key of the object against its [dependencies] entry; [deps] is the
    [dependencies] map with the walker already bound to each schema. *)
Definition dependencyStep (m : list (string * Value)) (currentNode : Value)
    (context : jsonContext.t)
    (deps : list (string *
              (list string
               + (Value -> Result -> jsonContext.t -> Run Result))))
    (result : Result) (elementKey : string) : Run Result :=
  match lookup elementKey deps with
  | Some (inl dependency) =>
      ret (fold_left (fun result dependOnKey =>
             match lookup dependOnKey m with
             | None =>
                 addError result (newJsonContext elementKey (Some context))
                   KEY_DEPENDENCIES (ReqStrings dependency) currentNode
                   (Sprintf invalidDependencyErrorMessage
                      [ArgString dependOnKey])
             | Some _ => result
             end) dependency result)
  | Some (inr dependency) => dependency currentNode result context
  | None => ret result
  end.

Definition validateDependencies (currentSubSchema : subSchema)
    (currentNode : Value) (result : Result) (context : jsonContext.t)
  : Run Result :=
  if (0 <? List.length (dependencies currentSubSchema))%nat then
    if isKind currentNode reflect.Map then
      match currentNode with
      | VMap m =>
          let deps :=
            map (fun kv =>
                   (fst kv,
                    match snd kv with
                    | inl names => inl names
                    | inr dependency => inr (validateRecursive dependency)
                    end)) (dependencies currentSubSchema) in
          entries <- range choice m ;;
          forEach (dependencyStep m currentNode context deps)
            (map fst entries) result
      | _ => ret result
      end
    else ret result
  else ret result.

Definition validateSchema (currentSubSchema : subSchema) (currentNode : Value)
    (result : Result) (context : jsonContext.t) : Run Result :=
  result <- validateAnyOf currentSubSchema currentNode result context ;;
  result <- validateOneOf currentSubSchema currentNode result context ;;
  result <- validateAllOf currentSubSchema currentNode result context ;;
  result <- validateNot currentSubSchema currentNode result context ;;
  result <-
    validateDependencies currentSubSchema currentNode result context ;;
  ret (incrementScore result).

(** *** [validateArray] *)

Definition validateItemAt
    (schemaAt : nat -> Value -> jsonContext.t -> Run Result)
    (value : list Value) (context : jsonContext.t)
    (result : Result) (i : nat) : Run Result :=
  let subContext := newJsonContext (Itoa i) (Some context) in
  validationResult <- schemaAt i (nth i value VNil) subContext ;;
  ret (mergeErrors result validationResult).

Definition validateItems (currentSubSchema : subSchema) (value : list Value)
    (result : Result) (context : jsonContext.t) : Run Result :=
  if itemsChildrenIsSingleSchema currentSubSchema then
    match itemsChildren currentSubSchema with
    | item0 :: _ =>
        forEach
          (validateItemAt (fun _ => subValidateWithContext item0)
             value context)
          (indices 0 (List.length value)) result
    | [] => ret result
    end
  else
    if (0 <? List.length (itemsChildren currentSubSchema))%nat then
      let nbItems := List.length (itemsChildren currentSubSchema) in
      let nbValues := List.length value in
      let items :=
        map subValidateWithContext (itemsChildren currentSubSchema) in
      if Nat.eqb nbItems nbValues then
        forEach
          (validateItemAt (fun i => nth i items (fun _ _ => ret newResult))
             value context)
          (indices 0 nbItems) result
      else if (nbItems <? nbValues)%nat then
        match additionalItems currentSubSchema with
        | Some (inl b) =>
            if negb b then
              ret (addError result context KEY_ADDITIONAL_ITEMS (ReqBool b)
                     (VSlice value)
                     (Sprintf invalidAdditionalItemsErrorMessage
                        [ArgBool false]))
            else ret result
        | Some (inr additionalItemSchema) =>
            forEach
              (validateItemAt
                 (fun _ => subValidateWithContext additionalItemSchema)
                 value context)
              (indices nbItems nbValues) result
        | None => ret result
        end
      else ret result
    else ret result.

Definition validateArray (currentSubSchema : subSchema) (value : list Value)
    (result : Result) (context : jsonContext.t) : Run Result :=
  let nbItems := Z.of_nat (List.length value) in
  result <- validateItems currentSubSchema value result context ;;
  (* minItems & maxItems *)
  let result :=
    match minItems currentSubSchema with
    | Some min =>
        if nbItems <? min then
          addError result context KEY_MIN_ITEMS (ReqInt min) (VSlice value)
            (Sprintf invalidMinItemsErrorMessage [ArgInt min])
        else result
    | None => result
    end in
  let result :=
    match maxItems currentSubSchema with
    | Some max =>
        if max <? nbItems then
          addError result context KEY_MAX_ITEMS (ReqInt max) (VSlice value)
            (Sprintf invalidMaxItemsErrorMessage [ArgInt max])
        else result
    | None => result
    end in
  (* uniqueItems *)
  let result :=
    if isTrue (uniqueItems currentSubSchema) then
      fst (fold_left (uniqueItemsStep value context) value (result, []))
    else result in
  ret (incrementScore result).

(** *** [validatePatternProperty] *)

Definition patternPropertyStep (key : string) (value : Value)
    (context : jsonContext.t) (st : Result * bool * bool)
    (entry : string * (Value -> jsonContext.t -> Run Result))
  : Run (Result * bool * bool) :=
  let '(result, has, validatedkey) := st in
  let '(pk, pv) := entry in
  if regexpMatchString pk key then
    let subContext := newJsonContext key (Some context) in
    validationResult <- pv value subContext ;;
    ret (mergeErrors result validationResult, true,
         if Valid validationResult then true else validatedkey)
  else ret st.

Definition validatePatternProperty (currentSubSchema : subSchema)
    (key : string) (value : Value) (result : Result)
    (context : jsonContext.t) : Run (Result * (bool * bool)) :=
  entries <-
    range choice
      (map (fun kv => (fst kv, subValidateWithContext (snd kv)))
           (patternProperties currentSubSchema)) ;;
  ' (result, has, validatedkey) <-
    forEach (patternPropertyStep key value context) entries
      (result, false, false) ;;
  if negb validatedkey then ret (result, (has, false))
  else ret (incrementScore result, (has, true)).

(** *** [validateObject] *)

Definition additionalPropertiesFalseStep (currentSubSchema : subSchema)
    (value : list (string * Value)) (context : jsonContext.t)
    (result : Result) (pk : string) : Run Result :=
  let found := propertyFound currentSubSchema pk in
  ' (result, (pp_has, pp_match)) <-
    validatePatternProperty currentSubSchema pk (valueAt value pk)
      result context ;;
  if found then
    if pp_has && negb pp_match then
      ret (addError result (newJsonContext pk (Some context))
             KEY_ADDITIONAL_PROPERTIES
             (ReqPatternProperties (patternProperties currentSubSchema))
             EmptyProperty
             (Sprintf invalidAdditionalPropertyErrorMessage [ArgString pk]))
    else ret result
  else
    if negb pp_has || negb pp_match then
      ret (addError result (newJsonContext pk (Some context))
             KEY_ADDITIONAL_PROPERTIES ReqNil EmptyProperty
             (Sprintf invalidAdditionalPropertyErrorMessage [ArgString pk]))
    else ret result.

Definition additionalPropertiesSchemaStep (currentSubSchema : subSchema)
    (additionalPropertiesSchema : Value -> jsonContext.t -> Run Result)
    (value : list (string * Value)) (context : jsonContext.t)
    (result : Result) (pk : string) : Run Result :=
  let found := propertyFound currentSubSchema pk in
  ' (result, (pp_has, pp_match)) <-
    validatePatternProperty currentSubSchema pk (valueAt value pk)
      result context ;;
  if found then
    if pp_has && negb pp_match then
      validationResult <-
        additionalPropertiesSchema (valueAt value pk) context ;;
      ret (mergeErrors result validationResult)
    else ret result
  else
    if negb pp_has || negb pp_match then
      validationResult <-
        additionalPropertiesSchema (valueAt value pk) context ;;
      ret (mergeErrors result validationResult)
    else ret result.

Definition patternPropertiesOnlyStep (currentSubSchema : subSchema)
    (value : list (string * Value)) (context : jsonContext.t)
    (result : Result) (pk : string) : Run Result :=
  ' (result, (pp_has, pp_match)) <-
    validatePatternProperty currentSubSchema pk (valueAt value pk)
      result context ;;
  if pp_has && negb pp_match then
    shown <- PatternPropertiesString currentSubSchema ;;
    ret (addError result (newJsonContext pk (Some context))
           KEY_PATTERN_PROPERTIES
           (ReqPatternProperties (patternProperties currentSubSchema))
           (VMap value)
           (Sprintf invalidPatternPropertyErrorMessage [ArgString shown]))
  else ret result.

Definition validateObject (currentSubSchema : subSchema)
    (value : list (string * Value)) (result : Result)
    (context : jsonContext.t) : Run Result :=
  let len := Z.of_nat (List.length value) in
  (* minProperties & maxProperties *)
  let result :=
    match minProperties currentSubSchema with
    | Some min =>
        if len <? min then
          addError result context KEY_MIN_PROPERTIES (ReqInt min)
            (VMap value) (Sprintf invalidMinProperties [ArgInt min])
        else result
    | None => result
    end in
  let result :=
    match maxProperties currentSubSchema with
    | Some max =>
        if max <? len then
          addError result context KEY_MAX_PROPERTIES (ReqInt max)
            (VMap value) (Sprintf invalidMaxProperties [ArgInt max])
        else result
    | None => result
    end in
  (* required *)
  let result :=
    fold_left (requiredStep value context)
      (required currentSubSchema) result in
  (* additionalProperty & patternProperty *)
  result <-
    match additionalProperties currentSubSchema with
    | Some (inl b) =>
        if negb b then
          entries <- range choice value ;;
          forEach
            (additionalPropertiesFalseStep currentSubSchema value context)
            (map fst entries) result
        else ret result
    | Some (inr additionalPropertiesSchema) =>
        entries <- range choice value ;;
        forEach
          (additionalPropertiesSchemaStep currentSubSchema
             (subValidateWithContext additionalPropertiesSchema)
             value context)
          (map fst entries) result
    | None =>
        entries <- range choice value ;;
        forEach (patternPropertiesOnlyStep currentSubSchema value context)
          (map fst entries) result
    end ;;
  ret (incrementScore result).

(** *** The walker below its [$ref] test *)

Definition propertyStep (castCurrentNode : list (string * Value))
    (context : jsonContext.t) (result : Result) (pSchema : subSchema)
  : Run Result :=
  match lookup (property pSchema) castCurrentNode with
  | Some nextNode =>
      let subContext := newJsonContext (property pSchema) (Some context) in
      validateRecursive pSchema nextNode result subContext
  | None => ret result
  end.

Definition validateNode (currentSubSchema : subSchema) (currentNode : Value)
    (result : Result) (context : jsonContext.t) : Run Result :=
  match currentNode with
  | VNil =>
      if typeMismatch currentSubSchema TYPE_NULL then
        ret (typeError currentSubSchema currentNode result context)
      else
        result <-
          validateSchema currentSubSchema currentNode result context ;;
        let result :=
          validateCommon currentSubSchema currentNode result context in
        ret (incrementScore result)
  | VSlice castCurrentNode =>
      if typeMismatch currentSubSchema TYPE_ARRAY then
        ret (typeError currentSubSchema currentNode result context)
      else
        result <-
          validateSchema currentSubSchema currentNode result context ;;
        result <-
          validateArray currentSubSchema castCurrentNode result context ;;
        let result :=
          validateCommon currentSubSchema currentNode result context in
        ret (incrementScore result)
  | VMap castCurrentNode =>
      if typeMismatch currentSubSchema TYPE_OBJECT then
        ret (typeError currentSubSchema currentNode result context)
      else
        result <-
          validateSchema currentSubSchema currentNode result context ;;
        result <-
          validateObject currentSubSchema castCurrentNode result context ;;
        let result :=
          validateCommon currentSubSchema currentNode result context in
        result <-
          forEach (propertyStep castCurrentNode context)
            (propertiesChildren currentSubSchema) result ;;
        ret (incrementScore result)
  | VBool _ =>
      if typeMismatch currentSubSchema TYPE_BOOLEAN then
        ret (typeError currentSubSchema currentNode result context)
      else
        result <-
          validateSchema currentSubSchema currentNode result context ;;
        let result :=
          validateNumber currentSubSchema currentNode result context in
        let result :=
          validateCommon currentSubSchema currentNode result context in
        let result :=
          validateString currentSubSchema currentNode result context in
        ret (incrementScore result)
  | VString _ =>
      if typeMismatch currentSubSchema TYPE_STRING then
        ret (typeError currentSubSchema currentNode result context)
      else
        result <-
          validateSchema currentSubSchema currentNode result context ;;
        let result :=
          validateNumber currentSubSchema currentNode result context in
        let result :=
          validateCommon currentSubSchema currentNode result context in
        let result :=
          validateString currentSubSchema currentNode result context in
        ret (incrementScore result)
  | VFloat64 value =>
      let isInteger := isFloat64AnInteger value in
      let validType :=
        jsonSchemaType.Contains (types currentSubSchema) TYPE_NUMBER
        || (isInteger
            && jsonSchemaType.Contains (types currentSubSchema) TYPE_INTEGER)
      in
      if jsonSchemaType.IsTyped (types currentSubSchema) && negb validType
      then ret (typeError currentSubSchema currentNode result context)
      else
        result <-
          validateSchema currentSubSchema currentNode result context ;;
        let result :=
          validateNumber currentSubSchema currentNode result context in
        let result :=
          validateCommon currentSubSchema currentNode result context in
        let result :=
          validateString currentSubSchema currentNode result context in
        ret (incrementScore result)
  | VOther _ => ret (incrementScore result)
  end.

End Walker.

Fixpoint validateRecursive {rt : Runtime} (choice : Choice)
    (currentSubSchema : subSchema) (currentNode : Value) (result : Result)
    (context : jsonContext.t) {struct currentSubSchema} : Run Result :=
  match refSchema currentSubSchema with
  | Some ref =>
      validateRecursive choice ref currentNode result context
  | None =>
      validateNode choice (validateRecursive choice) currentSubSchema
        currentNode result context
  end.

(** [Schema.Validate], one invocation: no [range] has run yet. *)
Definition Validate {rt : Runtime} (choice : Choice) (v : Schema)
    (l : JSONLoader) : Result + string :=
  match l with
  | inr err => inr err
  | inl root =>
      let result := newResult in
      let context := newJsonContext STRING_CONTEXT_ROOT None in
      inl (fst (validateRecursive choice (rootSchema v) root result context
                  0%nat))
  end.

End Ranged.

(* ================================================================== *)
(** * Building schemas

    A schema with one keyword set: the field is replaced, the others are
    kept. *)

Definition withProperty (x : string) (s : subSchema) : subSchema :=
  {| property := x; types := types s; refSchema := refSchema s;
     itemsChildren := itemsChildren s;
     itemsChildrenIsSingleSchema := itemsChildrenIsSingleSchema s;
     propertiesChildren := propertiesChildren s;
     multipleOf := multipleOf s; maximum := maximum s;
     exclusiveMaximum := exclusiveMaximum s; minimum := minimum s;
     exclusiveMinimum := exclusiveMinimum s; minLength := minLength s;
     maxLength := maxLength s; pattern := pattern s;
     minProperties := minProperties s; maxProperties := maxProperties s;
     required := required s; dependencies := dependencies s;
     additionalProperties := additionalProperties s;
     patternProperties := patternProperties s; minItems := minItems s;
     maxItems := maxItems s; uniqueItems := uniqueItems s;
     additionalItems := additionalItems s; enum := enum s;
     oneOf := oneOf s; anyOf := anyOf s; allOf := allOf s; not := not s |}.

Definition withTypes (x : jsonSchemaType.t) (s : subSchema) : subSchema :=
  {| property := property s; types := x; refSchema := refSchema s;
     itemsChildren := itemsChildren s;
     itemsChildrenIsSingleSchema := itemsChildrenIsSingleSchema s;
     propertiesChildren := propertiesChildren s;
     multipleOf := multipleOf s; maximum := maximum s;
     exclusiveMaximum := exclusiveMaximum s; minimum := minimum s;
     exclusiveMinimum := exclusiveMinimum s; minLength := minLength s;
     maxLength := maxLength s; pattern := pattern s;
     minProperties := minProperties s; maxProperties := maxProperties s;
     required := required s; dependencies := dependencies s;
     additionalProperties := additionalProperties s;
     patternProperties := patternProperties s; minItems := minItems s;
     maxItems := maxItems s; uniqueItems := uniqueItems s;
     additionalItems := additionalItems s; enum := enum s;
     oneOf := oneOf s; anyOf := anyOf s; allOf := allOf s; not := not s |}.

Definition withItemsChildren (x : list subSchema)
    (s : subSchema) : subSchema :=
  {| property := property s; types := types s; refSchema := refSchema s;
     itemsChildren := x;
     itemsChildrenIsSingleSchema := itemsChildrenIsSingleSchema s;
     propertiesChildren := propertiesChildren s;
     multipleOf := multipleOf s; maximum := maximum s;
     exclusiveMaximum := exclusiveMaximum s; minimum := minimum s;
     exclusiveMinimum := exclusiveMinimum s; minLength := minLength s;
     maxLength := maxLength s; pattern := pattern s;
     minProperties := minProperties s; maxProperties := maxProperties s;
     required := required s; dependencies := dependencies s;
     additionalProperties := additionalProperties s;
     patternProperties := patternProperties s; minItems := minItems s;
     maxItems := maxItems s; uniqueItems := uniqueItems s;
     additionalItems := additionalItems s; enum := enum s;
     oneOf := oneOf s; anyOf := anyOf s; allOf := allOf s; not := not s |}.

Definition withPropertiesChildren (x : list subSchema)
    (s : subSchema) : subSchema :=
  {| property := property s; types := types s; refSchema := refSchema s;
     itemsChildren := itemsChildren s;
     itemsChildrenIsSingleSchema := itemsChildrenIsSingleSchema s;
     propertiesChildren := x; multipleOf := multipleOf s;
     maximum := maximum s; exclusiveMaximum := exclusiveMaximum s;
     minimum := minimum s; exclusiveMinimum := exclusiveMinimum s;
     minLength := minLength s; maxLength := maxLength s;
     pattern := pattern s; minProperties := minProperties s;
     maxProperties := maxProperties s; required := required s;
     dependencies := dependencies s;
     additionalProperties := additionalProperties s;
     patternProperties := patternProperties s; minItems := minItems s;
     maxItems := maxItems s; uniqueItems := uniqueItems s;
     additionalItems := additionalItems s; enum := enum s;
     oneOf := oneOf s; anyOf := anyOf s; allOf := allOf s; not := not s |}.

Definition withMinLength (x : option Z) (s : subSchema) : subSchema :=
  {| property := property s; types := types s; refSchema := refSchema s;
     itemsChildren := itemsChildren s;
     itemsChildrenIsSingleSchema := itemsChildrenIsSingleSchema s;
     propertiesChildren := propertiesChildren s;
     multipleOf := multipleOf s; maximum := maximum s;
     exclusiveMaximum := exclusiveMaximum s; minimum := minimum s;
     exclusiveMinimum := exclusiveMinimum s; minLength := x;
     maxLength := maxLength s; pattern := pattern s;
     minProperties := minProperties s; maxProperties := maxProperties s;
     required := required s; dependencies := dependencies s;
     additionalProperties := additionalProperties s;
     patternProperties := patternProperties s; minItems := minItems s;
     maxItems := maxItems s; uniqueItems := uniqueItems s;
     additionalItems := additionalItems s; enum := enum s;
     oneOf := oneOf s; anyOf := anyOf s; allOf := allOf s; not := not s |}.

Definition withPattern (x : option string) (s : subSchema) : subSchema :=
  {| property := property s; types := types s; refSchema := refSchema s;
     itemsChildren := itemsChildren s;
     itemsChildrenIsSingleSchema := itemsChildrenIsSingleSchema s;
     propertiesChildren := propertiesChildren s;
     multipleOf := multipleOf s; maximum := maximum s;
     exclusiveMaximum := exclusiveMaximum s; minimum := minimum s;
     exclusiveMinimum := exclusiveMinimum s; minLength := minLength s;
     maxLength := maxLength s; pattern := x;
     minProperties := minProperties s; maxProperties := maxProperties s;
     required := required s; dependencies := dependencies s;
     additionalProperties := additionalProperties s;
     patternProperties := patternProperties s; minItems := minItems s;
     maxItems := maxItems s; uniqueItems := uniqueItems s;
     additionalItems := additionalItems s; enum := enum s;
     oneOf := oneOf s; anyOf := anyOf s; allOf := allOf s; not := not s |}.

Definition withAdditionalProperties (x : option (bool + subSchema))
    (s : subSchema) : subSchema :=
  {| property := property s; types := types s; refSchema := refSchema s;
     itemsChildren := itemsChildren s;
     itemsChildrenIsSingleSchema := itemsChildrenIsSingleSchema s;
     propertiesChildren := propertiesChildren s;
     multipleOf := multipleOf s; maximum := maximum s;
     exclusiveMaximum := exclusiveMaximum s; minimum := minimum s;
     exclusiveMinimum := exclusiveMinimum s; minLength := minLength s;
     maxLength := maxLength s; pattern := pattern s;
     minProperties := minProperties s; maxProperties := maxProperties s;
     required := required s; dependencies := dependencies s;
     additionalProperties := x; patternProperties := patternProperties s;
     minItems := minItems s; maxItems := maxItems s;
     uniqueItems := uniqueItems s; additionalItems := additionalItems s;
     enum := enum s; oneOf := oneOf s; anyOf := anyOf s; allOf := allOf s;
     not := not s |}.

Definition withPatternProperties (x : list (string * subSchema))
    (s : subSchema) : subSchema :=
  {| property := property s; types := types s; refSchema := refSchema s;
     itemsChildren := itemsChildren s;
     itemsChildrenIsSingleSchema := itemsChildrenIsSingleSchema s;
     propertiesChildren := propertiesChildren s;
     multipleOf := multipleOf s; maximum := maximum s;
     exclusiveMaximum := exclusiveMaximum s; minimum := minimum s;
     exclusiveMinimum := exclusiveMinimum s; minLength := minLength s;
     maxLength := maxLength s; pattern := pattern s;
     minProperties := minProperties s; maxProperties := maxProperties s;
     required := required s; dependencies := dependencies s;
     additionalProperties := additionalProperties s;
     patternProperties := x; minItems := minItems s;
     maxItems := maxItems s; uniqueItems := uniqueItems s;
     additionalItems := additionalItems s; enum := enum s;
     oneOf := oneOf s; anyOf := anyOf s; allOf := allOf s; not := not s |}.

Definition withAdditionalItems (x : option (bool + subSchema))
    (s : subSchema) : subSchema :=
  {| property := property s; types := types s; refSchema := refSchema s;
     itemsChildren := itemsChildren s;
     itemsChildrenIsSingleSchema := itemsChildrenIsSingleSchema s;
     propertiesChildren := propertiesChildren s;
     multipleOf := multipleOf s; maximum := maximum s;
     exclusiveMaximum := exclusiveMaximum s; minimum := minimum s;
     exclusiveMinimum := exclusiveMinimum s; minLength := minLength s;
     maxLength := maxLength s; pattern := pattern s;
     minProperties := minProperties s; maxProperties := maxProperties s;
     required := required s; dependencies := dependencies s;
     additionalProperties := additionalProperties s;
     patternProperties := patternProperties s; minItems := minItems s;
     maxItems := maxItems s; uniqueItems := uniqueItems s;
     additionalItems := x; enum := enum s; oneOf := oneOf s;
     anyOf := anyOf s; allOf := allOf s; not := not s |}.

Definition withOneOf (x : list subSchema) (s : subSchema) : subSchema :=
  {| property := property s; types := types s; refSchema := refSchema s;
     itemsChildren := itemsChildren s;
     itemsChildrenIsSingleSchema := itemsChildrenIsSingleSchema s;
     propertiesChildren := propertiesChildren s;
     multipleOf := multipleOf s; maximum := maximum s;
     exclusiveMaximum := exclusiveMaximum s; minimum := minimum s;
     exclusiveMinimum := exclusiveMinimum s; minLength := minLength s;
     maxLength := maxLength s; pattern := pattern s;
     minProperties := minProperties s; maxProperties := maxProperties s;
     required := required s; dependencies := dependencies s;
     additionalProperties := additionalProperties s;
     patternProperties := patternProperties s; minItems := minItems s;
     maxItems := maxItems s; uniqueItems := uniqueItems s;
     additionalItems := additionalItems s; enum := enum s; oneOf := x;
     anyOf := anyOf s; allOf := allOf s; not := not s |}.

Definition withAnyOf (x : list subSchema) (s : subSchema) : subSchema :=
  {| property := property s; types := types s; refSchema := refSchema s;
     itemsChildren := itemsChildren s;
     itemsChildrenIsSingleSchema := itemsChildrenIsSingleSchema s;
     propertiesChildren := propertiesChildren s;
     multipleOf := multipleOf s; maximum := maximum s;
     exclusiveMaximum := exclusiveMaximum s; minimum := minimum s;
     exclusiveMinimum := exclusiveMinimum s; minLength := minLength s;
     maxLength := maxLength s; pattern := pattern s;
     minProperties := minProperties s; maxProperties := maxProperties s;
     required := required s; dependencies := dependencies s;
     additionalProperties := additionalProperties s;
     patternProperties := patternProperties s; minItems := minItems s;
     maxItems := maxItems s; uniqueItems := uniqueItems s;
     additionalItems := additionalItems s; enum := enum s;
     oneOf := oneOf s; anyOf := x; allOf := allOf s; not := not s |}.


(* ================================================================== *)
(** * A concrete runtime

    Used to run the walker on concrete schemas and documents. *)

Module Run.

(** Two orders a [range] may take: as stored, and back to front. *)
Definition rangeForward (A : Type) (m : list (string * A)) := m.
Definition rangeBackward (A : Type) (m : list (string * A)) := rev m.

(** A pattern without metacharacters matches the strings that contain
    it. *)
Fixpoint contains (pat s : string) : bool :=
  String.prefix pat s
  || match s with
     | EmptyString => false
     | String _ s' => contains pat s'
     end.

(** On ASCII text every byte is a rune. *)
Definition runeCount (s : string) : Z := Z.of_nat (String.length s).

(** The documents run below carry no [enum] and no [uniqueItems], so
    their canonical JSON is never read. *)
Definition noCanonicalJson (v : Value) : string * option string :=
  ("", None).

(** Below 2^52 adding and subtracting 2^52 rounds to a whole number;
    from 2^52 on every finite float64 is whole. *)
Definition wholeFloat64 (f : float) : bool :=
  let a := PrimFloat.abs f in
  let big := 4503599627370496%float in
  if PrimFloat.ltb a big then PrimFloat.eqb (a + big - big)%float a
  else PrimFloat.eqb (f - f)%float 0%float.

Lemma rangeForward_Permutation (A : Type) (m : list (string * A)) :
  Permutation (rangeForward A m) m.
Proof. apply Permutation_refl. Qed.

Lemma rangeBackward_Permutation (A : Type) (m : list (string * A)) :
  Permutation (rangeBackward A m) m.
Proof. apply Permutation_sym, Permutation_rev. Qed.

(** The runtime whose maps are ranged as stored. *)
Definition forward : Runtime :=
  {| rangeMap := rangeForward;
     rangeMap_Permutation := rangeForward_Permutation;
     regexpMatchString := contains;
     RuneCount := runeCount;
     marshalToJsonString := noCanonicalJson;
     isFloat64AnInteger := wholeFloat64;
     resultErrorFormatNumber := fun _ => "";
     EmptyProperty := VOther Struct |}.

(** The root context of [Schema.Validate]. *)
Definition root : jsonContext.t := newJsonContext STRING_CONTEXT_ROOT None.

End Run.

(** Sample schemas and documents. *)
Module Sample.

Definition typed (t : string) : subSchema :=
  withTypes (jsonSchemaType.mk [t]) emptySubSchema.

(** [{"type": "string"}] and [{"type": "number"}] *)
Definition stringSchema : subSchema := typed TYPE_STRING.
Definition numberSchema : subSchema := typed TYPE_NUMBER.

(** [{"anyOf": [{"type": "string"}]}] *)
Definition anyOfString : subSchema :=
  withAnyOf [stringSchema] emptySubSchema.

(** [{"oneOf": [{"type": "string"}]}] *)
Definition oneOfString : subSchema :=
  withOneOf [stringSchema] emptySubSchema.

(** [{"items": [{"type": "string"}]}]: tuple items of length one. *)
Definition tupleOfString : subSchema :=
  withItemsChildren [stringSchema] emptySubSchema.

(** [{"items": [{}], "additionalItems": false}] *)
Definition closedTuple : subSchema :=
  withAdditionalItems (Some (inl false))
    (withItemsChildren [emptySubSchema] emptySubSchema).

(** [{"additionalProperties": false}] *)
Definition closedObject : subSchema :=
  withAdditionalProperties (Some (inl false)) emptySubSchema.

(** [{"properties": {"a": {}}, "patternProperties": {"a": {"type":
    "string"}}, "additionalProperties": false}] *)
Definition declaredAndPattern : subSchema :=
  withAdditionalProperties (Some (inl false))
    (withPatternProperties [("a", stringSchema)]
       (withPropertiesChildren [withProperty "a" emptySubSchema]
          emptySubSchema)).

(** [{"type": "string", "minLength": 5, "pattern": "x"}] *)
Definition longWithX : subSchema :=
  withPattern (Some "x") (withMinLength (Some 5) stringSchema).

End Sample.

(* ================================================================== *)
(** * Notions used in the statements *)

(** The context reached from [c] by going down through [segments], outermost
    first: what the walker builds with [newJsonContext(segment, context)]
    on its way into the document. *)
Definition descend (c : jsonContext.t) (segments : list string)
  : jsonContext.t :=
  fold_left (fun c segment => newJsonContext segment (Some c)) segments c.

(** The summary error of a failed [anyOf]. *)
Definition anyOfSummaryError (alternatives : list subSchema)
    (currentNode : Value) (context : jsonContext.t) : ResultError :=
  {| Context := context; Attribute := KEY_ANY_OF;
     Requirement_ := ReqSubSchemas alternatives; Value_ := currentNode;
     Description_ :=
       Sprintf invalidAnyOfErrorMessage [ArgSubSchemas alternatives] |}.

(** [r] is the one result of [results] whose score is strictly higher than
    every other's. *)
Definition uniqueBest (results : ResultsByScore) (r : Result) : Prop :=
  exists before after,
    results = before ++ r :: after
    /\ Forall (fun other => score other < score r) (before ++ after).

(** A slice sorted by [Less]: scores never go up. *)
Definition descending : ResultsByScore -> Prop :=
  StronglySorted (fun a b => score b <= score a).

(** The error [validateArray] records for elements beyond the tuple when
    [additionalItems] is [false]: one error, at the array's own context. *)
Definition additionalItemsError (value : list Value)
    (context : jsonContext.t) : ResultError :=
  {| Context := context; Attribute := KEY_ADDITIONAL_ITEMS;
     Requirement_ := ReqBool false; Value_ := VSlice value;
     Description_ :=
       Sprintf invalidAdditionalItemsErrorMessage [ArgBool false] |}.

(** The errors of a result that carry a given keyword. *)
Definition hasAttribute (attr : string) (e : ResultError) : bool :=
  String.eqb (Attribute e) attr.

Definition errorsWith (attr : string) (v : Result) : list ResultError :=
  filter (hasAttribute attr) (errors v).

(** ** Reading [validatePatternProperty] off the schema *)

(** [has]: some pattern of [patternProperties] matches the key. *)
Definition patternHas {rt : Runtime} (s : subSchema) (key : string) : bool :=
  existsb (fun kv => regexpMatchString (fst kv) key) (patternProperties s).

(** [matched]: some pattern that matches the key has a schema that
    validated the key's value without error. *)
Definition patternValidated {rt : Runtime} (s : subSchema) (key : string)
    (value : Value) (context : jsonContext.t) : bool :=
  existsb (fun kv =>
             regexpMatchString (fst kv) key
             && Valid (subValidateWithContext validateRecursive (snd kv)
                         value (newJsonContext key (Some context))))
          (patternProperties s).

(** The errors [validatePatternProperty] merges for a key: those of every
    matching pattern's schema, in the order the patterns are ranged. *)
Definition patternPropertyErrors {rt : Runtime} (s : subSchema)
    (key : string) (value : Value) (context : jsonContext.t)
  : list ResultError :=
  errors (fst (validatePatternProperty validateRecursive s key value
                 newResult context)).

(** A key passes [additionalProperties: false] when a matching pattern
    validated its value, or when it is declared and no pattern matches. *)
Definition permitted {rt : Runtime} (s : subSchema)
    (value : list (string * Value)) (context : jsonContext.t) (pk : string)
  : bool :=
  patternValidated s pk (valueAt value pk) context
  || (propertyFound s pk && negb (patternHas s pk)).

(** The reading of the specification, in its words: a key is permitted
    when it is among the declared property names, or some pattern matches
    it and every matching pattern's schema validated its value. *)
Definition permittedAsSpecified {rt : Runtime} (s : subSchema)
    (value : list (string * Value)) (context : jsonContext.t) (pk : string)
  : bool :=
  propertyFound s pk
  || (patternHas s pk
      && forallb
           (fun kv =>
              negb (regexpMatchString (fst kv) pk)
              || Valid (subValidateWithContext validateRecursive (snd kv)
                          (valueAt value pk)
                          (newJsonContext pk (Some context))))
           (patternProperties s)).

(** The [additionalProperties] error of a key, at the key's sub-context.
    Its requirement is the pattern map for a declared key, nil
    otherwise. *)
Definition additionalPropertiesError {rt : Runtime} (s : subSchema)
    (context : jsonContext.t) (pk : string) : ResultError :=
  {| Context := newJsonContext pk (Some context);
     Attribute := KEY_ADDITIONAL_PROPERTIES;
     Requirement_ :=
       if propertyFound s pk then ReqPatternProperties (patternProperties s)
       else ReqNil;
     Value_ := EmptyProperty;
     Description_ :=
       Sprintf invalidAdditionalPropertyErrorMessage [ArgString pk] |}.

(** How many errors a routine added, going from [before] to [after]. *)
Definition added (before after : Result) : Z :=
  Z.of_nat (List.length (errors after))
  - Z.of_nat (List.length (errors before)).

(** ** Runs that differ in the order maps are ranged *)

(** The runtime [rt] with another order of ranging over maps. *)
Definition reordered (rt : Runtime)
    (range' : forall A : Type, list (string * A) -> list (string * A))
    (perm' : forall (A : Type) (m : list (string * A)),
        Permutation (range' A m) m) : Runtime :=
  {| rangeMap := range';
     rangeMap_Permutation := perm';
     regexpMatchString := @regexpMatchString rt;
     RuneCount := @RuneCount rt;
     marshalToJsonString := @marshalToJsonString rt;
     isFloat64AnInteger := @isFloat64AnInteger rt;
     resultErrorFormatNumber := @resultErrorFormatNumber rt;
     EmptyProperty := @EmptyProperty rt |}.

(** An error without its description: where it is, which keyword it
    carries, the requirement and the offending value. *)
Definition core (e : ResultError)
  : jsonContext.t * string * Requirement * Value :=
  (Context e, Attribute e, Requirement_ e, Value_ e).

(** Two results that hold the same errors up to order and description,
    with the same score. *)
Definition sameReport (r1 r2 : Result) : Prop :=
  Permutation (map core (errors r1)) (map core (errors r2))
  /\ score r1 = score r2.

(** A step on results that only adds to what it is given: some errors
    appended, some amount added to the score, both independent of the
    result handed in. *)
Definition additive (f : Result -> Result) : Prop :=
  exists d : Result, forall r, f r = mergeErrors r d.

(** The result holding one error, and the one holding one point. *)
Definition oneError (c : jsonContext.t) (a : string) (q : Requirement)
    (x : Value) (d : Description) : Result :=
  {| errors := [mkResultError c d x a q]; score := -2 |}.

Definition onePoint : Result := {| errors := []; score := 1 |}.

(** The schemas directly below a schema. *)
Definition optionSchema (o : option subSchema) : list subSchema :=
  match o with Some s => [s] | None => [] end.

Definition boolOrSchema (o : option (bool + subSchema)) : list subSchema :=
  match o with Some (inr s) => [s] | _ => [] end.

Definition dependencySchema (d : list string + subSchema) : list subSchema :=
  match d with inr s => [s] | inl _ => [] end.

Definition children (s : subSchema) : list subSchema :=
  optionSchema (refSchema s)
  ++ itemsChildren s
  ++ propertiesChildren s
  ++ flat_map (fun kv => dependencySchema (snd kv)) (dependencies s)
  ++ boolOrSchema (additionalProperties s)
  ++ map snd (patternProperties s)
  ++ boolOrSchema (additionalItems s)
  ++ oneOf s ++ anyOf s ++ allOf s
  ++ optionSchema (not s).

(** Two steps on results that take results with the same report to
    results with the same report. *)
Definition agree (f1 f2 : Result -> Result) : Prop :=
  forall r1 r2, sameReport r1 r2 -> sameReport (f1 r1) (f2 r2).

(** The results of a list, merged in order. *)
Definition mergeAll (l : list Result) : Result :=
  fold_right mergeErrors newResult l.

(** Two optional results that are both absent, or both present with the
    same report. *)
Definition sameBest (o1 o2 : option Result) : Prop :=
  match o1, o2 with
  | Some a, Some b => sameReport a b
  | None, None => True
  | _, _ => False
  end.

(** What one entry of [patternProperties] contributes for a key: the result
    of its schema on the key's value when the pattern matches, nothing
    otherwise. *)
Definition patternContribution {rt : Runtime} (key : string) (value : Value)
    (context : jsonContext.t)
    (entry : string * (Value -> jsonContext.t -> Result)) : Result :=
  if regexpMatchString (fst entry) key
  then snd entry value (newJsonContext key (Some context))
  else newResult.

(** The walker of [rt] and the walker of [rt] with its maps ranged in
    another order agree below the schema [d]. *)
Definition walkersAgree (rt : Runtime)
    (range' : forall A : Type, list (string * A) -> list (string * A))
    (perm' : forall (A : Type) (m : list (string * A)),
        Permutation (range' A m) m) (d : subSchema) : Prop :=
  forall v c,
    agree (fun r => @validateRecursive rt d v r c)
          (fun r => @validateRecursive (reordered rt range' perm') d v r c).

(** ** The report handed to [json.Marshal]

    [ResultMarshalerFunc] files every error under the string of its
    context: [jmap[loc] = append(jmap[loc], errStack)], where [errStack]
    is the keyword followed by the requirement when there is one.
    [json.Marshal] then writes the map with its keys sorted. *)
Definition errStack (rerr : ResultError) : list (string + Requirement) :=
  inl (Attribute rerr)
  :: match Requirement_ rerr with
     | ReqNil => []
     | requirement => [inr requirement]
     end.

Fixpoint jmapAppend (loc : string) (stack : list (string + Requirement))
    (jmap : list (string * list (list (string + Requirement))))
  : list (string * list (list (string + Requirement))) :=
  match jmap with
  | [] => [(loc, [stack])]
  | (k, stacks) :: jmap' =>
      if String.eqb loc k then (k, stacks ++ [stack]) :: jmap'
      else (k, stacks) :: jmapAppend loc stack jmap'
  end.

Definition jmapOf (res : Result)
  : list (string * list (list (string + Requirement))) :=
  fold_left
    (fun jmap rerr =>
       jmapAppend (jsonContext.String (Context rerr)) (errStack rerr) jmap)
    (Errors res) [].

(** ** Sample runs *)

(** The result of [{"type": "string"}] against [true]: one type error,
    score -2. *)
Definition failedString : Result :=
  subValidateWithContext (@validateRecursive Run.forward)
    Sample.stringSchema (VBool true) Run.root.

(** The result of [{"type": "number"}] against [true], and that of
    [{"type": "string", "minLength": 5, "pattern": "x"}] against ["ab"]. *)
Definition failedNumber : Result :=
  subValidateWithContext (@validateRecursive Run.forward)
    Sample.numberSchema (VBool true) Run.root.

Definition failedTwice : Result :=
  subValidateWithContext (@validateRecursive Run.forward)
    Sample.longWithX (VString "ab") Run.root.

(** Where an error sits and which keyword it carries. *)
Definition located (v : Result) : list (string * string) :=
  map (fun e => (jsonContext.String (Context e), Attribute e)) (errors v).

(** [{"patternProperties": {"a": {}, "b": {"type": "string"}},
    "additionalProperties": false}] *)
Definition twoPatterns : subSchema :=
  withAdditionalProperties (Some (inl false))
    (withPatternProperties
       [("a", emptySubSchema); ("b", Sample.stringSchema)] emptySubSchema).

(** [{"patternProperties": {"a": {"type": "string"}, "b": {"type":
    "number"}}}] *)
Definition stringAndNumberPatterns : subSchema :=
  withPatternProperties
    [("a", Sample.stringSchema); ("b", Sample.numberSchema)] emptySubSchema.

(** ** What a run adds to a result *)

(** The keywords an error can carry: those [addError] is called with. *)
Definition keywords : list string :=
  [KEY_TYPE; KEY_ANY_OF; KEY_ONE_OF; KEY_ALL_OF; KEY_NOT; KEY_DEPENDENCIES;
   KEY_ENUM; KEY_ADDITIONAL_ITEMS; KEY_MIN_ITEMS; KEY_MAX_ITEMS;
   KEY_UNIQUE_ITEMS; KEY_MIN_PROPERTIES; KEY_MAX_PROPERTIES; KEY_REQUIRED;
   KEY_ADDITIONAL_PROPERTIES; KEY_PATTERN_PROPERTIES; KEY_MIN_LENGTH;
   KEY_MAX_LENGTH; KEY_PATTERN; KEY_MULTIPLE_OF; KEY_EXCLUSIVE_MAXIMUM;
   KEY_MAXIMUM; KEY_EXCLUSIVE_MINIMUM; KEY_MINIMUM].

(** The context [c'] is [c] or lies below it: it is reached from [c] by
    going down through some segments. *)
Definition atOrBelow (c c' : jsonContext.t) : Prop :=
  exists segments, c' = descend c segments.

(** The score with the two points of every recorded error given back. *)
Definition balance (r : Result) : Z :=
  score r + 2 * Z.of_nat (List.length (errors r)).

(** What a routine run at the context [c] may add to a result: errors
    located at [c] or below it that carry a known keyword, and a score
    that is not lower than two points per error allow. *)
Definition contribution (c : jsonContext.t) (d : Result) : Prop :=
  Forall (fun e => atOrBelow c (Context e) /\ In (Attribute e) keywords)
         (errors d)
  /\ 0 <= balance d.

(** [after] is [before] with such a contribution merged into it. *)
Definition adds (c : jsonContext.t) (before after : Result) : Prop :=
  exists d, after = mergeErrors before d /\ contribution c d.

(** The same, for a routine that ran to completion: the contribution
    holds the point that closes the routine, on top of what its errors
    cost. *)
Definition gains (c : jsonContext.t) (before after : Result) : Prop :=
  exists d, after = mergeErrors before d /\ contribution c d
            /\ 1 <= balance d.

(** The same, for a run of the walker on a node: it completes, or it
    stops at the type test with the one [type] error at its context and
    no point earned. *)
Definition addsNode (c : jsonContext.t) (before after : Result) : Prop :=
  exists d, after = mergeErrors before d /\ contribution c d
            /\ (1 <= balance d
                \/ exists e, errors d = [e] /\ Attribute e = KEY_TYPE
                             /\ Context e = c /\ score d = -2).

(** A schema whose runs, whatever the walker is tied to, add such a
    contribution at every context. *)
Definition yields
    (rec : subSchema -> Value -> Result -> jsonContext.t -> Result)
    (d : subSchema) : Prop :=
  forall v c r, adds c r (rec d v r c).

(** ** Runs that differ in the order of every [range] statement *)

(** A routine of the counted walker that only adds to the result it is
    given: what it adds, and the number of [range] statements it runs, do
    not depend on that result. *)
Definition steady (f : Result -> Ranged.Run Result) : Prop :=
  forall r n,
    f r n = (mergeErrors r (fst (f newResult n)), snd (f newResult n)).

(** Two routines that only add to the result they are given, and add the
    same report whatever the number of [range] statements run before
    each. *)
Definition alike (f g : Result -> Ranged.Run Result) : Prop :=
  steady f /\ steady g
  /\ forall n m, sameReport (fst (f newResult n)) (fst (g newResult m)).

(** The counted walkers of two invocations are alike on the schema [d]. *)
Definition walkersAlike
    (rec1 rec2 : subSchema -> Value -> Result -> jsonContext.t ->
                 Ranged.Run Result) (d : subSchema) : Prop :=
  forall v c, alike (fun r => rec1 d v r c) (fun r => rec2 d v r c).

(** An invocation that ranges a map as stored, except in the [range]
    statements whose numbers are in [reversed], which go back to front. *)
Definition pickReversedAt (reversed : list nat) (n : nat) (A : Type)
    (m : list (string * A)) : list (string * A) :=
  if existsb (Nat.eqb n) reversed then rev m else m.

Lemma pickReversedAt_Permutation (reversed : list nat) (n : nat) (A : Type)
    (m : list (string * A)) :
  Permutation (pickReversedAt reversed n A m) m.
Proof.
  unfold pickReversedAt. destruct (existsb _ _).
  - apply Permutation_sym, Permutation_rev.
  - apply Permutation_refl.
Qed.

Definition reversedAt (reversed : list nat) : Ranged.Choice :=
  {| Ranged.pick := pickReversedAt reversed;
     Ranged.pick_Permutation := pickReversedAt_Permutation reversed |}.

(** The type errors of a result, in the order recorded: where each is and
    the type it asked for. *)
Definition typeErrors (v : Result) : list (string * string) :=
  flat_map
    (fun e =>
       match Requirement_ e with
       | ReqString t => [(jsonContext.String (Context e), t)]
       | _ => []
       end) (errors v).

(* ================================================================== *)
(** * Properties *)

(** ** The accumulator *)

Lemma errors_addError v c a q x d :
  errors (addError v c a q x d) = errors v ++ [mkResultError c d x a q].
Proof. reflexivity. Qed.

Lemma score_addError v c a q x d : score (addError v c a q x d) = score v - 2.
Proof. reflexivity. Qed.

Lemma errors_incrementScore v : errors (incrementScore v) = errors v.
Proof. reflexivity. Qed.

Lemma score_incrementScore v : score (incrementScore v) = score v + 1.
Proof. reflexivity. Qed.

Lemma errors_mergeErrors v o : errors (mergeErrors v o) = errors v ++ errors o.
Proof. reflexivity. Qed.

Lemma score_mergeErrors v o : score (mergeErrors v o) = score v + score o.
Proof. reflexivity. Qed.

Lemma Valid_true_iff v : Valid v = true <-> errors v = [].
Proof.
  unfold Valid. destruct (errors v); simpl; split; congruence.
Qed.

Lemma Valid_false_iff v : Valid v = false <-> errors v <> [].
Proof.
  unfold Valid. destruct (errors v); simpl; split; congruence.
Qed.

Section Properties.

Context {rt : Runtime}.

(** ** Ranging over a map *)

Lemma rangeMap_nil (A : Type) : rangeMap A [] = [].
Proof.
  apply Permutation_nil, Permutation_sym, rangeMap_Permutation.
Qed.

(** ** Unfolding the walker *)

Lemma validateRecursive_eq (s : subSchema) node result context :
  validateRecursive s node result context
  = match refSchema s with
    | Some ref => validateRecursive ref node result context
    | None => validateNode validateRecursive s node result context
    end.
Proof. destruct s; reflexivity. Qed.

(** ** C10: the cross-calls *)

(** C10.  For every value that is not a string, [validateString] hands the
    result back untouched, errors and score alike; so does
    [validateNumber] for every value that is not a float64.  The calls made
    on bool, string and number nodes to the routine of another kind
    therefore leave the outcome as it was. *)
Theorem C10_cross_calls_leave_result_unchanged :
  forall (currentSubSchema : subSchema) (value : Value) (result : Result)
         (context : jsonContext.t),
    (kindOf value <> reflect.String ->
     validateString currentSubSchema value result context = result)
    /\ (kindOf value <> reflect.Float64 ->
        validateNumber currentSubSchema value result context = result)
    /\ (forall b,
          validateNumber currentSubSchema (VBool b) result context = result
          /\ validateString currentSubSchema (VBool b) result context
             = result)
    /\ (forall str,
          validateNumber currentSubSchema (VString str) result context
          = result)
    /\ (forall f,
          validateString currentSubSchema (VFloat64 f) result context
          = result).
Proof.
  intros s value result context.
  split; [| split; [| split; [| split]]].
  - intros Hkind. unfold validateString.
    destruct value; simpl in *; try reflexivity. now elim Hkind.
  - intros Hkind. unfold validateNumber.
    destruct value; simpl in *; try reflexivity. now elim Hkind.
  - intros b. split; reflexivity.
  - reflexivity.
  - reflexivity.
Qed.

(** ** C9: values of a kind the switch has no case for *)

Lemma validateRecursive_VOther (s : subSchema) (k : OtherKind) :
  forall result context,
    validateRecursive s (VOther k) result context = incrementScore result.
Proof.
  induction s as [s IH] using subSchema_ref_ind. intros result context.
  rewrite validateRecursive_eq.
  destruct (refSchema s) as [r|] eqn:E; [now apply IH | reflexivity].
Qed.

(** C9.  A non-nil document value whose kind is none of slice, map, bool,
    string, float64 gets no error from [validateRecursive], whatever the
    schema (a non-empty type set included): the result comes back with its
    errors as they were and its score one higher.  Run from a fresh result
    such a value is valid. *)
Theorem C9_other_kinds_only_increment_score :
  forall (currentSubSchema : subSchema) (k : OtherKind) (result : Result)
         (context : jsonContext.t),
    validateRecursive currentSubSchema (VOther k) result context
      = incrementScore result
    /\ errors (validateRecursive currentSubSchema (VOther k) result context)
       = errors result
    /\ Valid (subValidateWithContext validateRecursive currentSubSchema
                (VOther k) context) = true.
Proof.
  intros s k result context. repeat split.
  - apply validateRecursive_VOther.
  - now rewrite validateRecursive_VOther.
  - unfold subValidateWithContext. now rewrite validateRecursive_VOther.
Qed.

(** ** C8: the string form of a context *)

Lemma append_assoc (a b c : string) :
  ((a ++ b) ++ c)%string = (a ++ (b ++ c))%string.
Proof. induction a as [|ch a IH]; simpl; [reflexivity | now rewrite IH]. Qed.

Lemma append_empty_r (a : string) : (a ++ "")%string = a.
Proof. induction a as [|ch a IH]; simpl; [reflexivity | now rewrite IH]. Qed.

Lemma String_descend (segments : list string) (c : jsonContext.t) :
  jsonContext.String (descend c segments)
  = (jsonContext.String c
     ++ String.concat "" (map (fun segment => "." ++ segment) segments))%string.
Proof.
  revert c. induction segments as [|seg segments IH]; intros c; simpl.
  - now rewrite append_empty_r.
  - unfold descend in *. simpl. rewrite IH. simpl.
    destruct segments as [|seg' segments]; simpl.
    + now rewrite !append_empty_r.
    + now rewrite !append_assoc.
Qed.

(** The context [Schema.Validate] starts from is
    [newJsonContext(STRING_CONTEXT_ROOT, nil)], the empty path: it reads
    ["(root)"].  A nested context reads the root's string followed by its
    segments, each after a dot, array indices in decimal. *)
Lemma context_string_from_root :
  forall (v : Schema) (root : Value) (segments : list string),
    let context := newJsonContext STRING_CONTEXT_ROOT None in
    Validate v (inl root)
      = inl (validateRecursive (rootSchema v) root newResult context)
    /\ jsonContext.String context = "(root)"
    /\ jsonContext.String (descend context segments)
       = ("(root)" ++ String.concat ""
                        (map (fun segment => "." ++ segment) segments))%string
    /\ jsonContext.String (descend context ["field"; Itoa 0; "subfield"])
       = "(root).field.0.subfield".
Proof.
  intros v root segments context. repeat split.
  apply (String_descend segments context).
Qed.

(** ** C1: anyOf with a single alternative *)

Lemma fold_left_fixed {A B : Type} (f : A -> B -> A) (l : list B) (a : A) :
  (forall x b, f x b = x) -> fold_left f l a = a.
Proof.
  intros H. revert a. induction l as [|b l IH]; intros a; simpl.
  - reflexivity.
  - rewrite H. apply IH.
Qed.

(** With no [patternProperties] the pattern check finds nothing and leaves
    the result alone. *)
Lemma validatePatternProperty_no_patterns
    (s : subSchema) key value result context :
  patternProperties s = [] ->
  validatePatternProperty validateRecursive s key value result context
  = (result, (false, false)).
Proof.
  intros E. unfold validatePatternProperty. rewrite E. simpl.
  rewrite rangeMap_nil. reflexivity.
Qed.

(** C1 (as the code has it).  A schema whose only keyword is an [anyOf]
    with one alternative is valid exactly when the alternative is.  When
    the alternative fails, the result gains one error, the [anyOf] summary
    at the node's own context: [getBestResult] needs two results to pick
    from, so the alternative's own errors are not merged. *)
Theorem C1_single_anyOf_same_validity_summary_error :
  forall (alternative : subSchema) (currentNode : Value) (result : Result)
         (context : jsonContext.t),
    let schema := withAnyOf [alternative] emptySubSchema in
    let validationResult :=
      subValidateWithContext validateRecursive alternative currentNode
        context in
    errors (validateRecursive schema currentNode result context)
    = errors result
      ++ (if Valid validationResult then []
          else [anyOfSummaryError [alternative] currentNode context])
    /\ Valid (subValidateWithContext validateRecursive schema currentNode
                context)
       = Valid validationResult.
Proof.
  intros alt v.
  assert (H : forall result context,
    errors (validateRecursive (withAnyOf [alt] emptySubSchema) v result
              context)
    = errors result
      ++ (if Valid (subValidateWithContext validateRecursive alt v context)
          then []
          else [anyOfSummaryError [alt] v context])).
  { intros result context. rewrite validateRecursive_eq.
    cbn [refSchema withAnyOf emptySubSchema].
    assert (E : forall r,
      errors (validateSchema validateRecursive (withAnyOf [alt] emptySubSchema)
                v r context)
      = errors r
        ++ (if Valid (subValidateWithContext validateRecursive alt v context)
            then [] else [anyOfSummaryError [alt] v context])).
    { intros r. unfold validateSchema, validateAnyOf, validateOneOf,
        validateAllOf, validateNot, validateDependencies.
      cbn -[subValidateWithContext getBestResult].
      destruct (Valid (subValidateWithContext validateRecursive alt v
                         context)); cbn; now rewrite ?app_nil_r. }
    unfold validateNode.
    destruct v; cbn [typeMismatch types withAnyOf emptySubSchema
                       jsonSchemaType.IsTyped jsonSchemaType.types
                       List.length Nat.eqb negb andb];
      unfold validateCommon, validateArray, validateItems, validateObject,
        validateNumber, validateString;
      cbn -[validateSchema subValidateWithContext];
      rewrite ?E; try reflexivity.
    - (* a map: the loop over the keys finds no pattern property *)
      rewrite fold_left_fixed; [apply E |].
      intros x pk. unfold patternPropertiesOnlyStep.
      rewrite validatePatternProperty_no_patterns by reflexivity.
      reflexivity.
    - (* a kind without a case: no keyword is looked at, and the
         alternative accepts the value as well *)
      unfold subValidateWithContext. rewrite validateRecursive_VOther.
      cbn. now rewrite app_nil_r. }
  intros result context schema validationResult. split.
  - apply H.
  - unfold subValidateWithContext at 1. unfold Valid at 1.
    subst schema. rewrite H. simpl.
    fold validationResult. destruct (Valid validationResult) eqn:E.
    + reflexivity.
    + reflexivity.
Qed.

(** ** C6: the best of a list of results *)

Lemma insertByScore_Permutation r l : Permutation (insertByScore r l) (r :: l).
Proof.
  induction l as [|x l IH]; simpl.
  - apply Permutation_refl.
  - destruct (Less x r).
    + eapply Permutation_trans; [apply perm_skip, IH | apply perm_swap].
    + apply Permutation_refl.
Qed.

Lemma Sort_Permutation l : Permutation (Sort l) l.
Proof.
  induction l as [|r l IH]; simpl.
  - apply perm_nil.
  - eapply Permutation_trans; [apply insertByScore_Permutation |].
    now apply perm_skip.
Qed.

Lemma insertByScore_descending r l :
  descending l -> descending (insertByScore r l).
Proof.
  unfold descending. induction 1 as [|x l Hl IH Hx]; simpl.
  - repeat constructor.
  - unfold Less. destruct (score r <? score x) eqn:E.
    + apply Z.ltb_lt in E. constructor; [exact IH |].
      eapply Permutation_Forall;
        [apply Permutation_sym, insertByScore_Permutation |].
      constructor; [lia | exact Hx].
    + apply Z.ltb_ge in E. constructor.
      * now constructor.
      * constructor; [exact E |].
        eapply Forall_impl; [| exact Hx]. simpl. intros; lia.
Qed.

Lemma Sort_descending l : descending (Sort l).
Proof.
  induction l as [|r l IH]; simpl.
  - constructor.
  - now apply insertByScore_descending.
Qed.

(** On a sorted slice the head is returned exactly when it is the unique
    best of whatever list the slice is a sorting of. *)
Lemma bestOfSorted_uniqueBest (sorted results : ResultsByScore) (r : Result) :
  descending sorted -> Permutation sorted results ->
  (2 <= List.length results)%nat ->
  bestOfSorted sorted = Some r <-> uniqueBest results r.
Proof.
  intros Hs Hp Hlen. split.
  - destruct sorted as [|r0 [|r1 rest]]; simpl; try discriminate.
    destruct (score r0 =? score r1) eqn:E; simpl; [discriminate |].
    intros [= <-]. apply Z.eqb_neq in E.
    inversion Hs as [|? ? Hs' H0]; subst.
    assert (Hlow : Forall (fun other => score other < score r0) (r1 :: rest)).
    { inversion H0 as [|? ? H01 H0r]; subst.
      inversion Hs' as [|? ? _ H1]; subst.
      constructor; [lia |].
      eapply Forall_impl; [| exact H1]. simpl. intros; lia. }
    destruct (in_split r0 results) as (before & after & ->).
    { eapply Permutation_in; [exact Hp | now left]. }
    exists before, after. split; [reflexivity |].
    eapply Permutation_Forall; [| exact Hlow].
    eapply Permutation_cons_app_inv. exact Hp.
  - intros (before & after & -> & Hlow).
    assert (Hp' : Permutation sorted (r :: before ++ after)).
    { eapply Permutation_trans; [exact Hp |].
      apply Permutation_sym, Permutation_middle. }
    destruct sorted as [|x [|y rest]].
    + apply Permutation_length in Hp. simpl in *. lia.
    + apply Permutation_length in Hp. simpl in *. lia.
    + assert (x = r) as ->.
      { assert (Hx : In x (r :: before ++ after))
          by (eapply Permutation_in; [exact Hp' | now left]).
        destruct Hx as [-> | Hx]; [reflexivity |].
        rewrite Forall_forall in Hlow. specialize (Hlow _ Hx).
        assert (Hr : In r (x :: y :: rest))
          by (eapply Permutation_in;
              [apply Permutation_sym; exact Hp' | now left]).
        destruct Hr as [-> | Hr]; [reflexivity |].
        inversion Hs as [|? ? _ H0]; subst.
        rewrite Forall_forall in H0. specialize (H0 _ Hr). simpl in H0. lia. }
      apply Permutation_cons_inv in Hp'.
      assert (Hy : In y (before ++ after))
        by (eapply Permutation_in; [exact Hp' | now left]).
      rewrite Forall_forall in Hlow. specialize (Hlow _ Hy).
      simpl. destruct (score r =? score y) eqn:E; [| reflexivity].
      apply Z.eqb_eq in E. lia.
Qed.

Lemma getBestResult_uniqueBest (results : ResultsByScore) (r : Result) :
  (2 <= List.length results)%nat ->
  getBestResult results = Some r <-> uniqueBest results r.
Proof.
  intros Hlen. unfold getBestResult.
  replace (1 <? List.length results)%nat with true
    by (symmetry; apply Nat.ltb_lt; lia).
  apply bestOfSorted_uniqueBest;
    [apply Sort_descending | apply Sort_Permutation | exact Hlen].
Qed.

Lemma getBestResult_short (results : ResultsByScore) :
  (List.length results < 2)%nat -> getBestResult results = None.
Proof.
  intros Hlen. unfold getBestResult.
  replace (1 <? List.length results)%nat with false
    by (symmetry; apply Nat.ltb_ge; lia).
  reflexivity.
Qed.

(** [getBestResult] does not depend on how [sort.Sort] orders results of
    equal score: any sorted arrangement of the slice gives the same
    answer. *)
Lemma getBestResult_any_sort (sorted results : ResultsByScore) :
  descending sorted -> Permutation sorted results ->
  (2 <= List.length results)%nat ->
  bestOfSorted sorted = getBestResult results.
Proof.
  intros Hs Hp Hlen.
  destruct (bestOfSorted sorted) as [r|] eqn:E.
  - symmetry. apply getBestResult_uniqueBest; [exact Hlen |].
    now apply (bestOfSorted_uniqueBest sorted).
  - destruct (getBestResult results) as [r|] eqn:E'; [| reflexivity].
    apply getBestResult_uniqueBest in E'; [| exact Hlen].
    apply (bestOfSorted_uniqueBest sorted) in E'; try assumption.
    congruence.
Qed.

(** When the two highest scores are equal no result is the unique best. *)
Lemma uniqueBest_tie (results : ResultsByScore) (a b : Result) rest r :
  Permutation results (a :: b :: rest) ->
  score a = score b ->
  Forall (fun other => score other <= score a) rest ->
  ~ uniqueBest results r.
Proof.
  intros Hp Hab Hrest (before & after & -> & Hlow).
  assert (Hp' : Permutation (r :: before ++ after) (a :: b :: rest)).
  { eapply Permutation_trans; [apply Permutation_middle | exact Hp]. }
  rewrite Forall_forall in Hlow, Hrest.
  assert (Hr : score r <= score a).
  { assert (In r (a :: b :: rest))
      by (eapply Permutation_in; [exact Hp' | now left]).
    destruct H as [<- | [<- | H]]; [lia | lia | now apply Hrest]. }
  assert (Ha : a = r).
  { assert (In a (r :: before ++ after))
      by (eapply Permutation_in;
          [apply Permutation_sym; exact Hp' | now left]).
    destruct H as [-> | H]; [reflexivity |].
    specialize (Hlow _ H). simpl in Hlow. lia. }
  subst a. apply Permutation_cons_inv in Hp'.
  assert (Hb : In b (before ++ after))
    by (eapply Permutation_in;
        [apply Permutation_sym; exact Hp' | now left]).
  specialize (Hlow _ Hb). simpl in Hlow. lia.
Qed.

(** The [oneOf] loop: failures are collected in order, successes counted. *)
Lemma fold_left_oneOfStep currentNode context (l : list subSchema)
    (results : ResultsByScore) (n : Z) :
  let run a :=
    subValidateWithContext validateRecursive a currentNode context in
  fold_left (oneOfStep validateRecursive currentNode context) l (results, n)
  = (results ++ filter (fun r => negb (Valid r)) (map run l),
     n + Z.of_nat (List.length (filter Valid (map run l)))).
Proof.
  intros run. revert results n.
  induction l as [|a l IH]; intros results n; simpl.
  - now rewrite app_nil_r, Z.add_0_r.
  - fold (run a). destruct (Valid (run a)) eqn:E; simpl; rewrite IH.
    + f_equal. lia.
    + rewrite <- app_assoc. reflexivity.
Qed.

(** The [anyOf] loop when no alternative is valid: every result is kept. *)
Lemma fold_left_anyOfStep_none_valid currentNode context
    (l : list subSchema) (results : ResultsByScore) :
  let run a :=
    subValidateWithContext validateRecursive a currentNode context in
  Forall (fun a => Valid (run a) = false) l ->
  fold_left (anyOfStep validateRecursive currentNode context) l
    (false, results)
  = (false, results ++ map run l).
Proof.
  intros run H. revert results.
  induction H as [|a l Ha _ IH]; intros results; simpl.
  - now rewrite app_nil_r.
  - fold (run a). rewrite Ha, IH, <- app_assoc. reflexivity.
Qed.

(** C6 (as the code has it).  [getBestResult] picks from two results or
    more.  Given at least two, it returns the one whose score is strictly
    higher than every other's, and returns nothing when the two highest
    scores are equal; given a single result (or none) it returns nothing.
    After an [anyOf] with no valid alternative, and after a [oneOf] with no
    valid alternative, the errors of the result it returns are merged into
    the parent, and the [anyOf] / [oneOf] summary error is added when it
    returns nothing.  A [oneOf] with two or more valid alternatives adds
    the [oneOf] summary error. *)
Theorem C6_best_match_needs_two_results :
  forall (currentSubSchema : subSchema) (currentNode : Value)
         (result : Result) (context : jsonContext.t),
    let run a :=
      subValidateWithContext validateRecursive a currentNode context in
    let failed :=
      filter (fun r => negb (Valid r)) (map run (oneOf currentSubSchema)) in
    let nbValidated :=
      Z.of_nat (List.length (filter Valid (map run (oneOf currentSubSchema))))
    in
    (forall results r, (2 <= List.length results)%nat ->
        getBestResult results = Some r <-> uniqueBest results r)
    /\ (forall results a b rest,
          Permutation results (a :: b :: rest) ->
          score a = score b ->
          Forall (fun other => score other <= score a) rest ->
          getBestResult results = None)
    /\ (forall results, (List.length results < 2)%nat ->
          getBestResult results = None)
    /\ (anyOf currentSubSchema <> [] ->
        Forall (fun a => Valid (run a) = false) (anyOf currentSubSchema) ->
        validateAnyOf validateRecursive currentSubSchema currentNode result
          context
        = match getBestResult (map run (anyOf currentSubSchema)) with
          | Some best => mergeErrors result best
          | None =>
              addError result context KEY_ANY_OF
                (ReqSubSchemas (anyOf currentSubSchema)) currentNode
                (Sprintf invalidAnyOfErrorMessage
                   [ArgSubSchemas (anyOf currentSubSchema)])
          end)
    /\ (oneOf currentSubSchema <> [] -> nbValidated = 0 ->
        validateOneOf validateRecursive currentSubSchema currentNode result
          context
        = match getBestResult failed with
          | Some best => mergeErrors result best
          | None =>
              addError result context KEY_ONE_OF
                (ReqSubSchemas (oneOf currentSubSchema)) currentNode
                (Sprintf invalidOneOfErrorMessage
                   [ArgSubSchemas (oneOf currentSubSchema)])
          end)
    /\ (2 <= nbValidated ->
        validateOneOf validateRecursive currentSubSchema currentNode result
          context
        = addError result context KEY_ONE_OF
            (ReqSubSchemas (oneOf currentSubSchema)) currentNode
            (Sprintf invalidOneOfErrorMessage
               [ArgSubSchemas (oneOf currentSubSchema)])).
Proof.
  intros s v result context run failed nbValidated.
  split; [| split; [| split; [| split; [| split]]]].
  - intros results r Hlen. now apply getBestResult_uniqueBest.
  - intros results a b rest Hp Hab Hrest.
    destruct (getBestResult results) as [r|] eqn:E; [| reflexivity].
    apply getBestResult_uniqueBest in E.
    + now apply (uniqueBest_tie results a b rest r) in E.
    + apply Permutation_length in Hp. simpl in Hp. lia.
  - apply getBestResult_short.
  - intros Hne Hall. unfold validateAnyOf.
    destruct (anyOf s) as [|a l] eqn:E; [congruence |].
    cbn [List.length Nat.ltb Nat.leb].
    rewrite fold_left_anyOfStep_none_valid by exact Hall.
    reflexivity.
  - intros Hne Hnb. unfold validateOneOf.
    destruct (oneOf s) as [|a l] eqn:E; [congruence |].
    cbn [List.length Nat.ltb Nat.leb].
    rewrite fold_left_oneOfStep. fold run.
    subst nbValidated failed. cbn [app]. rewrite Z.add_0_l, Hnb.
    reflexivity.
  - intros Hnb. unfold validateOneOf.
    destruct (oneOf s) as [|a l] eqn:E.
    + subst nbValidated. simpl in Hnb. lia.
    + cbn [List.length Nat.ltb Nat.leb].
      rewrite fold_left_oneOfStep. fold run.
      subst nbValidated. cbn [app]. rewrite Z.add_0_l.
      destruct (_ =? 1) eqn:E1; [apply Z.eqb_eq in E1; lia |].
      destruct (_ =? 0) eqn:E0; [apply Z.eqb_eq in E0; lia |].
      reflexivity.
Qed.

(** ** C2 and C3: tuple items against an array of another length *)

(** With tuple items and an array of another length no element is
    validated, whatever the walker: unless [additionalItems] is a schema,
    the items part of [validateArray] leaves the result alone or adds the
    one [additionalItems] error. *)
Lemma validateItems_lengths_differ
    (rec : subSchema -> Value -> Result -> jsonContext.t -> Result)
    (s : subSchema) (value : list Value) (result : Result)
    (context : jsonContext.t) :
  itemsChildrenIsSingleSchema s = false ->
  List.length (itemsChildren s) <> List.length value ->
  (forall a, additionalItems s <> Some (inr a)) ->
  validateItems rec s value result context = result
  \/ validateItems rec s value result context
     = addError result context KEY_ADDITIONAL_ITEMS (ReqBool false)
         (VSlice value)
         (Sprintf invalidAdditionalItemsErrorMessage [ArgBool false]).
Proof.
  intros Hsingle Hlen Hadd. unfold validateItems. rewrite Hsingle.
  destruct (0 <? _)%nat; [| now left]. cbv zeta.
  replace (List.length (itemsChildren s) =? List.length value)%nat
    with false by (symmetry; now apply Nat.eqb_neq).
  destruct (_ <? _)%nat; [| now left].
  destruct (additionalItems s) as [[[|] | a]|]; cbn; auto.
  now elim (Hadd a).
Qed.


Lemma errorsWith_addError attr v c a q x d :
  errorsWith attr (addError v c a q x d)
  = errorsWith attr v
    ++ (if String.eqb a attr then [mkResultError c d x a q] else []).
Proof.
  unfold errorsWith. rewrite errors_addError, filter_app. reflexivity.
Qed.

Lemma errorsWith_incrementScore attr v :
  errorsWith attr (incrementScore v) = errorsWith attr v.
Proof. reflexivity. Qed.

Lemma errorsWith_uniqueItems_loop attr value context l st :
  attr <> KEY_UNIQUE_ITEMS ->
  errorsWith attr (fst (fold_left (uniqueItemsStep value context) l st))
  = errorsWith attr (fst st).
Proof.
  intros Hattr. revert st.
  assert (E : String.eqb KEY_UNIQUE_ITEMS attr = false)
    by (apply String.eqb_neq; congruence).
  induction l as [|v l IH]; intros [result seen]; simpl; [reflexivity |].
  rewrite IH. unfold uniqueItemsStep.
  destruct (marshalToJsonString v) as [vString [e|]];
    destruct (isStringInSlice seen vString); simpl;
    rewrite ?errorsWith_addError, ?E, ?app_nil_r; reflexivity.
Qed.

(** What [validateArray] adds after the items: errors of the keywords
    [minItems], [maxItems] and [uniqueItems] only. *)
Lemma errorsWith_validateArray attr s value result context :
  attr <> KEY_MIN_ITEMS -> attr <> KEY_MAX_ITEMS ->
  attr <> KEY_UNIQUE_ITEMS ->
  errorsWith attr (validateArray validateRecursive s value result context)
  = errorsWith attr (validateItems validateRecursive s value result context).
Proof.
  intros Hmin Hmax Huniq. unfold validateArray.
  assert (Emin : String.eqb KEY_MIN_ITEMS attr = false)
    by (apply String.eqb_neq; congruence).
  assert (Emax : String.eqb KEY_MAX_ITEMS attr = false)
    by (apply String.eqb_neq; congruence).
  set (r0 := validateItems validateRecursive s value result context).
  cbv zeta. rewrite errorsWith_incrementScore.
  destruct (isTrue (uniqueItems s));
    [rewrite errorsWith_uniqueItems_loop by exact Huniq; cbn [fst] |];
    destruct (minItems s) as [mn|];
    destruct (maxItems s) as [mx|];
    repeat match goal with
           | |- context [if ?b then _ else _] => destruct b
           end;
    rewrite ?errorsWith_addError, ?Emin, ?Emax, ?app_nil_r; reflexivity.
Qed.

(** C3 (as the code has it).  With tuple items of length [k >= 1], an
    array of length [n > k] and [additionalItems] false, the items part of
    [validateArray] records one error whatever [n - k] is: the
    [additionalItems] error at the array's own context, about the whole
    array.  It is the only [additionalItems] error [validateArray] adds. *)
Theorem C3_one_additionalItems_error_per_array :
  forall (currentSubSchema : subSchema) (value : list Value)
         (result : Result) (context : jsonContext.t),
    itemsChildrenIsSingleSchema currentSubSchema = false ->
    additionalItems currentSubSchema = Some (inl false) ->
    (0 < List.length (itemsChildren currentSubSchema))%nat ->
    (List.length (itemsChildren currentSubSchema) < List.length value)%nat ->
    errors (validateItems validateRecursive currentSubSchema value result
              context)
    = errors result ++ [additionalItemsError value context]
    /\ errorsWith KEY_ADDITIONAL_ITEMS
         (validateArray validateRecursive currentSubSchema value result
            context)
       = errorsWith KEY_ADDITIONAL_ITEMS result
         ++ [additionalItemsError value context].
Proof.
  intros s value result context Hsingle Hadd Hk Hn.
  assert (E : validateItems validateRecursive s value result context
              = addError result context KEY_ADDITIONAL_ITEMS (ReqBool false)
                  (VSlice value)
                  (Sprintf invalidAdditionalItemsErrorMessage
                     [ArgBool false])).
  { unfold validateItems. rewrite Hsingle, Hadd.
    replace (0 <? List.length (itemsChildren s))%nat with true
      by (symmetry; now apply Nat.ltb_lt).
    replace (List.length (itemsChildren s) =? List.length value)%nat
      with false by (symmetry; apply Nat.eqb_neq; lia).
    replace (List.length (itemsChildren s) <? List.length value)%nat
      with true by (symmetry; now apply Nat.ltb_lt).
    reflexivity. }
  split.
  - rewrite E. reflexivity.
  - rewrite errorsWith_validateArray by (intro; discriminate).
    rewrite E, errorsWith_addError. reflexivity.
Qed.

(** ** C5: [additionalProperties] false *)

Lemma existsb_Permutation {A : Type} (f : A -> bool) (l l' : list A) :
  Permutation l l' -> existsb f l = existsb f l'.
Proof.
  induction 1 as [| x l l' _ IH | x y l | l l' l'' _ IH1 _ IH2]; simpl.
  - reflexivity.
  - now rewrite IH.
  - destruct (f x), (f y); reflexivity.
  - congruence.
Qed.

Lemma existsb_map_compose {A B : Type} (g : A -> B) (f : B -> bool) l :
  existsb f (map g l) = existsb (fun a => f (g a)) l.
Proof. induction l as [|a l IH]; simpl; [reflexivity | now rewrite IH]. Qed.

(** The pattern loop adds to the result it is given and computes its two
    flags from the entries alone. *)
Lemma fold_left_patternPropertyStep key value context
    (l : list (string * (Value -> jsonContext.t -> Result)))
    (result : Result) (has validatedkey : bool) :
  let subContext := newJsonContext key (Some context) in
  let out := fold_left (patternPropertyStep key value context) l
               (result, has, validatedkey) in
  let fresh := fold_left (patternPropertyStep key value context) l
                 (newResult, false, false) in
  errors (fst (fst out)) = errors result ++ errors (fst (fst fresh))
  /\ score (fst (fst out)) = score result + score (fst (fst fresh))
  /\ snd (fst out)
     = has || existsb (fun e => regexpMatchString (fst e) key) l
  /\ snd out
     = validatedkey
       || existsb (fun e => regexpMatchString (fst e) key
                            && Valid (snd e value subContext)) l.
Proof.
  cbv zeta. revert result has validatedkey.
  induction l as [|[pk pv] l IH]; intros result has validatedkey.
  - simpl. rewrite app_nil_r, Z.add_0_r, !orb_false_r. auto.
  - cbn [fold_left patternPropertyStep existsb fst snd].
    destruct (regexpMatchString pk key) eqn:E; cbn [andb orb].
    + destruct (IH (mergeErrors result
                      (pv value (newJsonContext key (Some context))))
                   true
                   (if Valid (pv value (newJsonContext key (Some context)))
                    then true else validatedkey))
        as (He & Hs & Hh & Hv).
      destruct (IH (mergeErrors newResult
                      (pv value (newJsonContext key (Some context))))
                   true
                   (if Valid (pv value (newJsonContext key (Some context)))
                    then true else false))
        as (He' & Hs' & _ & _).
      rewrite He, Hs, Hh, Hv, He', Hs'. cbn. repeat split.
      * now rewrite app_assoc.
      * lia.
      * now rewrite orb_true_r.
      * destruct (Valid (pv value (newJsonContext key (Some context))));
          cbn; [now rewrite orb_true_r | reflexivity].
    + apply IH.
Qed.

Lemma validatePatternProperty_spec s key value result context :
  let out :=
    validatePatternProperty validateRecursive s key value result context in
  errors (fst out) = errors result ++ patternPropertyErrors s key value context
  /\ snd out = (patternHas s key, patternValidated s key value context).
Proof.
  cbv zeta. unfold patternPropertyErrors, validatePatternProperty.
  set (l := rangeMap _ (map _ (patternProperties s))).
  destruct (fold_left_patternPropertyStep key value context l result
              false false) as (He & _ & Hh & Hv).
  destruct (fold_left_patternPropertyStep key value context l newResult
              false false) as (_ & _ & _ & Hv').
  cbv zeta in *.
  assert (Hhas : existsb (fun e => regexpMatchString (fst e) key) l
                 = patternHas s key).
  { subst l. rewrite (existsb_Permutation _ _ _ (rangeMap_Permutation _ _)).
    rewrite existsb_map_compose. reflexivity. }
  assert (Hval : existsb (fun e => regexpMatchString (fst e) key
                          && Valid (snd e value
                                      (newJsonContext key (Some context)))) l
                 = patternValidated s key value context).
  { subst l. rewrite (existsb_Permutation _ _ _ (rangeMap_Permutation _ _)).
    rewrite existsb_map_compose. reflexivity. }
  destruct (fold_left (patternPropertyStep key value context) l
              (result, false, false)) as [[r h] v].
  destruct (fold_left (patternPropertyStep key value context) l
              (newResult, false, false)) as [[r' h'] v'].
  cbn [fst snd] in *. rewrite Hhas in Hh. rewrite Hval in Hv, Hv'.
  cbn [orb] in *. subst h v v'.
  destruct (patternValidated s key value context); cbn [negb fst snd];
    rewrite ?errors_incrementScore; auto.
Qed.

(** One round of the loop: the pattern errors of the key, then its
    [additionalProperties] error unless the key is permitted. *)
Lemma additionalPropertiesFalseStep_errors s value context result pk :
  errors (additionalPropertiesFalseStep validateRecursive s value context
            result pk)
  = errors result
    ++ patternPropertyErrors s pk (valueAt value pk) context
    ++ (if permitted s value context pk then []
        else [additionalPropertiesError s context pk]).
Proof.
  unfold additionalPropertiesFalseStep, permitted, additionalPropertiesError.
  destruct (validatePatternProperty_spec s pk (valueAt value pk) result
              context) as (He & Hf).
  cbv zeta in *.
  destruct (validatePatternProperty validateRecursive s pk
              (valueAt value pk) result context) as [r [has matched]].
  cbn [fst snd] in *. injection Hf as -> ->.
  assert (Himp : patternValidated s pk (valueAt value pk) context = true ->
                 patternHas s pk = true).
  { unfold patternValidated, patternHas. rewrite !existsb_exists.
    intros (kv & Hin & Hkv). exists kv. split; [exact Hin |].
    now apply andb_prop in Hkv. }
  destruct (propertyFound s pk);
    destruct (patternValidated s pk (valueAt value pk) context);
    destruct (patternHas s pk);
    try (specialize (Himp eq_refl); discriminate Himp);
    cbn [andb orb negb];
    rewrite ?errors_addError, He, <- ?app_assoc, ?app_nil_r; reflexivity.
Qed.

Lemma fold_left_errors_flat_map {K : Type} (step : Result -> K -> Result)
    (delta : K -> list ResultError) (keys : list K) (result : Result) :
  (forall r k, errors (step r k) = errors r ++ delta k) ->
  errors (fold_left step keys result) = errors result ++ flat_map delta keys.
Proof.
  intros H. revert result.
  induction keys as [|k keys IH]; intros result; simpl.
  - now rewrite app_nil_r.
  - rewrite IH, H, <- app_assoc. reflexivity.
Qed.

(** C5 (as the code has it).  Under [additionalProperties: false] the
    object records what it records under [additionalProperties: true]
    (the size and [required] checks) and then, key by key in the order the
    object is ranged, the errors of the schemas of the patterns matching
    the key, followed by one [additionalProperties] error at the key's
    sub-context unless the key is permitted.  A key is permitted exactly
    when some matching pattern's schema validated its value, or when it is
    declared and no pattern matches it. *)
Theorem C5_additionalProperties_false_per_key :
  forall (currentSubSchema : subSchema) (value : list (string * Value))
         (result : Result) (context : jsonContext.t),
    additionalProperties currentSubSchema = Some (inl false) ->
    errors (validateObject validateRecursive currentSubSchema value result
              context)
    = errors (validateObject validateRecursive
                (withAdditionalProperties (Some (inl true)) currentSubSchema)
                value result context)
      ++ flat_map
           (fun pk =>
              patternPropertyErrors currentSubSchema pk (valueAt value pk)
                context
              ++ (if permitted currentSubSchema value context pk then []
                  else [additionalPropertiesError currentSubSchema context
                          pk]))
           (map fst (rangeMap _ value)).
Proof.
  intros s value result context Hadd.
  unfold validateObject. rewrite Hadd.
  cbn [additionalProperties withAdditionalProperties minProperties
       maxProperties required negb].
  cbv zeta. rewrite !errors_incrementScore.
  apply fold_left_errors_flat_map.
  intros r k. apply additionalPropertiesFalseStep_errors.
Qed.

(** ** C7: the score *)

Ltac score_cases :=
  repeat match goal with
         | |- context [match ?x with Some _ => _ | None => _ end] =>
             destruct x
         | |- context [if ?b then _ else _] => destruct b
         end;
  unfold added; cbn [errors score addError incrementScore];
  rewrite ?length_app; cbn [List.length]; lia.

Lemma validateString_score s str result context :
  let out := validateString s (VString str) result context in
  score out = score result + 1 - 2 * added result out.
Proof. cbv zeta. unfold validateString. cbn [isKind kindOf reflect.eqb negb].
  score_cases. Qed.

Lemma validateNumber_score s f result context :
  let out := validateNumber s (VFloat64 f) result context in
  score out = score result + 1 - 2 * added result out.
Proof. cbv zeta. unfold validateNumber. cbn [isKind kindOf reflect.eqb negb].
  unfold isTrue. score_cases. Qed.

Lemma validateCommon_score s value result context :
  let out := validateCommon s value result context in
  score out = score result + 1 - 2 * added result out.
Proof.
  cbv zeta. unfold validateCommon, ContainsEnum.
  destruct (marshalToJsonString value) as [str [e|]]; score_cases.
Qed.

End Properties.

(** ** Induction on the schema tree *)

Lemma subSchema_children_ind (P : subSchema -> Prop) :
  (forall s, (forall c, In c (children s) -> P c) -> P s) ->
  forall s, P s.
Proof.
  intros step. fix IH 1. intros s. apply step.
  destruct s as [p t ref items single props mo mx emx mn emn mnl mxl pat
                 mnp mxp req deps addp pps mni mxi uniq addi en one any all
                 nt].
  unfold children. cbn.
  intros c Hc.
  repeat (apply in_app_or in Hc; destruct Hc as [Hc | Hc]).
  - destruct ref as [r|]; simpl in Hc; [| contradiction].
    destruct Hc as [<- | []]. apply IH.
  - induction items as [|x l IHl]; simpl in Hc; [contradiction |].
    destruct Hc as [<- | Hc]; [apply IH | now apply IHl].
  - induction props as [|x l IHl]; simpl in Hc; [contradiction |].
    destruct Hc as [<- | Hc]; [apply IH | now apply IHl].
  - induction deps as [|[k [names | x]] l IHl]; simpl in Hc;
      [contradiction | now apply IHl |].
    destruct Hc as [<- | Hc]; [apply IH | now apply IHl].
  - destruct addp as [[b | x]|]; simpl in Hc; try contradiction.
    destruct Hc as [<- | []]. apply IH.
  - induction pps as [|[k x] l IHl]; simpl in Hc; [contradiction |].
    destruct Hc as [<- | Hc]; [apply IH | now apply IHl].
  - destruct addi as [[b | x]|]; simpl in Hc; try contradiction.
    destruct Hc as [<- | []]. apply IH.
  - induction one as [|x l IHl]; simpl in Hc; [contradiction |].
    destruct Hc as [<- | Hc]; [apply IH | now apply IHl].
  - induction any as [|x l IHl]; simpl in Hc; [contradiction |].
    destruct Hc as [<- | Hc]; [apply IH | now apply IHl].
  - induction all as [|x l IHl]; simpl in Hc; [contradiction |].
    destruct Hc as [<- | Hc]; [apply IH | now apply IHl].
  - destruct nt as [n|]; simpl in Hc; [| contradiction].
    destruct Hc as [<- | []]. apply IH.
Qed.


(** ** Results as an accumulation *)

Lemma mergeErrors_assoc a b c :
  mergeErrors (mergeErrors a b) c = mergeErrors a (mergeErrors b c).
Proof.
  unfold mergeErrors, Errors. cbn. now rewrite app_assoc, Z.add_assoc.
Qed.

Lemma mergeErrors_newResult_r r : mergeErrors r newResult = r.
Proof.
  destruct r. unfold mergeErrors, Errors. cbn.
  now rewrite app_nil_r, Z.add_0_r.
Qed.

Lemma mergeErrors_newResult_l r : mergeErrors newResult r = r.
Proof. destruct r. reflexivity. Qed.

Lemma addError_oneError r c a q x d :
  addError r c a q x d = mergeErrors r (oneError c a q x d).
Proof. reflexivity. Qed.

Lemma incrementScore_onePoint r : incrementScore r = mergeErrors r onePoint.
Proof. unfold incrementScore, mergeErrors. cbn. now rewrite app_nil_r. Qed.

Lemma additive_apply f :
  additive f -> forall r, f r = mergeErrors r (f newResult).
Proof.
  intros [d H] r. now rewrite (H newResult), mergeErrors_newResult_l.
Qed.

Lemma additive_id : additive (fun r => r).
Proof. exists newResult. intros r. now rewrite mergeErrors_newResult_r. Qed.

Lemma additive_mergeErrors d : additive (fun r => mergeErrors r d).
Proof. now exists d. Qed.

Lemma additive_addError c a q x d : additive (fun r => addError r c a q x d).
Proof. now exists (oneError c a q x d). Qed.

Lemma additive_incrementScore : additive incrementScore.
Proof. exists onePoint. apply incrementScore_onePoint. Qed.

Lemma additive_compose f g :
  additive f -> additive g -> additive (fun r => g (f r)).
Proof.
  intros [df Hf] [dg Hg]. exists (mergeErrors df dg). intros r.
  now rewrite Hf, Hg, mergeErrors_assoc.
Qed.

Lemma additive_ext f g : (forall r, f r = g r) -> additive f -> additive g.
Proof. intros E [d H]. exists d. intros r. now rewrite <- E. Qed.

Lemma additive_fold_left {K : Type} (step : Result -> K -> Result)
    (l : list K) :
  (forall k, In k l -> additive (fun r => step r k)) ->
  additive (fun r => fold_left step l r).
Proof.
  induction l as [|k l IH]; intros H; simpl.
  - apply additive_id.
  - apply (additive_compose (fun r => step r k) (fun r => fold_left step l r)).
    + apply H. now left.
    + apply IH. intros k' Hk'. apply H. now right.
Qed.

(** A loop whose state pairs the result with something computed apart
    from it. *)
Lemma additive_fold_left_fst {K S : Type}
    (step : Result * S -> K -> Result * S) (next : S -> K -> S)
    (l : list K) (st : S) :
  (forall k s, additive (fun r => fst (step (r, s) k))) ->
  (forall k s r, snd (step (r, s) k) = next s k) ->
  additive (fun r => fst (fold_left step l (r, st)))
  /\ forall r, snd (fold_left step l (r, st)) = fold_left next l st.
Proof.
  intros Hfst Hsnd. revert st.
  induction l as [|k l IH]; intros st; simpl.
  - split; [apply additive_id | reflexivity].
  - destruct (IH (next st k)) as [IHa IHs]. split.
    + eapply additive_ext;
        [| apply (additive_compose (fun r => fst (step (r, st) k))
                    (fun r => fst (fold_left step l (r, next st k))));
           [apply Hfst | exact IHa]].
      intros r. cbv beta.
      rewrite (surjective_pairing (step (r, st) k)) at 2.
      now rewrite Hsnd.
    + intros r. rewrite (surjective_pairing (step (r, st) k)).
      now rewrite Hsnd, IHs.
Qed.

(** ** Results with the same report *)

Lemma sameReport_refl r : sameReport r r.
Proof. split; [apply Permutation_refl | reflexivity]. Qed.

Lemma sameReport_sym r1 r2 : sameReport r1 r2 -> sameReport r2 r1.
Proof. intros [H1 H2]. split; [now apply Permutation_sym | congruence]. Qed.

Lemma sameReport_trans r1 r2 r3 :
  sameReport r1 r2 -> sameReport r2 r3 -> sameReport r1 r3.
Proof.
  intros [H1 H2] [H3 H4].
  split; [eapply Permutation_trans; eassumption | congruence].
Qed.

Lemma sameReport_mergeErrors a1 a2 b1 b2 :
  sameReport a1 a2 -> sameReport b1 b2 ->
  sameReport (mergeErrors a1 b1) (mergeErrors a2 b2).
Proof.
  intros [Ha Hsa] [Hb Hsb]. split; cbn.
  - rewrite !map_app. now apply Permutation_app.
  - unfold Errors. congruence.
Qed.

Lemma sameReport_mergeErrors_swap r1 r2 a1 a2 b1 b2 :
  sameReport r1 r2 -> sameReport a1 a2 -> sameReport b1 b2 ->
  sameReport (mergeErrors (mergeErrors r1 a1) b1)
             (mergeErrors (mergeErrors r2 b2) a2).
Proof.
  intros [Hr Hsr] [Ha Hsa] [Hb Hsb]. split; cbn.
  - unfold Errors. cbn. rewrite !map_app, <- !app_assoc.
    apply Permutation_app; [exact Hr |].
    eapply Permutation_trans; [apply Permutation_app_comm |].
    now apply Permutation_app.
  - lia.
Qed.

Lemma sameReport_oneError c a q x d1 d2 :
  sameReport (oneError c a q x d1) (oneError c a q x d2).
Proof. split; [apply Permutation_refl | reflexivity]. Qed.

Lemma sameReport_addError r1 r2 c a q x d1 d2 :
  sameReport r1 r2 ->
  sameReport (addError r1 c a q x d1) (addError r2 c a q x d2).
Proof.
  intros H. rewrite !addError_oneError.
  apply sameReport_mergeErrors; [exact H | apply sameReport_oneError].
Qed.

Lemma sameReport_incrementScore r1 r2 :
  sameReport r1 r2 -> sameReport (incrementScore r1) (incrementScore r2).
Proof.
  intros H. rewrite !incrementScore_onePoint.
  apply sameReport_mergeErrors; [exact H | apply sameReport_refl].
Qed.

Lemma sameReport_Valid r1 r2 : sameReport r1 r2 -> Valid r1 = Valid r2.
Proof.
  intros [H _]. apply Permutation_length in H.
  rewrite !length_map in H. unfold Valid. now rewrite H.
Qed.

Lemma agree_additive f : additive f -> agree f f.
Proof.
  intros [d H] r1 r2 Hr. rewrite !H.
  apply sameReport_mergeErrors; [exact Hr | apply sameReport_refl].
Qed.

Lemma agree_fold_left {K : Type} (step1 step2 : Result -> K -> Result)
    (l : list K) :
  (forall k, In k l -> agree (fun r => step1 r k) (fun r => step2 r k)) ->
  agree (fun r => fold_left step1 l r) (fun r => fold_left step2 l r).
Proof.
  induction l as [|k l IH]; intros H r1 r2 Hr; simpl.
  - exact Hr.
  - apply IH.
    + intros k' Hk'. apply H. now right.
    + apply (H k); [now left | exact Hr].
Qed.

(** A loop over the keys of a map, run in two orders: when every round
    only adds to the result and the two runs agree round by round, they
    agree on the whole. *)
Lemma agree_fold_left_Permutation {K : Type}
    (step1 step2 : Result -> K -> Result) (l1 l2 : list K) :
  (forall k, additive (fun r => step1 r k)) ->
  (forall k, additive (fun r => step2 r k)) ->
  (forall k, agree (fun r => step1 r k) (fun r => step2 r k)) ->
  Permutation l1 l2 ->
  agree (fun r => fold_left step1 l1 r) (fun r => fold_left step2 l2 r).
Proof.
  intros Ha1 Ha2 Hag Hp.
  assert (Hsame : forall l,
            agree (fun r => fold_left step1 l r)
                  (fun r => fold_left step2 l r)).
  { intros l. apply agree_fold_left. intros k _. apply Hag. }
  assert (Hself : forall l,
            agree (fun r => fold_left step2 l r)
                  (fun r => fold_left step2 l r)).
  { intros l. apply agree_additive, additive_fold_left.
    intros k _. apply Ha2. }
  induction Hp as [| x l l' _ IH | x y l | l l' l'' _ IH1 _ IH2];
    intros r1 r2 Hr; simpl.
  - exact Hr.
  - apply IH. now apply (Hag x).
  - apply Hsame.
    rewrite (additive_apply _ (Ha1 y) r1), (additive_apply _ (Ha1 x)).
    rewrite (additive_apply _ (Ha2 x) r2), (additive_apply _ (Ha2 y)).
    apply sameReport_mergeErrors_swap; [exact Hr | |].
    + apply (Hag y), sameReport_refl.
    + apply (Hag x), sameReport_refl.
  - eapply sameReport_trans; [apply (IH1 r1 r2 Hr) |].
    eapply sameReport_trans; [| apply (IH2 r2 r2), sameReport_refl].
    apply sameReport_sym, Hsame, sameReport_refl.
Qed.

(** ** Every routine only adds to the result it is given *)

Section Frame.

Context {rt : Runtime}.

Variable rec : subSchema -> Value -> Result -> jsonContext.t -> Result.

Ltac additive_chain :=
  cbv beta zeta;
  lazymatch goal with
  | |- additive (fun r => r) => apply additive_id
  | |- additive incrementScore => apply additive_incrementScore
  | |- additive (fun r => incrementScore (@?f r)) =>
      apply (additive_compose f incrementScore);
      [additive_chain | apply additive_incrementScore]
  | |- additive (fun r => addError (@?f r) ?c ?a ?q ?x ?d) =>
      apply (additive_compose f (fun r => addError r c a q x d));
      [additive_chain | apply additive_addError]
  | |- additive (fun r => mergeErrors (@?f r) ?d) =>
      apply (additive_compose f (fun r => mergeErrors r d));
      [additive_chain | apply additive_mergeErrors]
  | |- additive _ => eassumption
  end.

Ltac split_cases :=
  repeat match goal with
         | |- context [match ?x with Some _ => _ | None => _ end] =>
             destruct x
         | |- context [if ?b then _ else _] => destruct b
         end.

Lemma validateString_additive s v c :
  additive (fun r => validateString s v r c).
Proof.
  unfold validateString. destruct v; cbn [isKind kindOf reflect.eqb negb];
    try apply additive_id.
  split_cases; additive_chain.
Qed.

Lemma validateNumber_additive s v c :
  additive (fun r => validateNumber s v r c).
Proof.
  unfold validateNumber, isTrue.
  destruct v; cbn [isKind kindOf reflect.eqb negb]; try apply additive_id.
  split_cases; additive_chain.
Qed.

Lemma validateCommon_additive s v c :
  additive (fun r => validateCommon s v r c).
Proof.
  unfold validateCommon, ContainsEnum.
  destruct (marshalToJsonString v) as [str [e|]]; split_cases; additive_chain.
Qed.

Lemma validateAnyOf_additive s v c :
  additive (fun r => validateAnyOf rec s v r c).
Proof.
  unfold validateAnyOf.
  destruct (0 <? _)%nat; [| apply additive_id].
  destruct (fold_left _ _ _) as [validated results].
  destruct (negb validated); [| apply additive_id].
  destruct (getBestResult results); additive_chain.
Qed.

Lemma validateOneOf_additive s v c :
  additive (fun r => validateOneOf rec s v r c).
Proof.
  unfold validateOneOf.
  destruct (0 <? _)%nat; [| apply additive_id].
  destruct (fold_left _ _ _) as [results nb].
  destruct (negb _); [| apply additive_id].
  destruct (if nb =? 0 then _ else _); additive_chain.
Qed.

Lemma validateAllOf_additive s v c :
  additive (fun r => validateAllOf rec s v r c).
Proof.
  unfold validateAllOf.
  destruct (0 <? _)%nat; [| apply additive_id].
  destruct (additive_fold_left_fst (allOfStep rec v c)
              (fun nb a =>
                 if Valid (subValidateWithContext rec a v c) then nb + 1
                 else nb)
              (allOf s) 0) as [Ha Hs].
  { intros a nb. cbn. additive_chain. }
  { intros a nb r. reflexivity. }
  eapply additive_ext.
  { intros r. cbv beta.
    rewrite (surjective_pairing (fold_left _ _ (r, 0))), Hs. reflexivity. }
  cbv beta.
  destruct (negb _).
  - apply (additive_compose _ (fun r => addError r _ _ _ _ _) Ha).
    apply additive_addError.
  - exact Ha.
Qed.

Lemma validateNot_additive s v c :
  additive (fun r => validateNot rec s v r c).
Proof. unfold validateNot. split_cases; additive_chain. Qed.

(** Looking a key up in a map whose values went through [g]. *)
Lemma lookup_map_values {A B : Type} (g : A -> B) k (l : list (string * A)) :
  lookup k (map (fun kv => (fst kv, g (snd kv))) l)
  = option_map g (lookup k l).
Proof.
  induction l as [|[k' a] l IH]; simpl; [reflexivity |].
  destruct (String.eqb k k'); [reflexivity | exact IH].
Qed.

Lemma lookup_In {A : Type} k (l : list (string * A)) a :
  lookup k l = Some a -> exists k', In (k', a) l.
Proof.
  induction l as [|[k' a'] l IH]; simpl; [discriminate |].
  destruct (String.eqb k k').
  - intros [= <-]. exists k'. now left.
  - intros H. destruct (IH H) as [k'' Hin]. exists k''. now right.
Qed.

(** What the [dependencies] loop finds under a key: names, or the walker
    bound to a schema that sits in the [dependencies] of [s]. *)
Lemma lookup_dependencies s k :
  match lookup k
          (map (fun kv =>
                  (fst kv,
                   match snd kv with
                   | inl names => inl names
                   | inr dependency => inr (rec dependency)
                   end)) (dependencies s)) with
  | Some (inr f) =>
      exists d, f = rec d
                /\ In d (flat_map (fun kv => dependencySchema (snd kv))
                           (dependencies s))
  | _ => True
  end.
Proof.
  rewrite (lookup_map_values
             (fun x => match x with
                       | inl names => inl names
                       | inr dependency => inr (rec dependency)
                       end)).
  destruct (lookup k (dependencies s)) as [[names | d]|] eqn:E; cbn; auto.
  exists d. split; [reflexivity |].
  destruct (lookup_In _ _ _ E) as [k' Hin].
  apply in_flat_map. exists (k', inr d). split; [exact Hin | now left].
Qed.

Lemma dependencyStep_additive s m v c k :
  (forall d, In d (flat_map (fun kv => dependencySchema (snd kv))
                     (dependencies s)) ->
             forall v c, additive (fun r => rec d v r c)) ->
  additive
    (fun r =>
       dependencyStep m v c
         (map (fun kv =>
                 (fst kv,
                  match snd kv with
                  | inl names => inl names
                  | inr dependency => inr (rec dependency)
                  end)) (dependencies s)) r k).
Proof.
  intros Hrec. unfold dependencyStep.
  pose proof (lookup_dependencies s k) as Hk.
  destruct (lookup k _) as [[names | f]|]; [| | apply additive_id].
  - apply additive_fold_left. intros name _.
    destruct (lookup name m); additive_chain.
  - destruct Hk as (d & -> & Hd). now apply Hrec.
Qed.

Lemma validateDependencies_additive s v c :
  (forall d, In d (flat_map (fun kv => dependencySchema (snd kv))
                     (dependencies s)) ->
             forall v c, additive (fun r => rec d v r c)) ->
  additive (fun r => validateDependencies rec s v r c).
Proof.
  intros Hrec. unfold validateDependencies.
  destruct (0 <? _)%nat; [| apply additive_id].
  destruct (isKind v reflect.Map); [| apply additive_id].
  destruct v; try apply additive_id.
  apply additive_fold_left. intros k _.
  now apply dependencyStep_additive.
Qed.

Lemma validateSchema_additive s v c :
  (forall d, In d (flat_map (fun kv => dependencySchema (snd kv))
                     (dependencies s)) ->
             forall v c, additive (fun r => rec d v r c)) ->
  additive (fun r => validateSchema rec s v r c).
Proof.
  intros Hrec.
  destruct (validateAnyOf_additive s v c) as [d1 H1].
  destruct (validateOneOf_additive s v c) as [d2 H2].
  destruct (validateAllOf_additive s v c) as [d3 H3].
  destruct (validateNot_additive s v c) as [d4 H4].
  destruct (validateDependencies_additive s v c Hrec) as [d5 H5].
  cbv beta in *. eexists. intros r. unfold validateSchema. cbv zeta.
  rewrite H5, H4, H3, H2, H1, incrementScore_onePoint, !mergeErrors_assoc.
  reflexivity.
Qed.

Lemma validateItems_additive s value c :
  additive (fun r => validateItems rec s value r c).
Proof.
  unfold validateItems.
  assert (Hloop : forall schemaAt l,
            additive (fun r =>
                        fold_left (validateItemAt schemaAt value c) l r)).
  { intros schemaAt l. apply additive_fold_left. intros i _.
    unfold validateItemAt. additive_chain. }
  destruct (itemsChildrenIsSingleSchema s).
  - destruct (itemsChildren s); [apply additive_id | apply Hloop].
  - destruct (0 <? _)%nat; [| apply additive_id].
    cbv zeta. destruct (_ =? _)%nat; [apply Hloop |].
    destruct (_ <? _)%nat; [| apply additive_id].
    destruct (additionalItems s) as [[b | a]|];
      [destruct (negb b); additive_chain | apply Hloop | apply additive_id].
Qed.

Lemma uniqueItems_loop_additive value c l seen :
  additive (fun r => fst (fold_left (uniqueItemsStep value c) l (r, seen))).
Proof.
  apply (additive_fold_left_fst (uniqueItemsStep value c)
           (fun seen v => seen ++ [fst (marshalToJsonString v)])).
  - intros v seen'. unfold uniqueItemsStep.
    destruct (marshalToJsonString v) as [vString [e|]];
      destruct (isStringInSlice seen' vString); cbn [fst]; additive_chain.
  - intros v seen' r. unfold uniqueItemsStep.
    destruct (marshalToJsonString v) as [vString err]. reflexivity.
Qed.

Lemma validateArray_additive s value c :
  additive (fun r => validateArray rec s value r c).
Proof.
  destruct (validateItems_additive s value c) as [d1 H1]. cbv beta in H1.
  destruct (uniqueItems_loop_additive value c value []) as [d2 H2].
  cbv beta in H2.
  unfold validateArray. cbv zeta.
  destruct (isTrue (uniqueItems s)); split_cases;
    eexists; intros r;
    rewrite ?H2, ?addError_oneError, H1, incrementScore_onePoint,
      ?mergeErrors_assoc; reflexivity.
Qed.

Lemma Result_eq (a b : Result) :
  errors a = errors b -> score a = score b -> a = b.
Proof. destruct a, b. cbn. now intros -> ->. Qed.

Lemma validatePatternProperty_frame s key value c r :
  fst (validatePatternProperty rec s key value r c)
  = mergeErrors r (fst (validatePatternProperty rec s key value newResult c))
  /\ snd (validatePatternProperty rec s key value r c)
     = snd (validatePatternProperty rec s key value newResult c).
Proof.
  unfold validatePatternProperty.
  set (l := rangeMap _ (map _ (patternProperties s))).
  destruct (fold_left_patternPropertyStep key value c l r false false)
    as (He & Hs & Hh & Hv).
  destruct (fold_left_patternPropertyStep key value c l newResult
              false false) as (_ & _ & Hh' & Hv').
  cbv zeta in *.
  destruct (fold_left (patternPropertyStep key value c) l (r, false, false))
    as [[res h] vk].
  destruct (fold_left (patternPropertyStep key value c) l
              (newResult, false, false)) as [[res' h'] vk'].
  cbn [fst snd] in *.
  assert (res = mergeErrors r res') as -> by now apply Result_eq.
  rewrite <- Hh' in Hh. rewrite <- Hv' in Hv. subst h vk.
  destruct vk'; cbn [negb fst snd]; split; try reflexivity.
  now rewrite !incrementScore_onePoint, mergeErrors_assoc.
Qed.

Lemma validatePatternProperty_additive s key value c :
  additive (fun r => fst (validatePatternProperty rec s key value r c)).
Proof.
  eexists. intros r. apply validatePatternProperty_frame.
Qed.

(** A round of an object loop, seen as the pattern check followed by what
    the two flags call for. *)
Ltac object_round s value c pk :=
  pose proof (validatePatternProperty_additive s pk (valueAt value pk) c)
    as Hpattern;
  eapply additive_ext;
  [ intros r; cbv beta;
    rewrite (surjective_pairing
               (validatePatternProperty rec s pk (valueAt value pk) r c));
    rewrite (proj2 (validatePatternProperty_frame s pk (valueAt value pk)
                      c r));
    reflexivity
  | cbv beta;
    destruct (snd (validatePatternProperty rec s pk (valueAt value pk)
                     newResult c)) as [has matched] ].

Lemma additionalPropertiesFalseStep_additive s value c pk :
  additive (fun r => additionalPropertiesFalseStep rec s value c r pk).
Proof.
  unfold additionalPropertiesFalseStep. object_round s value c pk.
  split_cases; additive_chain.
Qed.

Lemma additionalPropertiesSchemaStep_additive s a value c pk :
  additive (fun r => additionalPropertiesSchemaStep rec s a value c r pk).
Proof.
  unfold additionalPropertiesSchemaStep. object_round s value c pk.
  split_cases; additive_chain.
Qed.

Lemma patternPropertiesOnlyStep_additive s value c pk :
  additive (fun r => patternPropertiesOnlyStep rec s value c r pk).
Proof.
  unfold patternPropertiesOnlyStep. object_round s value c pk.
  split_cases; additive_chain.
Qed.

Lemma requiredStep_additive value c name :
  additive (fun r => requiredStep value c r name).
Proof. unfold requiredStep. split_cases; additive_chain. Qed.

Lemma validateObject_additive s value c :
  additive (fun r => validateObject rec s value r c).
Proof.
  set (keys := map fst (rangeMap _ value)).
  destruct (additive_fold_left (requiredStep value c) (required s)
              (fun k _ => requiredStep_additive value c k)) as [dR HR].
  destruct (additive_fold_left (additionalPropertiesFalseStep rec s value c)
              keys
              (fun k _ => additionalPropertiesFalseStep_additive s value c k))
    as [dF HF].
  destruct (additive_fold_left (patternPropertiesOnlyStep rec s value c)
              keys
              (fun k _ => patternPropertiesOnlyStep_additive s value c k))
    as [dP HP].
  assert (HS : forall a, exists dS, forall r,
             fold_left (additionalPropertiesSchemaStep rec s a value c)
               keys r = mergeErrors r dS).
  { intros a. apply (additive_fold_left
                       (additionalPropertiesSchemaStep rec s a value c)).
    intros k _. apply additionalPropertiesSchemaStep_additive. }
  cbv beta in *. unfold validateObject. cbv zeta. fold keys.
  destruct (additionalProperties s) as [[b | a]|];
    [destruct (negb b) | destruct (HS (subValidateWithContext rec a))
                           as [dS HS'] |];
    split_cases; eexists; intros r;
    rewrite ?HF, ?HS', ?HP, HR, ?addError_oneError, incrementScore_onePoint,
      ?mergeErrors_assoc; reflexivity.
Qed.

Lemma propertyStep_additive m c p :
  (forall v c, additive (fun r => rec p v r c)) ->
  additive (fun r => propertyStep rec m c r p).
Proof.
  intros H. unfold propertyStep.
  destruct (lookup (property p) m); [apply H | apply additive_id].
Qed.

Lemma validateNode_additive s v c :
  (forall d, In d (children s) ->
             forall v c, additive (fun r => rec d v r c)) ->
  additive (fun r => validateNode rec s v r c).
Proof.
  intros Hrec.
  assert (Hdeps : forall d,
            In d (flat_map (fun kv => dependencySchema (snd kv))
                    (dependencies s)) ->
            forall v c, additive (fun r => rec d v r c)).
  { intros d Hd. apply Hrec. unfold children.
    rewrite !in_app_iff. tauto. }
  destruct (validateSchema_additive s v c Hdeps) as [d1 H1].
  destruct (validateCommon_additive s v c) as [d2 H2].
  destruct (validateNumber_additive s v c) as [d3 H3].
  destruct (validateString_additive s v c) as [d4 H4].
  cbv beta in *.
  unfold validateNode, typeError.
  destruct v as [| l | m | b | str | f | k].
  - destruct (typeMismatch s TYPE_NULL); [additive_chain |].
    eexists. intros r.
    rewrite H2, H1, incrementScore_onePoint, !mergeErrors_assoc.
    reflexivity.
  - destruct (typeMismatch s TYPE_ARRAY); [additive_chain |].
    destruct (validateArray_additive s l c) as [d5 H5]. cbv beta in H5.
    eexists. intros r.
    rewrite H2, H5, H1, incrementScore_onePoint, !mergeErrors_assoc.
    reflexivity.
  - destruct (typeMismatch s TYPE_OBJECT); [additive_chain |].
    destruct (validateObject_additive s m c) as [d5 H5]. cbv beta in H5.
    destruct (additive_fold_left (propertyStep rec m c)
                (propertiesChildren s)) as [d6 H6].
    { intros p Hp. apply propertyStep_additive. apply Hrec.
      unfold children. rewrite !in_app_iff. tauto. }
    cbv beta in H6.
    eexists. intros r.
    rewrite H6, H2, H5, H1, incrementScore_onePoint, !mergeErrors_assoc.
    reflexivity.
  - destruct (typeMismatch s TYPE_BOOLEAN); [additive_chain |].
    eexists. intros r.
    rewrite H4, H2, H3, H1, incrementScore_onePoint, !mergeErrors_assoc.
    reflexivity.
  - destruct (typeMismatch s TYPE_STRING); [additive_chain |].
    eexists. intros r.
    rewrite H4, H2, H3, H1, incrementScore_onePoint, !mergeErrors_assoc.
    reflexivity.
  - cbv zeta. destruct (_ && _); [additive_chain |].
    eexists. intros r.
    rewrite H4, H2, H3, H1, incrementScore_onePoint, !mergeErrors_assoc.
    reflexivity.
  - apply additive_incrementScore.
Qed.

End Frame.

(** The walker only adds to the result it is given: its errors come after
    those already there, its score on top of the one already there. *)
Lemma validateRecursive_additive {rt : Runtime} (s : subSchema) :
  forall v c, additive (fun r => validateRecursive s v r c).
Proof.
  induction s as [s IH] using subSchema_children_ind. intros v c.
  eapply additive_ext; [intros r; symmetry; apply validateRecursive_eq |].
  cbv beta. destruct (refSchema s) as [ref|] eqn:E.
  - apply IH. unfold children. rewrite E. now left.
  - now apply validateNode_additive.
Qed.


(** ** Merging and selecting among results with the same report *)

Lemma sameReport_mergeAll_Forall2 l1 l2 :
  Forall2 sameReport l1 l2 -> sameReport (mergeAll l1) (mergeAll l2).
Proof.
  induction 1 as [|a b l1 l2 Hab _ IH]; simpl.
  - apply sameReport_refl.
  - now apply sameReport_mergeErrors.
Qed.

Lemma sameReport_mergeAll_Permutation l1 l2 :
  Permutation l1 l2 -> sameReport (mergeAll l1) (mergeAll l2).
Proof.
  induction 1 as [| x l l' _ IH | x y l | l l' l'' _ IH1 _ IH2]; simpl.
  - apply sameReport_refl.
  - apply sameReport_mergeErrors; [apply sameReport_refl | exact IH].
  - rewrite <- !mergeErrors_assoc.
    rewrite <- (mergeErrors_newResult_l (mergeErrors y x)).
    rewrite <- (mergeErrors_newResult_l (mergeErrors x y)).
    rewrite <- !mergeErrors_assoc.
    apply sameReport_mergeErrors; [| apply sameReport_refl].
    apply sameReport_mergeErrors_swap; apply sameReport_refl.
  - eapply sameReport_trans; eassumption.
Qed.

Lemma Forall2_sameReport_insertByScore r1 r2 l1 l2 :
  sameReport r1 r2 -> Forall2 sameReport l1 l2 ->
  Forall2 sameReport (insertByScore r1 l1) (insertByScore r2 l2).
Proof.
  intros Hr. induction 1 as [|x1 x2 l1 l2 Hx Hl IH]; simpl.
  - constructor; [exact Hr | constructor].
  - unfold Less. destruct Hr as [Hre Hrs], Hx as [Hxe Hxs].
    rewrite Hrs, Hxs. destruct (score r2 <? score x2).
    + constructor; [now split | exact IH].
    + constructor; [now split |]. constructor; [now split | exact Hl].
Qed.

Lemma Forall2_sameReport_Sort l1 l2 :
  Forall2 sameReport l1 l2 -> Forall2 sameReport (Sort l1) (Sort l2).
Proof.
  induction 1 as [|x1 x2 l1 l2 Hx _ IH]; simpl.
  - constructor.
  - now apply Forall2_sameReport_insertByScore.
Qed.

Lemma sameBest_getBestResult l1 l2 :
  Forall2 sameReport l1 l2 ->
  sameBest (getBestResult l1) (getBestResult l2).
Proof.
  intros H. unfold getBestResult.
  rewrite (Forall2_length H).
  destruct (1 <? List.length l2)%nat; [| exact I].
  apply Forall2_sameReport_Sort in H.
  destruct H as [|a1 a2 t1 t2 Ha Ht]; [exact I |].
  destruct Ht as [|b1 b2 t1 t2 Hb _]; [exact I |].
  simpl. destruct Ha as [Hae Has], Hb as [Hbe Hbs].
  rewrite Has, Hbs. destruct (score a2 =? score b2); simpl; [exact I |].
  now split.
Qed.

(** ** Two runs of the first embedding that range their maps in different
    orders *)

Section Determinism.

Context {rt : Runtime}.

Variable range' : forall A : Type, list (string * A) -> list (string * A).

Hypothesis perm' :
  forall (A : Type) (m : list (string * A)), Permutation (range' A m) m.

Abbreviation rt' := (reordered rt range' perm').
Abbreviation V1 := (@validateRecursive rt).
Abbreviation V2 := (@validateRecursive rt').

Abbreviation agreeOn := (walkersAgree rt range' perm').

Lemma agreeOn_subValidateWithContext d v c :
  agreeOn d ->
  sameReport (subValidateWithContext V1 d v c)
             (subValidateWithContext V2 d v c).
Proof. intros H. apply H, sameReport_refl. Qed.

Lemma validateString_agree s v c :
  agree (fun r => @validateString rt s v r c)
        (fun r => @validateString rt' s v r c).
Proof.
  change (agree (fun r => @validateString rt s v r c)
                (fun r => @validateString rt s v r c)).
  apply agree_additive, validateString_additive.
Qed.

Lemma validateNumber_agree s v c :
  agree (fun r => @validateNumber rt s v r c)
        (fun r => @validateNumber rt' s v r c).
Proof.
  change (agree (fun r => @validateNumber rt s v r c)
                (fun r => @validateNumber rt s v r c)).
  apply agree_additive, validateNumber_additive.
Qed.

Lemma validateCommon_agree s v c :
  agree (fun r => @validateCommon rt s v r c)
        (fun r => @validateCommon rt' s v r c).
Proof.
  change (agree (fun r => @validateCommon rt s v r c)
                (fun r => @validateCommon rt s v r c)).
  apply agree_additive, validateCommon_additive.
Qed.

Lemma anyOf_loop_agree v c (l : list subSchema) b rs1 rs2 :
  (forall a, In a l -> agreeOn a) ->
  Forall2 sameReport rs1 rs2 ->
  let out1 := fold_left (anyOfStep V1 v c) l (b, rs1) in
  let out2 := fold_left (anyOfStep V2 v c) l (b, rs2) in
  fst out1 = fst out2 /\ Forall2 sameReport (snd out1) (snd out2).
Proof.
  cbv zeta. revert b rs1 rs2.
  induction l as [|a l IH]; intros b rs1 rs2 Hl Hrs; simpl.
  - now split.
  - assert (Ha : sameReport (subValidateWithContext V1 a v c)
                            (subValidateWithContext V2 a v c)).
    { apply agreeOn_subValidateWithContext, Hl. now left. }
    destruct b; cbn [negb].
    + apply IH; [intros; apply Hl; now right | exact Hrs].
    + rewrite (sameReport_Valid _ _ Ha).
      apply IH; [intros; apply Hl; now right |].
      apply Forall2_app; [exact Hrs | constructor; [exact Ha | constructor]].
Qed.

Lemma validateAnyOf_agree s v c :
  (forall a, In a (anyOf s) -> agreeOn a) ->
  agree (fun r => validateAnyOf V1 s v r c)
        (fun r => validateAnyOf V2 s v r c).
Proof.
  intros Hl r1 r2 Hr. unfold validateAnyOf.
  destruct (0 <? _)%nat; [| exact Hr].
  destruct (anyOf_loop_agree v c (anyOf s) false [] [] Hl (Forall2_nil _))
    as [Hb Hrs].
  destruct (fold_left (anyOfStep V1 v c) _ _) as [b1 rs1].
  destruct (fold_left (anyOfStep V2 v c) _ _) as [b2 rs2].
  cbn [fst snd] in *. subst b2.
  destruct (negb b1); [| exact Hr].
  pose proof (sameBest_getBestResult _ _ Hrs) as Hbest.
  destruct (getBestResult rs1), (getBestResult rs2); cbn in Hbest;
    try contradiction.
  - now apply sameReport_mergeErrors.
  - now apply sameReport_addError.
Qed.

Lemma oneOf_loop_agree v c (l : list subSchema) rs1 rs2 nb :
  (forall a, In a l -> agreeOn a) ->
  Forall2 sameReport rs1 rs2 ->
  let out1 := fold_left (oneOfStep V1 v c) l (rs1, nb) in
  let out2 := fold_left (oneOfStep V2 v c) l (rs2, nb) in
  Forall2 sameReport (fst out1) (fst out2) /\ snd out1 = snd out2.
Proof.
  cbv zeta. revert rs1 rs2 nb.
  induction l as [|a l IH]; intros rs1 rs2 nb Hl Hrs; simpl.
  - now split.
  - assert (Ha : sameReport (subValidateWithContext V1 a v c)
                            (subValidateWithContext V2 a v c)).
    { apply agreeOn_subValidateWithContext, Hl. now left. }
    rewrite (sameReport_Valid _ _ Ha).
    destruct (Valid (subValidateWithContext V2 a v c)).
    + apply IH; [intros; apply Hl; now right | exact Hrs].
    + apply IH; [intros; apply Hl; now right |].
      apply Forall2_app; [exact Hrs | constructor; [exact Ha | constructor]].
Qed.

Lemma validateOneOf_agree s v c :
  (forall a, In a (oneOf s) -> agreeOn a) ->
  agree (fun r => validateOneOf V1 s v r c)
        (fun r => validateOneOf V2 s v r c).
Proof.
  intros Hl r1 r2 Hr. unfold validateOneOf.
  destruct (0 <? _)%nat; [| exact Hr].
  destruct (oneOf_loop_agree v c (oneOf s) [] [] 0 Hl (Forall2_nil _))
    as [Hrs Hnb].
  destruct (fold_left (oneOfStep V1 v c) _ _) as [rs1 nb1].
  destruct (fold_left (oneOfStep V2 v c) _ _) as [rs2 nb2].
  cbn [fst snd] in *. subst nb2.
  destruct (negb _); [| exact Hr].
  pose proof (sameBest_getBestResult _ _ Hrs) as Hbest.
  destruct (nb1 =? 0); [| now apply sameReport_addError].
  destruct (getBestResult rs1), (getBestResult rs2); cbn in Hbest;
    try contradiction.
  - now apply sameReport_mergeErrors.
  - now apply sameReport_addError.
Qed.

Lemma allOf_loop_agree v c (l : list subSchema) r1 r2 nb :
  (forall a, In a l -> agreeOn a) ->
  sameReport r1 r2 ->
  let out1 := fold_left (allOfStep V1 v c) l (r1, nb) in
  let out2 := fold_left (allOfStep V2 v c) l (r2, nb) in
  sameReport (fst out1) (fst out2) /\ snd out1 = snd out2.
Proof.
  cbv zeta. revert r1 r2 nb.
  induction l as [|a l IH]; intros r1 r2 nb Hl Hr; simpl.
  - now split.
  - assert (Ha : sameReport (subValidateWithContext V1 a v c)
                            (subValidateWithContext V2 a v c)).
    { apply agreeOn_subValidateWithContext, Hl. now left. }
    rewrite (sameReport_Valid _ _ Ha).
    apply IH; [intros; apply Hl; now right |].
    now apply sameReport_mergeErrors.
Qed.

Lemma validateAllOf_agree s v c :
  (forall a, In a (allOf s) -> agreeOn a) ->
  agree (fun r => validateAllOf V1 s v r c)
        (fun r => validateAllOf V2 s v r c).
Proof.
  intros Hl r1 r2 Hr. unfold validateAllOf.
  destruct (0 <? _)%nat; [| exact Hr].
  destruct (allOf_loop_agree v c (allOf s) r1 r2 0 Hl Hr) as [Hres Hnb].
  destruct (fold_left (allOfStep V1 v c) _ _) as [res1 nb1].
  destruct (fold_left (allOfStep V2 v c) _ _) as [res2 nb2].
  cbn [fst snd] in *. subst nb2.
  destruct (negb _); [now apply sameReport_addError | exact Hres].
Qed.

Lemma validateNot_agree s v c :
  (forall a, In a (optionSchema (not s)) -> agreeOn a) ->
  agree (fun r => validateNot V1 s v r c)
        (fun r => validateNot V2 s v r c).
Proof.
  intros Hl r1 r2 Hr. unfold validateNot.
  destruct (not s) as [n|]; [| exact Hr].
  assert (Hn : sameReport (subValidateWithContext V1 n v c)
                          (subValidateWithContext V2 n v c)).
  { apply agreeOn_subValidateWithContext, Hl. now left. }
  rewrite (sameReport_Valid _ _ Hn).
  destruct (Valid _); [now apply sameReport_addError | exact Hr].
Qed.

Lemma Permutation_keys (m : list (string * Value)) :
  Permutation (map fst (@rangeMap rt _ m)) (map fst (@rangeMap rt' _ m)).
Proof.
  apply Permutation_map.
  eapply Permutation_trans; [apply rangeMap_Permutation |].
  apply Permutation_sym, (@rangeMap_Permutation rt').
Qed.

Ltac agree_chain :=
  repeat first
    [ assumption
    | apply sameReport_refl
    | apply sameReport_incrementScore
    | apply sameReport_addError
    | apply sameReport_mergeErrors ].

Lemma dependencyStep_agree s m v c k :
  (forall d, In d (flat_map (fun kv => dependencySchema (snd kv))
                     (dependencies s)) -> agreeOn d) ->
  let deps rec :=
    map (fun kv =>
           (fst kv,
            match snd kv with
            | inl names => inl names
            | inr dependency =>
                inr (rec dependency
                     : Value -> Result -> jsonContext.t -> Result)
            end)) (dependencies s) in
  agree (fun r => dependencyStep m v c (deps V1) r k)
        (fun r => dependencyStep m v c (deps V2) r k).
Proof.
  intros Hl deps r1 r2 Hr. unfold dependencyStep. subst deps. cbv beta.
  rewrite !(lookup_map_values
              (fun x : list string + subSchema =>
                 match x with
                 | inl names => inl names
                 | inr dependency => inr (_ dependency)
                 end)).
  destruct (lookup k (dependencies s)) as [[names | d]|] eqn:E; cbn.
  - revert r1 r2 Hr. apply agree_fold_left. intros name _ r1 r2 Hr.
    destruct (lookup name m); agree_chain.
  - apply Hl; [| exact Hr].
    destruct (lookup_In _ _ _ E) as [k' Hin].
    apply in_flat_map. exists (k', inr d). split; [exact Hin | now left].
  - exact Hr.
Qed.

Lemma validateDependencies_agree s v c :
  (forall d, In d (flat_map (fun kv => dependencySchema (snd kv))
                     (dependencies s)) -> agreeOn d) ->
  agree (fun r => @validateDependencies rt V1 s v r c)
        (fun r => @validateDependencies rt' V2 s v r c).
Proof.
  intros Hl r1 r2 Hr. unfold validateDependencies.
  destruct (0 <? _)%nat; [| exact Hr].
  destruct (isKind v reflect.Map); [| exact Hr].
  destruct v; try exact Hr.
  revert r1 r2 Hr. apply agree_fold_left_Permutation.
  - intros k. apply dependencyStep_additive.
    intros d _. apply validateRecursive_additive.
  - intros k. apply dependencyStep_additive.
    intros d _. apply validateRecursive_additive.
  - intros k. now apply dependencyStep_agree.
  - apply Permutation_keys.
Qed.

Lemma validateSchema_agree s v c :
  (forall d, In d (children s) -> agreeOn d) ->
  agree (fun r => @validateSchema rt V1 s v r c)
        (fun r => @validateSchema rt' V2 s v r c).
Proof.
  intros Hl r1 r2 Hr. unfold validateSchema. cbv zeta.
  apply sameReport_incrementScore.
  apply validateDependencies_agree;
    [intros d Hd; apply Hl; unfold children; rewrite !in_app_iff; tauto |].
  apply validateNot_agree;
    [intros d Hd; apply Hl; unfold children; rewrite !in_app_iff; tauto |].
  apply validateAllOf_agree;
    [intros d Hd; apply Hl; unfold children; rewrite !in_app_iff; tauto |].
  apply validateOneOf_agree;
    [intros d Hd; apply Hl; unfold children; rewrite !in_app_iff; tauto |].
  apply validateAnyOf_agree;
    [intros d Hd; apply Hl; unfold children; rewrite !in_app_iff; tauto |].
  exact Hr.
Qed.

Lemma items_loop_agree
    (schemaAt1 schemaAt2 : nat -> Value -> jsonContext.t -> Result)
    value c (l : list nat) :
  (forall i v c, sameReport (schemaAt1 i v c) (schemaAt2 i v c)) ->
  agree (fun r => fold_left (validateItemAt schemaAt1 value c) l r)
        (fun r => fold_left (validateItemAt schemaAt2 value c) l r).
Proof.
  intros H. apply agree_fold_left. intros i _ r1 r2 Hr.
  unfold validateItemAt. apply sameReport_mergeErrors; [exact Hr | apply H].
Qed.

Lemma nth_items_agree (items : list subSchema) :
  (forall a, In a items -> agreeOn a) ->
  forall i v c,
    sameReport
      (nth i (map (subValidateWithContext V1) items) (fun _ _ => newResult)
         v c)
      (nth i (map (subValidateWithContext V2) items) (fun _ _ => newResult)
         v c).
Proof.
  induction items as [|a items IH]; intros Hl i v c.
  - destruct i; apply sameReport_refl.
  - destruct i as [|i]; simpl.
    + apply agreeOn_subValidateWithContext, Hl. now left.
    + apply IH. intros a' Ha'. apply Hl. now right.
Qed.

Lemma validateItems_agree s value c :
  (forall d, In d (children s) -> agreeOn d) ->
  agree (fun r => validateItems V1 s value r c)
        (fun r => validateItems V2 s value r c).
Proof.
  intros Hl.
  assert (Hitems : forall a, In a (itemsChildren s) -> agreeOn a).
  { intros a Ha. apply Hl. unfold children. rewrite !in_app_iff. tauto. }
  intros r1 r2 Hr. unfold validateItems.
  destruct (itemsChildrenIsSingleSchema s).
  - destruct (itemsChildren s) as [|item0 rest]; [exact Hr |].
    revert r1 r2 Hr. apply items_loop_agree. intros i v c'.
    apply agreeOn_subValidateWithContext, Hitems. now left.
  - destruct (0 <? _)%nat; [| exact Hr]. cbv zeta.
    destruct (_ =? _)%nat.
    + revert r1 r2 Hr. apply items_loop_agree.
      now apply nth_items_agree.
    + destruct (_ <? _)%nat; [| exact Hr].
      destruct (additionalItems s) as [[b | a]|] eqn:E; [| | exact Hr].
      * destruct (negb b); agree_chain.
      * revert r1 r2 Hr. apply items_loop_agree. intros i v c'.
        apply agreeOn_subValidateWithContext, Hl.
        unfold children. rewrite E, !in_app_iff. cbn. tauto.
Qed.

Lemma uniqueItems_loop_agree value c l seen :
  agree (fun r => fst (fold_left (@uniqueItemsStep rt value c) l (r, seen)))
        (fun r => fst (fold_left (@uniqueItemsStep rt' value c) l (r, seen))).
Proof.
  change (agree
            (fun r => fst (fold_left (@uniqueItemsStep rt value c) l
                             (r, seen)))
            (fun r => fst (fold_left (@uniqueItemsStep rt value c) l
                             (r, seen)))).
  apply agree_additive, uniqueItems_loop_additive.
Qed.

Lemma validateArray_agree s value c :
  (forall d, In d (children s) -> agreeOn d) ->
  agree (fun r => @validateArray rt V1 s value r c)
        (fun r => @validateArray rt' V2 s value r c).
Proof.
  intros Hl r1 r2 Hr.
  pose proof (validateItems_agree s value c Hl r1 r2 Hr) as Hitems.
  cbv beta in Hitems. unfold validateArray. cbv zeta.
  destruct (isTrue (uniqueItems s));
    [apply sameReport_incrementScore, uniqueItems_loop_agree
    | apply sameReport_incrementScore];
    destruct (minItems s) as [mn|]; destruct (maxItems s) as [mx|];
    repeat match goal with
           | |- context [if ?b then _ else _] => destruct b
           end;
    agree_chain.
Qed.

Lemma existsb_ext_in {A : Type} (f g : A -> bool) (l : list A) :
  (forall a, In a l -> f a = g a) -> existsb f l = existsb g l.
Proof.
  induction l as [|a l IH]; intros H; simpl; [reflexivity |].
  rewrite (H a) by now left. rewrite IH; [reflexivity |].
  intros a' Ha'. apply H. now right.
Qed.

Lemma fold_left_patternPropertyStep_mergeAll key value c
    (l : list (string * (Value -> jsonContext.t -> Result))) r h vk :
  fst (fst (fold_left (@patternPropertyStep rt key value c) l (r, h, vk)))
  = mergeErrors r (mergeAll (map (@patternContribution rt key value c) l)).
Proof.
  revert r h vk. induction l as [|[pk pv] l IH]; intros r h vk; simpl.
  - now rewrite mergeErrors_newResult_r.
  - unfold patternContribution at 1. cbn [fst snd].
    destruct (regexpMatchString pk key).
    + now rewrite IH, mergeErrors_assoc.
    + now rewrite IH, mergeErrors_newResult_l.
Qed.

(** The merged pattern results of a key do not depend, up to order, on how
    [patternProperties] is ranged. *)
Lemma patternContributions_agree s key value c :
  (forall d, In d (map snd (patternProperties s)) -> agreeOn d) ->
  sameReport
    (mergeAll
       (map (@patternContribution rt key value c)
          (@rangeMap rt _
             (map (fun kv => (fst kv, subValidateWithContext V1 (snd kv)))
                (patternProperties s)))))
    (mergeAll
       (map (@patternContribution rt key value c)
          (@rangeMap rt' _
             (map (fun kv => (fst kv, subValidateWithContext V2 (snd kv)))
                (patternProperties s))))).
Proof.
  intros Hl.
  eapply sameReport_trans;
    [apply sameReport_mergeAll_Permutation, Permutation_map,
       rangeMap_Permutation |].
  eapply sameReport_trans;
    [| apply sameReport_mergeAll_Permutation, Permutation_map,
         Permutation_sym, (@rangeMap_Permutation rt')].
  apply sameReport_mergeAll_Forall2.
  induction (patternProperties s) as [|[pk pv] l IH]; simpl.
  - constructor.
  - constructor.
    + unfold patternContribution. cbn [fst snd].
      destruct (regexpMatchString pk key); [| apply sameReport_refl].
      apply agreeOn_subValidateWithContext, Hl. now left.
    + apply IH. intros d Hd. apply Hl. now right.
Qed.

Lemma validatePatternProperty_agree s key value c r1 r2 :
  (forall d, In d (map snd (patternProperties s)) -> agreeOn d) ->
  sameReport r1 r2 ->
  sameReport (fst (@validatePatternProperty rt V1 s key value r1 c))
             (fst (@validatePatternProperty rt' V2 s key value r2 c))
  /\ snd (@validatePatternProperty rt V1 s key value r1 c)
     = snd (@validatePatternProperty rt' V2 s key value r2 c).
Proof.
  intros Hl Hr.
  destruct (@validatePatternProperty_frame rt V1 s key value c r1)
    as [Hf1 Hs1].
  destruct (@validatePatternProperty_frame rt' V2 s key value c r2)
    as [Hf2 Hs2].
  rewrite Hf1, Hf2, Hs1, Hs2. clear Hf1 Hf2 Hs1 Hs2.
  assert (Hflags :
            snd (@validatePatternProperty rt V1 s key value newResult c)
            = snd (@validatePatternProperty rt' V2 s key value newResult c)).
  { rewrite (proj2 (@validatePatternProperty_spec rt s key value newResult
                      c)).
    rewrite (proj2 (@validatePatternProperty_spec rt' s key value newResult
                      c)).
    f_equal. unfold patternValidated. apply existsb_ext_in.
    intros [pk pv] Hin. cbn [fst snd]. f_equal.
    apply sameReport_Valid, agreeOn_subValidateWithContext, Hl.
    apply in_map_iff. now exists (pk, pv). }
  split; [| exact Hflags].
  apply sameReport_mergeErrors; [exact Hr |].
  revert Hflags. unfold validatePatternProperty.
  pose proof (patternContributions_agree s key value c Hl) as Hc.
  pose proof (fold_left_patternPropertyStep_mergeAll key value c
                (@rangeMap rt _
                   (map (fun kv =>
                           (fst kv, subValidateWithContext V1 (snd kv)))
                      (patternProperties s))) newResult false false) as E1.
  pose proof (fold_left_patternPropertyStep_mergeAll key value c
                (@rangeMap rt' _
                   (map (fun kv =>
                           (fst kv, subValidateWithContext V2 (snd kv)))
                      (patternProperties s))) newResult false false) as E2.
  change (@patternPropertyStep rt' key value c)
    with (@patternPropertyStep rt key value c).
  destruct (fold_left (@patternPropertyStep rt key value c)
              (@rangeMap rt _ _) _) as [[res1 h1] vk1].
  destruct (fold_left (@patternPropertyStep rt key value c)
              (@rangeMap rt' _ _) _) as [[res2 h2] vk2].
  cbn [fst snd] in E1, E2. rewrite mergeErrors_newResult_l in E1, E2.
  subst res1 res2.
  destruct vk1, vk2; cbn [negb fst snd]; intros [= ?];
    try discriminate; agree_chain.
Qed.

(** The rounds of the object loops. *)
Ltac object_round_agree s value c pk Hpat r1 r2 Hr :=
  destruct (validatePatternProperty_agree s pk (valueAt value pk) c r1 r2
              Hpat Hr) as [Hf Hs];
  destruct (@validatePatternProperty rt V1 s pk (valueAt value pk) r1 c)
    as [res1 [has1 matched1]];
  destruct (@validatePatternProperty rt' V2 s pk (valueAt value pk) r2 c)
    as [res2 [has2 matched2]];
  cbn [fst snd] in Hf, Hs; injection Hs as -> ->.

Lemma additionalPropertiesFalseStep_agree s value c pk :
  (forall d, In d (map snd (patternProperties s)) -> agreeOn d) ->
  agree (fun r => @additionalPropertiesFalseStep rt V1 s value c r pk)
        (fun r => @additionalPropertiesFalseStep rt' V2 s value c r pk).
Proof.
  intros Hpat r1 r2 Hr. unfold additionalPropertiesFalseStep.
  object_round_agree s value c pk Hpat r1 r2 Hr.
  destruct (propertyFound s pk); destruct has2, matched2; cbn; agree_chain.
Qed.

Lemma additionalPropertiesSchemaStep_agree s a value c pk :
  (forall d, In d (map snd (patternProperties s)) -> agreeOn d) ->
  agreeOn a ->
  agree (fun r =>
           @additionalPropertiesSchemaStep rt V1 s
             (subValidateWithContext V1 a) value c r pk)
        (fun r =>
           @additionalPropertiesSchemaStep rt' V2 s
             (subValidateWithContext V2 a) value c r pk).
Proof.
  intros Hpat Ha r1 r2 Hr. unfold additionalPropertiesSchemaStep.
  object_round_agree s value c pk Hpat r1 r2 Hr.
  pose proof (agreeOn_subValidateWithContext a (valueAt value pk) c Ha).
  destruct (propertyFound s pk); destruct has2, matched2; cbn; agree_chain.
Qed.

Lemma patternPropertiesOnlyStep_agree s value c pk :
  (forall d, In d (map snd (patternProperties s)) -> agreeOn d) ->
  agree (fun r => @patternPropertiesOnlyStep rt V1 s value c r pk)
        (fun r => @patternPropertiesOnlyStep rt' V2 s value c r pk).
Proof.
  intros Hpat r1 r2 Hr. unfold patternPropertiesOnlyStep.
  object_round_agree s value c pk Hpat r1 r2 Hr.
  destruct has2, matched2; cbn; agree_chain.
Qed.

Lemma required_loop_agree value c l :
  agree (fun r => fold_left (@requiredStep rt value c) l r)
        (fun r => fold_left (@requiredStep rt' value c) l r).
Proof.
  change (agree (fun r => fold_left (@requiredStep rt value c) l r)
                (fun r => fold_left (@requiredStep rt value c) l r)).
  apply agree_additive, additive_fold_left.
  intros k _. apply requiredStep_additive.
Qed.

Lemma validateObject_agree s value c :
  (forall d, In d (children s) -> agreeOn d) ->
  agree (fun r => @validateObject rt V1 s value r c)
        (fun r => @validateObject rt' V2 s value r c).
Proof.
  intros Hl.
  assert (Hpat : forall d, In d (map snd (patternProperties s)) ->
                           agreeOn d).
  { intros d Hd. apply Hl. unfold children. rewrite !in_app_iff. tauto. }
  intros r1 r2 Hr. unfold validateObject. cbv zeta.
  apply sameReport_incrementScore.
  (* the size and [required] checks, the same on both sides *)
  set (h1 := fold_left (@requiredStep rt value c) (required s) _).
  set (h2 := fold_left (@requiredStep rt' value c) (required s) _).
  assert (Hh : sameReport h1 h2).
  { subst h1 h2. apply required_loop_agree.
    destruct (maxProperties s), (minProperties s);
      repeat match goal with
             | |- context [if ?b then _ else _] => destruct b
             end; agree_chain. }
  clearbody h1 h2. clear r1 r2 Hr. rename h1 into r1, h2 into r2, Hh into Hr.
  destruct (additionalProperties s) as [[b | a]|] eqn:E;
    [destruct (negb b); [| exact Hr] | |];
    revert r1 r2 Hr; apply agree_fold_left_Permutation;
    try apply Permutation_keys; intros k.
  - apply additionalPropertiesFalseStep_additive.
  - apply additionalPropertiesFalseStep_additive.
  - now apply additionalPropertiesFalseStep_agree.
  - apply additionalPropertiesSchemaStep_additive.
  - apply additionalPropertiesSchemaStep_additive.
  - apply additionalPropertiesSchemaStep_agree; [exact Hpat |].
    apply Hl. unfold children. rewrite E, !in_app_iff. cbn. tauto.
  - apply patternPropertiesOnlyStep_additive.
  - apply patternPropertiesOnlyStep_additive.
  - now apply patternPropertiesOnlyStep_agree.
Qed.

Lemma propertyStep_agree m c p :
  agreeOn p ->
  agree (fun r => propertyStep V1 m c r p) (fun r => propertyStep V2 m c r p).
Proof.
  intros Hp r1 r2 Hr. unfold propertyStep.
  destruct (lookup (property p) m); [now apply Hp | exact Hr].
Qed.

Lemma validateNode_agree s v c :
  (forall d, In d (children s) -> agreeOn d) ->
  agree (fun r => @validateNode rt V1 s v r c)
        (fun r => @validateNode rt' V2 s v r c).
Proof.
  intros Hl r1 r2 Hr. unfold validateNode, typeError.
  destruct v as [| l | m | b | str | f | k].
  - destruct (typeMismatch s TYPE_NULL); [agree_chain |].
    apply sameReport_incrementScore, validateCommon_agree,
      validateSchema_agree; assumption.
  - destruct (typeMismatch s TYPE_ARRAY); [agree_chain |].
    apply sameReport_incrementScore, validateCommon_agree.
    apply validateArray_agree; [assumption |].
    apply validateSchema_agree; assumption.
  - destruct (typeMismatch s TYPE_OBJECT); [agree_chain |].
    apply sameReport_incrementScore.
    apply (agree_fold_left (propertyStep V1 m c) (propertyStep V2 m c)).
    { intros p Hp. apply propertyStep_agree, Hl.
      unfold children. rewrite !in_app_iff. tauto. }
    apply validateCommon_agree.
    apply validateObject_agree; [assumption |].
    apply validateSchema_agree; assumption.
  - destruct (typeMismatch s TYPE_BOOLEAN); [agree_chain |].
    apply sameReport_incrementScore, validateString_agree,
      validateCommon_agree, validateNumber_agree, validateSchema_agree;
      assumption.
  - destruct (typeMismatch s TYPE_STRING); [agree_chain |].
    apply sameReport_incrementScore, validateString_agree,
      validateCommon_agree, validateNumber_agree, validateSchema_agree;
      assumption.
  - cbv zeta.
    change (@isFloat64AnInteger rt' f) with (@isFloat64AnInteger rt f).
    destruct (_ && _); [agree_chain |].
    apply sameReport_incrementScore, validateString_agree,
      validateCommon_agree, validateNumber_agree, validateSchema_agree;
      assumption.
  - now apply sameReport_incrementScore.
Qed.

(** The two walkers agree on every schema. *)
Lemma validateRecursive_agree (s : subSchema) : agreeOn s.
Proof.
  induction s as [s IH] using subSchema_children_ind.
  intros v c r1 r2 Hr. cbv beta.
  rewrite (@validateRecursive_eq rt), (@validateRecursive_eq rt').
  destruct (refSchema s) as [ref|] eqn:E.
  - apply IH; [| exact Hr]. unfold children. rewrite E. now left.
  - now apply validateNode_agree.
Qed.

End Determinism.

(** ** One order per map *)

(** In the first embedding, where a run has one order for each map: two
    runs on the same schema and document that range their maps in
    different orders record the same errors up to order, with the same
    score, hence the same validity. *)
Lemma one_order_per_map_same_errors :
  forall (rt : Runtime)
         (range' : forall A : Type, list (string * A) -> list (string * A))
         (perm' : forall (A : Type) (m : list (string * A)),
             Permutation (range' A m) m)
         (v : Schema) (root : Value),
    let context := newJsonContext STRING_CONTEXT_ROOT None in
    let r1 := @validateRecursive rt (rootSchema v) root newResult context in
    let r2 :=
      @validateRecursive (reordered rt range' perm') (rootSchema v) root
        newResult context in
    @Validate rt v (inl root) = inl r1
    /\ @Validate (reordered rt range' perm') v (inl root) = inl r2
    /\ Permutation (map core (errors r1)) (map core (errors r2))
    /\ score r1 = score r2
    /\ Valid r1 = Valid r2.
Proof.
  intros rt range' perm' v root context r1 r2.
  assert (H : sameReport r1 r2).
  { apply (validateRecursive_agree range' perm' (rootSchema v) root context),
      sameReport_refl. }
  split; [reflexivity |]. split; [reflexivity |].
  split; [apply H |]. split; [apply H |].
  now apply sameReport_Valid.
Qed.

Lemma getBestResult_In (results : ResultsByScore) (r : Result) :
  getBestResult results = Some r -> In r results.
Proof.
  unfold getBestResult. destruct (1 <? _)%nat; [| discriminate].
  intros H. eapply Permutation_in; [apply Sort_Permutation |].
  destruct (Sort results) as [|r0 [|r1 rest]]; simpl in H; try discriminate.
  destruct (negb _); [| discriminate]. injection H as <-. now left.
Qed.

(** ** Where errors are, what they carry, and the score *)

Lemma atOrBelow_refl c : atOrBelow c c.
Proof. now exists []. Qed.

Lemma atOrBelow_child c k : atOrBelow c (newJsonContext k (Some c)).
Proof. now exists [k]. Qed.

Lemma atOrBelow_trans c c' c'' :
  atOrBelow c c' -> atOrBelow c' c'' -> atOrBelow c c''.
Proof.
  intros [s1 ->] [s2 ->]. exists (s1 ++ s2). unfold descend.
  now rewrite fold_left_app.
Qed.

Lemma contribution_newResult c : contribution c newResult.
Proof. split; [constructor | unfold balance;
    cbn [score errors newResult onePoint oneError List.length]; lia]. Qed.

Lemma contribution_onePoint c : contribution c onePoint.
Proof. split; [constructor | unfold balance;
    cbn [score errors newResult onePoint oneError List.length]; lia]. Qed.

Lemma contribution_oneError c c' a q x d :
  atOrBelow c c' -> In a keywords -> contribution c (oneError c' a q x d).
Proof.
  intros Hc Ha. split; [| unfold balance;
    cbn [score errors newResult onePoint oneError List.length]; lia].
  constructor; [| constructor].
  now split.
Qed.

Lemma balance_mergeErrors a b :
  balance (mergeErrors a b) = balance a + balance b.
Proof.
  unfold balance, mergeErrors, Errors. cbn [score errors].
  rewrite length_app. lia.
Qed.

Lemma contribution_mergeErrors c a b :
  contribution c a -> contribution c b -> contribution c (mergeErrors a b).
Proof.
  intros [Ha1 Ha2] [Hb1 Hb2]. split.
  - cbn. apply Forall_app. now split.
  - rewrite balance_mergeErrors. lia.
Qed.

Lemma contribution_up c c' d :
  atOrBelow c c' -> contribution c' d -> contribution c d.
Proof.
  intros Hc [H1 H2]. split; [| exact H2].
  eapply Forall_impl; [| exact H1]. cbn. intros e [He Ha].
  split; [| exact Ha]. eapply atOrBelow_trans; eassumption.
Qed.

Lemma adds_refl c r : adds c r r.
Proof.
  exists newResult. split; [now rewrite mergeErrors_newResult_r |].
  apply contribution_newResult.
Qed.

Lemma adds_trans c r1 r2 r3 : adds c r1 r2 -> adds c r2 r3 -> adds c r1 r3.
Proof.
  intros (d1 & -> & H1) (d2 & -> & H2). exists (mergeErrors d1 d2).
  split; [apply mergeErrors_assoc | now apply contribution_mergeErrors].
Qed.

Lemma adds_mergeErrors c r0 r d :
  adds c r0 r -> contribution c d -> adds c r0 (mergeErrors r d).
Proof.
  intros H Hd. eapply adds_trans; [exact H |]. now exists d.
Qed.

Lemma adds_incrementScore c r0 r :
  adds c r0 r -> adds c r0 (incrementScore r).
Proof.
  intros H. rewrite incrementScore_onePoint.
  apply adds_mergeErrors; [exact H | apply contribution_onePoint].
Qed.

Lemma adds_addError c r0 r c' a q x d :
  adds c r0 r -> atOrBelow c c' -> In a keywords ->
  adds c r0 (addError r c' a q x d).
Proof.
  intros H Hc Ha. rewrite addError_oneError.
  apply adds_mergeErrors; [exact H | now apply contribution_oneError].
Qed.

Lemma adds_up c c' r0 r : atOrBelow c c' -> adds c' r0 r -> adds c r0 r.
Proof.
  intros Hc (d & -> & Hd). exists d. split; [reflexivity |].
  eapply contribution_up; eassumption.
Qed.

Lemma adds_fresh c d : adds c newResult d -> contribution c d.
Proof. intros (d' & -> & H). now rewrite mergeErrors_newResult_l. Qed.

Lemma adds_fold_left {K : Type} c (step : Result -> K -> Result)
    (l : list K) r0 r :
  (forall k r, In k l -> adds c r (step r k)) ->
  adds c r0 r -> adds c r0 (fold_left step l r).
Proof.
  revert r. induction l as [|k l IH]; intros r Hstep Hr; simpl.
  - exact Hr.
  - apply IH.
    + intros k' r' Hk'. apply Hstep. now right.
    + eapply adds_trans; [exact Hr | apply Hstep; now left].
Qed.

Lemma addsNode_adds c r0 r : addsNode c r0 r -> adds c r0 r.
Proof. intros (d & E & H & _). now exists d. Qed.

Lemma gains_adds c r0 r : gains c r0 r -> adds c r0 r.
Proof. intros (d & E & H & _). now exists d. Qed.

Lemma gains_incrementScore c r0 r :
  adds c r0 r -> gains c r0 (incrementScore r).
Proof.
  intros (d & -> & Hd). exists (mergeErrors d onePoint).
  split; [now rewrite incrementScore_onePoint, mergeErrors_assoc |].
  split; [apply contribution_mergeErrors;
          [exact Hd | apply contribution_onePoint] |].
  rewrite balance_mergeErrors. destruct Hd as [_ Hb].
  unfold balance at 2. cbn [score errors onePoint List.length]. lia.
Qed.

Lemma gains_addsNode c r0 r : gains c r0 r -> addsNode c r0 r.
Proof. intros (d & E & H & Hb). exists d. auto. Qed.

Ltac in_keywords :=
  unfold keywords; cbn [In]; repeat (first [left; reflexivity | right]).

Ltac located :=
  first [apply atOrBelow_refl | apply atOrBelow_child].

Ltac adds_chain :=
  cbv beta zeta;
  lazymatch goal with
  | |- adds _ ?r ?r => apply adds_refl
  | |- adds _ _ (incrementScore _) =>
      apply adds_incrementScore; adds_chain
  | |- adds _ _ (addError _ _ _ _ _ _) =>
      apply adds_addError; [adds_chain | located | in_keywords]
  | |- adds _ _ (mergeErrors _ _) =>
      apply adds_mergeErrors; [adds_chain | try eassumption]
  | |- adds _ _ _ => try eassumption
  end.

Ltac split_all :=
  repeat match goal with
         | |- context [match ?x with Some _ => _ | None => _ end] =>
             destruct x
         | |- context [if ?b then _ else _] => destruct b
         end.

Section Located.

Context {rt : Runtime}.

Variable rec : subSchema -> Value -> Result -> jsonContext.t -> Result.

Lemma validateString_adds s v c r : adds c r (validateString s v r c).
Proof.
  unfold validateString. destruct v; cbn [isKind kindOf reflect.eqb negb];
    try apply adds_refl.
  split_all; adds_chain.
Qed.

Lemma validateNumber_adds s v c r : adds c r (validateNumber s v r c).
Proof.
  unfold validateNumber, isTrue.
  destruct v; cbn [isKind kindOf reflect.eqb negb]; try apply adds_refl.
  split_all; adds_chain.
Qed.

Lemma validateCommon_gains s v c r : gains c r (validateCommon s v r c).
Proof.
  unfold validateCommon, ContainsEnum.
  destruct (marshalToJsonString v) as [str [e|]]; split_all;
    apply gains_incrementScore; adds_chain.
Qed.

Lemma validateCommon_adds s v c r : adds c r (validateCommon s v r c).
Proof. apply gains_adds, validateCommon_gains. Qed.

Lemma yields_fresh d v c :
  (yields rec) d -> contribution c (subValidateWithContext rec d v c).
Proof. intros H. apply adds_fresh, H. Qed.

Lemma anyOf_loop_contributions v c (l : list subSchema) st :
  Forall (yields rec) l ->
  Forall (contribution c) (snd st) ->
  Forall (contribution c) (snd (fold_left (anyOfStep rec v c) l st)).
Proof.
  intros Hl. revert st. induction Hl as [|a l Ha _ IH]; intros [b rs] Hrs.
  - exact Hrs.
  - cbn [fold_left]. apply IH. unfold anyOfStep.
    destruct (negb b); [| exact Hrs]. cbn [snd] in *.
    apply Forall_app. split; [exact Hrs |].
    constructor; [now apply yields_fresh | constructor].
Qed.

Lemma validateAnyOf_adds s v c r :
  Forall (yields rec) (anyOf s) -> adds c r (validateAnyOf rec s v r c).
Proof.
  intros Hl. unfold validateAnyOf.
  destruct (0 <? _)%nat; [| apply adds_refl].
  pose proof (anyOf_loop_contributions v c (anyOf s) (false, []) Hl
                (Forall_nil _)) as Hrs.
  destruct (fold_left (anyOfStep rec v c) (anyOf s) _)
    as [validated results].
  cbn [snd] in Hrs.
  destruct (negb validated); [| apply adds_refl].
  destruct (getBestResult results) as [best|] eqn:E; [| adds_chain].
  apply adds_mergeErrors; [apply adds_refl |].
  rewrite Forall_forall in Hrs. apply Hrs. now apply getBestResult_In.
Qed.

Lemma oneOf_loop_contributions v c (l : list subSchema) st :
  Forall (yields rec) l ->
  Forall (contribution c) (fst st) ->
  Forall (contribution c) (fst (fold_left (oneOfStep rec v c) l st)).
Proof.
  intros Hl. revert st. induction Hl as [|a l Ha _ IH]; intros [rs n] Hrs.
  - exact Hrs.
  - cbn [fold_left]. apply IH. unfold oneOfStep.
    destruct (Valid _); [exact Hrs |]. cbn [fst] in *.
    apply Forall_app. split; [exact Hrs |].
    constructor; [now apply yields_fresh | constructor].
Qed.

Lemma validateOneOf_adds s v c r :
  Forall (yields rec) (oneOf s) -> adds c r (validateOneOf rec s v r c).
Proof.
  intros Hl. unfold validateOneOf.
  destruct (0 <? _)%nat; [| apply adds_refl].
  pose proof (oneOf_loop_contributions v c (oneOf s) ([], 0) Hl
                (Forall_nil _)) as Hrs.
  destruct (fold_left (oneOfStep rec v c) (oneOf s) _) as [results nb].
  cbn [fst] in Hrs.
  destruct (negb _); [| apply adds_refl].
  destruct (if nb =? 0 then getBestResult results else None)
    as [best|] eqn:E; [| adds_chain].
  apply adds_mergeErrors; [apply adds_refl |].
  destruct (nb =? 0); [| discriminate].
  rewrite Forall_forall in Hrs. apply Hrs. now apply getBestResult_In.
Qed.

Lemma allOf_loop_adds v c (l : list subSchema) r0 st :
  Forall (yields rec) l ->
  adds c r0 (fst st) ->
  adds c r0 (fst (fold_left (allOfStep rec v c) l st)).
Proof.
  intros Hl. revert st. induction Hl as [|a l Ha _ IH]; intros [r n] Hr.
  - exact Hr.
  - cbn [fold_left]. apply IH. unfold allOfStep. cbn [fst] in *.
    apply adds_mergeErrors; [exact Hr | now apply yields_fresh].
Qed.

Lemma validateAllOf_adds s v c r :
  Forall (yields rec) (allOf s) -> adds c r (validateAllOf rec s v r c).
Proof.
  intros Hl. unfold validateAllOf.
  destruct (0 <? _)%nat; [| apply adds_refl].
  pose proof (allOf_loop_adds v c (allOf s) r (r, 0) Hl (adds_refl c r))
    as Hloop.
  destruct (fold_left (allOfStep rec v c) (allOf s) _) as [res nb].
  cbn [fst] in Hloop.
  destruct (negb _); [| exact Hloop].
  apply adds_addError; [exact Hloop | located | in_keywords].
Qed.

Lemma validateNot_adds s v c r : adds c r (validateNot rec s v r c).
Proof. unfold validateNot. split_all; adds_chain. Qed.

Lemma dependencyStep_adds s m v c k r :
  Forall (yields rec)
    (flat_map (fun kv => dependencySchema (snd kv)) (dependencies s)) ->
  adds c r
    (dependencyStep m v c
       (map (fun kv =>
               (fst kv,
                match snd kv with
                | inl names => inl names
                | inr dependency => inr (rec dependency)
                end)) (dependencies s)) r k).
Proof.
  intros Hrec. unfold dependencyStep.
  pose proof (lookup_dependencies rec s k) as Hk.
  destruct (lookup k _) as [[names | f]|]; [| | apply adds_refl].
  - apply adds_fold_left; [| apply adds_refl]. intros name r' _.
    destruct (lookup name m); adds_chain.
  - destruct Hk as (d & -> & Hd). rewrite Forall_forall in Hrec.
    now apply Hrec.
Qed.

Lemma validateDependencies_adds s v c r :
  Forall (yields rec)
    (flat_map (fun kv => dependencySchema (snd kv)) (dependencies s)) ->
  adds c r (validateDependencies rec s v r c).
Proof.
  intros Hrec. unfold validateDependencies.
  destruct (0 <? _)%nat; [| apply adds_refl].
  destruct (isKind v reflect.Map); [| apply adds_refl].
  destruct v; try apply adds_refl.
  apply adds_fold_left; [| apply adds_refl]. intros k r' _.
  now apply dependencyStep_adds.
Qed.

Lemma validateSchema_gains s v c r :
  Forall (yields rec) (children s) -> gains c r (validateSchema rec s v r c).
Proof.
  intros Hrec. unfold children in Hrec.
  repeat (apply Forall_app in Hrec; destruct Hrec as [? Hrec]).
  unfold validateSchema. cbv zeta.
  apply gains_incrementScore.
  eapply adds_trans; [| now apply validateDependencies_adds].
  eapply adds_trans; [| apply validateNot_adds].
  eapply adds_trans; [| now apply validateAllOf_adds].
  eapply adds_trans; [| now apply validateOneOf_adds].
  now apply validateAnyOf_adds.
Qed.

Lemma validateSchema_adds s v c r :
  Forall (yields rec) (children s) -> adds c r (validateSchema rec s v r c).
Proof. intros H. now apply gains_adds, validateSchema_gains. Qed.

Lemma items_loop_adds
    (schemaAt : nat -> Value -> jsonContext.t -> Result)
    (value : list Value) c l r :
  (forall i x c', contribution c' (schemaAt i x c')) ->
  adds c r (fold_left (validateItemAt schemaAt value c) l r).
Proof.
  intros H. apply adds_fold_left; [| apply adds_refl].
  intros i r' _. unfold validateItemAt.
  apply adds_mergeErrors; [apply adds_refl |].
  eapply contribution_up; [apply atOrBelow_child | apply H].
Qed.

Lemma validateItems_adds s value c r :
  Forall (yields rec) (itemsChildren s) ->
  Forall (yields rec) (boolOrSchema (additionalItems s)) ->
  adds c r (validateItems rec s value r c).
Proof.
  intros Hitems Hadd. unfold validateItems.
  destruct (itemsChildrenIsSingleSchema s).
  - destruct (itemsChildren s) as [|item0 rest]; [apply adds_refl |].
    apply items_loop_adds. intros i x c'. apply yields_fresh.
    now inversion Hitems.
  - destruct (0 <? _)%nat; [| apply adds_refl]. cbv zeta.
    destruct (_ =? _)%nat.
    + apply items_loop_adds. intros i x c'.
      destruct (nth_in_or_default i
                  (map (subValidateWithContext rec) (itemsChildren s))
                  (fun _ _ => newResult)) as [Hin | ->].
      * apply in_map_iff in Hin. destruct Hin as (d & <- & Hd).
        apply yields_fresh. rewrite Forall_forall in Hitems.
        now apply Hitems.
      * apply contribution_newResult.
    + destruct (_ <? _)%nat; [| apply adds_refl].
      destruct (additionalItems s) as [[b | a]|]; [| | apply adds_refl].
      * destruct (negb b); adds_chain.
      * apply items_loop_adds. intros i x c'. apply yields_fresh.
        now inversion Hadd.
Qed.

Lemma uniqueItems_loop_adds value c l r0 st :
  adds c r0 (fst st) ->
  adds c r0 (fst (fold_left (uniqueItemsStep value c) l st)).
Proof.
  revert st. induction l as [|v l IH]; intros [r seen] Hr.
  - exact Hr.
  - cbn [fold_left]. apply IH. unfold uniqueItemsStep. cbn [fst] in Hr.
    destruct (marshalToJsonString v) as [vString [e|]];
      destruct (isStringInSlice seen vString); cbn [fst];
      repeat (apply adds_addError; [| located | in_keywords]); exact Hr.
Qed.

Lemma validateArray_gains s value c r :
  Forall (yields rec) (itemsChildren s) ->
  Forall (yields rec) (boolOrSchema (additionalItems s)) ->
  gains c r (validateArray rec s value r c).
Proof.
  intros Hitems Hadd.
  pose proof (validateItems_adds s value c r Hitems Hadd) as H0.
  unfold validateArray. cbv zeta.
  set (r0 := validateItems rec s value r c) in *.
  apply gains_incrementScore.
  assert (H1 : adds c r
                 match minItems s with
                 | Some min =>
                     if Z.of_nat (List.length value) <? min then
                       addError r0 c KEY_MIN_ITEMS (ReqInt min)
                         (VSlice value)
                         (Sprintf invalidMinItemsErrorMessage [ArgInt min])
                     else r0
                 | None => r0
                 end).
  { split_all; adds_chain. }
  set (r1 := match minItems s with Some _ => _ | None => _ end) in *.
  assert (H2 : adds c r
                 match maxItems s with
                 | Some max =>
                     if max <? Z.of_nat (List.length value) then
                       addError r1 c KEY_MAX_ITEMS (ReqInt max)
                         (VSlice value)
                         (Sprintf invalidMaxItemsErrorMessage [ArgInt max])
                     else r1
                 | None => r1
                 end).
  { split_all; adds_chain. }
  destruct (isTrue (uniqueItems s)); [| exact H2].
  now apply uniqueItems_loop_adds.
Qed.

Lemma validateArray_adds s value c r :
  Forall (yields rec) (itemsChildren s) ->
  Forall (yields rec) (boolOrSchema (additionalItems s)) ->
  adds c r (validateArray rec s value r c).
Proof. intros H1 H2. now apply gains_adds, validateArray_gains. Qed.

Lemma patternProperty_loop_adds key value c
    (l : list (string * (Value -> jsonContext.t -> Result))) r0 st :
  (forall e, In e l -> forall x c', contribution c' (snd e x c')) ->
  adds c r0 (fst (fst st)) ->
  adds c r0 (fst (fst (fold_left (patternPropertyStep key value c) l st))).
Proof.
  revert st. induction l as [|[pk pv] l IH]; intros [[r h] vk] Hl Hr.
  - exact Hr.
  - cbn [fold_left]. apply IH.
    + intros e He. apply Hl. now right.
    + unfold patternPropertyStep. cbn [fst] in Hr.
      destruct (regexpMatchString pk key); cbn [fst]; [| exact Hr].
      apply adds_mergeErrors; [exact Hr |].
      eapply contribution_up; [apply atOrBelow_child |].
      apply (Hl (pk, pv)). now left.
Qed.

Lemma validatePatternProperty_adds s key value c r :
  Forall (yields rec) (map snd (patternProperties s)) ->
  adds c r (fst (validatePatternProperty rec s key value r c)).
Proof.
  intros Hl. unfold validatePatternProperty.
  set (l := rangeMap _ (map _ (patternProperties s))).
  pose proof (patternProperty_loop_adds key value c l r (r, false, false))
    as Hloop.
  destruct (fold_left (patternPropertyStep key value c) l
              (r, false, false)) as [[res h] vk].
  cbn [fst] in Hloop.
  assert (Hres : adds c r res).
  { apply Hloop; [| apply adds_refl].
    intros e He x c'. subst l.
    apply (Permutation_in _ (rangeMap_Permutation _ _)) in He.
    apply in_map_iff in He. destruct He as ([pk pv] & <- & Hin).
    cbn [snd fst]. apply yields_fresh. rewrite Forall_forall in Hl.
    apply Hl. apply in_map_iff. now exists (pk, pv). }
  destruct (negb vk); cbn [fst]; [exact Hres |].
  now apply adds_incrementScore.
Qed.

Ltac pattern_round s key value c r :=
  pose proof (validatePatternProperty_adds s key value c r) as Hpattern;
  destruct (validatePatternProperty rec s key value r c)
    as [res [has matched]];
  cbn [fst] in Hpattern.

Lemma additionalPropertiesFalseStep_adds s value c pk r :
  Forall (yields rec) (map snd (patternProperties s)) ->
  adds c r (additionalPropertiesFalseStep rec s value c r pk).
Proof.
  intros Hl. unfold additionalPropertiesFalseStep.
  pattern_round s pk (valueAt value pk) c r. specialize (Hpattern Hl).
  split_all; adds_chain.
Qed.

Lemma additionalPropertiesSchemaStep_adds s a value c pk r :
  Forall (yields rec) (map snd (patternProperties s)) ->
  (yields rec) a ->
  adds c r
    (additionalPropertiesSchemaStep rec s (subValidateWithContext rec a)
       value c r pk).
Proof.
  intros Hl Ha. unfold additionalPropertiesSchemaStep.
  pattern_round s pk (valueAt value pk) c r. specialize (Hpattern Hl).
  pose proof (yields_fresh a (valueAt value pk) c Ha) as Hfresh.
  split_all; adds_chain.
Qed.

Lemma patternPropertiesOnlyStep_adds s value c pk r :
  Forall (yields rec) (map snd (patternProperties s)) ->
  adds c r (patternPropertiesOnlyStep rec s value c r pk).
Proof.
  intros Hl. unfold patternPropertiesOnlyStep.
  pattern_round s pk (valueAt value pk) c r. specialize (Hpattern Hl).
  split_all; adds_chain.
Qed.

Lemma requiredStep_adds value c name r :
  adds c r (requiredStep value c r name).
Proof. unfold requiredStep. split_all; adds_chain. Qed.

Lemma validateObject_gains s value c r :
  Forall (yields rec) (map snd (patternProperties s)) ->
  Forall (yields rec) (boolOrSchema (additionalProperties s)) ->
  gains c r (validateObject rec s value r c).
Proof.
  intros Hl Hadd. unfold validateObject. cbv zeta.
  apply gains_incrementScore.
  assert (H1 : adds c r
                 match minProperties s with
                 | Some min =>
                     if Z.of_nat (List.length value) <? min then
                       addError r c KEY_MIN_PROPERTIES (ReqInt min)
                         (VMap value)
                         (Sprintf invalidMinProperties [ArgInt min])
                     else r
                 | None => r
                 end).
  { split_all; adds_chain. }
  set (r1 := match minProperties s with Some _ => _ | None => _ end) in *.
  assert (H2 : adds c r
                 match maxProperties s with
                 | Some max =>
                     if max <? Z.of_nat (List.length value) then
                       addError r1 c KEY_MAX_PROPERTIES (ReqInt max)
                         (VMap value)
                         (Sprintf invalidMaxProperties [ArgInt max])
                     else r1
                 | None => r1
                 end).
  { split_all; adds_chain. }
  set (r2 := match maxProperties s with Some _ => _ | None => _ end) in *.
  assert (H3 : adds c r
                 (fold_left (requiredStep value c) (required s) r2)).
  { apply adds_fold_left; [| exact H2].
    intros k r' _. apply requiredStep_adds. }
  set (r3 := fold_left (requiredStep value c) (required s) r2) in *.
  destruct (additionalProperties s) as [[b | a]|].
  - destruct (negb b); [| exact H3].
    apply adds_fold_left; [| exact H3].
    intros k r' _. now apply additionalPropertiesFalseStep_adds.
  - apply adds_fold_left; [| exact H3].
    intros k r' _. apply additionalPropertiesSchemaStep_adds;
      [exact Hl | now inversion Hadd].
  - apply adds_fold_left; [| exact H3].
    intros k r' _. now apply patternPropertiesOnlyStep_adds.
Qed.

Lemma validateObject_adds s value c r :
  Forall (yields rec) (map snd (patternProperties s)) ->
  Forall (yields rec) (boolOrSchema (additionalProperties s)) ->
  adds c r (validateObject rec s value r c).
Proof. intros H1 H2. now apply gains_adds, validateObject_gains. Qed.

Lemma propertyStep_adds m c p r :
  (yields rec) p -> adds c r (propertyStep rec m c r p).
Proof.
  intros H. unfold propertyStep.
  destruct (lookup (property p) m); [| apply adds_refl].
  eapply adds_up; [apply atOrBelow_child | apply H].
Qed.

Lemma addsNode_incrementScore c r0 r :
  adds c r0 r -> addsNode c r0 (incrementScore r).
Proof. intros H. now apply gains_addsNode, gains_incrementScore. Qed.

Lemma addsNode_typeError s v c r :
  addsNode c r (typeError s v r c).
Proof.
  unfold typeError. rewrite addError_oneError. eexists.
  split; [reflexivity |].
  split; [apply contribution_oneError; [located | in_keywords] |].
  right. eexists. repeat split.
Qed.

Lemma validateNode_addsNode s v c r :
  Forall (yields rec) (children s) -> addsNode c r (validateNode rec s v r c).
Proof.
  intros Hrec.
  pose proof (validateSchema_adds s v c r Hrec) as HS.
  assert (Hparts := Hrec). unfold children in Hparts.
  repeat (apply Forall_app in Hparts; destruct Hparts as [? Hparts]).
  unfold validateNode.
  destruct v as [| l | m | b | str | f | k].
  - destruct (typeMismatch s TYPE_NULL); [apply addsNode_typeError |].
    apply addsNode_incrementScore.
    eapply adds_trans; [exact HS | apply validateCommon_adds].
  - destruct (typeMismatch s TYPE_ARRAY); [apply addsNode_typeError |].
    apply addsNode_incrementScore.
    eapply adds_trans; [| apply validateCommon_adds].
    eapply adds_trans; [exact HS | now apply validateArray_adds].
  - destruct (typeMismatch s TYPE_OBJECT); [apply addsNode_typeError |].
    apply addsNode_incrementScore.
    apply adds_fold_left.
    + intros p r' Hp. apply propertyStep_adds.
      match goal with
      | H : Forall (yields rec) (propertiesChildren s) |- _ =>
          rewrite Forall_forall in H; now apply H
      end.
    + eapply adds_trans; [| apply validateCommon_adds].
      eapply adds_trans; [exact HS | now apply validateObject_adds].
  - destruct (typeMismatch s TYPE_BOOLEAN); [apply addsNode_typeError |].
    apply addsNode_incrementScore.
    eapply adds_trans; [| apply validateString_adds].
    eapply adds_trans; [| apply validateCommon_adds].
    eapply adds_trans; [exact HS | apply validateNumber_adds].
  - destruct (typeMismatch s TYPE_STRING); [apply addsNode_typeError |].
    apply addsNode_incrementScore.
    eapply adds_trans; [| apply validateString_adds].
    eapply adds_trans; [| apply validateCommon_adds].
    eapply adds_trans; [exact HS | apply validateNumber_adds].
  - cbv zeta. destruct (_ && _); [apply addsNode_typeError |].
    apply addsNode_incrementScore.
    eapply adds_trans; [| apply validateString_adds].
    eapply adds_trans; [| apply validateCommon_adds].
    eapply adds_trans; [exact HS | apply validateNumber_adds].
  - apply addsNode_incrementScore, adds_refl.
Qed.

End Located.

(** Every run of the walker on a node adds a contribution of its context,
    and at least one point when it adds no error. *)
Lemma validateRecursive_addsNode {rt : Runtime} (s : subSchema) :
  forall v c r, addsNode c r (validateRecursive s v r c).
Proof.
  induction s as [s IH] using subSchema_children_ind. intros v c r.
  rewrite validateRecursive_eq.
  destruct (refSchema s) as [ref|] eqn:E.
  - apply IH. unfold children. rewrite E. now left.
  - apply validateNode_addsNode. apply Forall_forall.
    intros d Hd v' c' r'. apply addsNode_adds. now apply IH.
Qed.

(** ** C8: the string form of a location *)


(** ** C7: the score *)

Lemma balance_addError r c a q x d : balance (addError r c a q x d) = balance r.
Proof.
  unfold balance. cbn [score errors addError]. rewrite length_app.
  cbn [List.length]. lia.
Qed.

Lemma balance_incrementScore r : balance (incrementScore r) = balance r + 1.
Proof. unfold balance. cbn [score errors incrementScore]. lia. Qed.

Lemma score_from_balance r out k :
  balance out = balance r + k ->
  score out = score r + k - 2 * added r out.
Proof. unfold balance, added. lia. Qed.

Lemma adds_score c r out :
  adds c r out -> score r - 2 * added r out <= score out.
Proof.
  intros (d & -> & _ & Hb).
  pose proof (balance_mergeErrors r d) as E.
  unfold balance, added in *. lia.
Qed.

Lemma gains_score c r out :
  gains c r out -> score r + 1 - 2 * added r out <= score out.
Proof.
  intros (d & -> & _ & Hb).
  pose proof (balance_mergeErrors r d) as E.
  unfold balance, added in *. lia.
Qed.

Lemma yields_validateRecursive {rt : Runtime} (l : list subSchema) :
  Forall (yields validateRecursive) l.
Proof.
  apply Forall_forall. intros d _ v c r.
  apply addsNode_adds, validateRecursive_addsNode.
Qed.

(** The [required] loop: a point per name that is present, an error per
    name that is absent. *)
Lemma balance_required_loop {rt : Runtime} object context
    (names : list string) r :
  balance (fold_left (requiredStep object context) names r)
  = balance r
    + Z.of_nat
        (List.length
           (filter (fun name =>
                      match lookup name object with
                      | Some _ => true
                      | None => false
                      end) names)).
Proof.
  revert r. induction names as [|name names IH]; intros r.
  - cbn. lia.
  - cbn [fold_left filter]. rewrite IH. unfold requiredStep.
    destruct (lookup name object).
    + rewrite balance_incrementScore. cbn [List.length]. lia.
    + rewrite balance_addError. lia.
Qed.

Lemma errors_required_loop {rt : Runtime} object context
    (names : list string) r :
  added r (fold_left (requiredStep object context) names r)
  = Z.of_nat
      (List.length
         (filter (fun name =>
                    match lookup name object with
                    | Some _ => false
                    | None => true
                    end) names)).
Proof.
  unfold added. revert r. induction names as [|name names IH]; intros r.
  - cbn. lia.
  - cbn [fold_left filter]. unfold requiredStep at 2.
    destruct (lookup name object).
    + specialize (IH (incrementScore r)).
      cbn [errors incrementScore] in IH. exact IH.
    + specialize (IH (addError r (newJsonContext name (Some context))
                        KEY_REQUIRED ReqNil EmptyProperty
                        (Message invalidRequiredErrorMessage))).
      rewrite errors_addError, length_app in IH. cbn [List.length] in *.
      lia.
Qed.

(** What [validatePatternProperty] leaves behind: the results of the
    matching patterns merged, and one point when one of them validated
    the key. *)
Lemma validatePatternProperty_points {rt : Runtime} s key value r c :
  let merged :=
    mergeErrors r
      (mergeAll
         (map (patternContribution key value c)
            (rangeMap _
               (map (fun kv =>
                       (fst kv,
                        subValidateWithContext validateRecursive (snd kv)))
                    (patternProperties s))))) in
  fst (validatePatternProperty validateRecursive s key value r c)
  = if patternValidated s key value c then incrementScore merged
    else merged.
Proof.
  cbv zeta.
  pose proof (proj2 (validatePatternProperty_spec s key value r c)) as Hs.
  cbv zeta in Hs. revert Hs. unfold validatePatternProperty.
  set (l := rangeMap _ (map _ (patternProperties s))).
  pose proof (fold_left_patternPropertyStep_mergeAll key value c l r false
                false) as E.
  destruct (fold_left (patternPropertyStep key value c) l (r, false, false))
    as [[res h] vk].
  cbn [fst snd] in E. subst res.
  destruct vk; cbn [negb fst snd]; intros [= _ <-]; reflexivity.
Qed.

(** An object against a schema without [patternProperties] and without an
    [additionalProperties] schema: nothing is merged, and the points are
    the closing one and one per required name that is present. *)
Lemma balance_validateObject_plain {rt : Runtime} s object r c :
  patternProperties s = [] ->
  (forall a, additionalProperties s <> Some (inr a)) ->
  balance (validateObject validateRecursive s object r c)
  = balance r + 1
    + Z.of_nat
        (List.length
           (filter (fun name =>
                      match lookup name object with
                      | Some _ => true
                      | None => false
                      end) (required s))).
Proof.
  intros Hpp Hadd. unfold validateObject. cbv zeta.
  rewrite balance_incrementScore.
  assert (Hloop : forall (step : Result -> string -> Result) keys r0,
            (forall r' k, balance (step r' k) = balance r') ->
            balance (fold_left step keys r0) = balance r0).
  { intros step keys. induction keys as [|k keys IH]; intros r0 H;
      [reflexivity |].
    cbn [fold_left]. rewrite IH by exact H. apply H. }
  assert (Hsize : forall r0 (b : bool) q x d a,
            balance (if b then addError r0 c a q x d else r0) = balance r0).
  { intros r0 [|] q x d a; rewrite ?balance_addError; reflexivity. }
  assert (Hsizes :
            forall r0 (o : option Z) (test : Z -> bool) a q x d,
              balance match o with
                      | Some n => if test n then addError r0 c a (q n) x (d n)
                                  else r0
                      | None => r0
                      end = balance r0).
  { intros r0 [n|] test a q x d; [apply Hsize | reflexivity]. }
  destruct (additionalProperties s) as [[[|] | a]|] eqn:Eadd; cbn [negb].
  - rewrite balance_required_loop.
    rewrite (Hsizes _ (maxProperties s) (fun max => max <? _) _
               (fun max => ReqInt max) _
               (fun max => Sprintf invalidMaxProperties [ArgInt max])).
    rewrite (Hsizes _ (minProperties s) (fun min => _ <? min) _
               (fun min => ReqInt min) _
               (fun min => Sprintf invalidMinProperties [ArgInt min])).
    lia.
  - rewrite Hloop.
    + rewrite balance_required_loop.
      rewrite (Hsizes _ (maxProperties s) (fun max => max <? _) _
                 (fun max => ReqInt max) _
                 (fun max => Sprintf invalidMaxProperties [ArgInt max])).
      rewrite (Hsizes _ (minProperties s) (fun min => _ <? min) _
                 (fun min => ReqInt min) _
                 (fun min => Sprintf invalidMinProperties [ArgInt min])).
      lia.
    + intros r' k. unfold additionalPropertiesFalseStep.
      rewrite validatePatternProperty_no_patterns by exact Hpp.
      cbn [andb orb negb].
      destruct (propertyFound s k); rewrite ?balance_addError; reflexivity.
  - now elim (Hadd a).
  - rewrite Hloop.
    + rewrite balance_required_loop.
      rewrite (Hsizes _ (maxProperties s) (fun max => max <? _) _
                 (fun max => ReqInt max) _
                 (fun max => Sprintf invalidMaxProperties [ArgInt max])).
      rewrite (Hsizes _ (minProperties s) (fun min => _ <? min) _
                 (fun min => ReqInt min) _
                 (fun min => Sprintf invalidMinProperties [ArgInt min])).
      lia.
    + intros r' k. unfold patternPropertiesOnlyStep.
      rewrite validatePatternProperty_no_patterns by exact Hpp.
      reflexivity.
Qed.

(** C7 (as the code has it).  [incrementScore] adds exactly 1 to the score
    and records nothing; [addError] records one error and takes exactly 2
    off the score, a net -1 with a closing point; [mergeErrors] adds the
    merged result's score.  Points do not go with the assertions that
    pass: [validateString] on a string, [validateNumber] on a number and
    [validateCommon] earn one point on completion whatever the number of
    checks that pass, so they move the score by exactly [1 - 2e] when they
    record [e] errors.  The [required] loop of [validateObject] does earn
    one point per name that is present, and [validatePatternProperty] one
    point when a matching pattern validated the key; an object against a
    schema that merges nothing (no [patternProperties], no
    [additionalProperties] schema) moves the score by the closing point,
    one point per required name present, and -2 per error.  Every routine
    moves the score by at least -2 per error it adds, and by at least
    [1 - 2e] when it completes: [validateSchema], [validateCommon],
    [validateArray], [validateObject], and [validateRecursive] unless it
    stops at the type test, which costs the 2 of its one error and earns
    no point. *)
Theorem C7_points_per_routine_and_per_required_name :
  forall (rt : Runtime) (currentSubSchema : subSchema)
         (result otherResult : Result) (context : jsonContext.t)
         (attr : string) (requirement : Requirement) (value : Value)
         (description : Description) (str key : string) (f : float)
         (object : list (string * Value)) (array : list Value),
    let present :=
      filter (fun name => match lookup name object with
                          | Some _ => true
                          | None => false
                          end) (required currentSubSchema) in
    (score (incrementScore result) = score result + 1
     /\ errors (incrementScore result) = errors result)
    /\ (score (addError result context attr requirement value description)
          = score result - 2
        /\ added result
             (addError result context attr requirement value description)
           = 1)
    /\ score (incrementScore
                (addError result context attr requirement value description))
       = score result - 1
    /\ score (mergeErrors result otherResult)
       = score result + score otherResult
    /\ (let out :=
          validateString currentSubSchema (VString str) result context in
        score out = score result + 1 - 2 * added result out)
    /\ (let out :=
          validateNumber currentSubSchema (VFloat64 f) result context in
        score out = score result + 1 - 2 * added result out)
    /\ (let out := validateCommon currentSubSchema value result context in
        score out = score result + 1 - 2 * added result out)
    /\ (let out :=
          fold_left (requiredStep object context)
            (required currentSubSchema) result in
        score out
        = score result + Z.of_nat (List.length present)
          - 2 * added result out
        /\ added result out
           = Z.of_nat (List.length (required currentSubSchema))
             - Z.of_nat (List.length present))
    /\ (let merged :=
          mergeErrors result
            (mergeAll
               (map (patternContribution key value context)
                  (rangeMap _
                     (map (fun kv =>
                             (fst kv,
                              subValidateWithContext validateRecursive
                                (snd kv)))
                          (patternProperties currentSubSchema))))) in
        fst (validatePatternProperty validateRecursive currentSubSchema key
               value result context)
        = if patternValidated currentSubSchema key value context
          then incrementScore merged else merged)
    /\ (patternProperties currentSubSchema = [] ->
        (forall a, additionalProperties currentSubSchema <> Some (inr a)) ->
        let out :=
          validateObject validateRecursive currentSubSchema object result
            context in
        score out
        = score result + 1 + Z.of_nat (List.length present)
          - 2 * added result out)
    /\ (forall out,
          In out
             [validateSchema validateRecursive currentSubSchema value result
                context;
              validateCommon currentSubSchema value result context;
              validateArray validateRecursive currentSubSchema array result
                context;
              validateObject validateRecursive currentSubSchema object
                result context] ->
          score result + 1 - 2 * added result out <= score out)
    /\ (let out := validateRecursive currentSubSchema value result context in
        score result - 2 * added result out <= score out
        /\ (score result + 1 - 2 * added result out <= score out
            \/ (score out = score result - 2 /\ added result out = 1))).
Proof.
  intros rt s result otherResult context attr req value d str key f object
    array present.
  split; [split; reflexivity |].
  split; [split; [reflexivity |] |].
  { unfold added. rewrite errors_addError, length_app. simpl. lia. }
  split; [simpl; lia |].
  split; [reflexivity |].
  split; [apply validateString_score |].
  split; [apply validateNumber_score |].
  split; [apply validateCommon_score |].
  split.
  { cbv zeta.
    pose proof (balance_required_loop object context (required s) result)
      as Hb.
    pose proof (errors_required_loop object context (required s) result)
      as He.
    split; [now apply score_from_balance |].
    rewrite He. subst present.
    clear. induction (required s) as [|name names IH]; [reflexivity |].
    cbn [filter]. destruct (lookup name object); cbn [List.length]; lia. }
  split; [apply validatePatternProperty_points |].
  split.
  { intros Hpp Hadd out. subst out.
    pose proof (balance_validateObject_plain s object result context Hpp
                  Hadd) as Hb.
    fold present in Hb. unfold balance, added in *. lia. }
  split.
  { intros out Hout. cbn [In] in Hout.
    destruct Hout as [<- | [<- | [<- | [<- | []]]]];
      apply (gains_score context).
    - apply validateSchema_gains, yields_validateRecursive.
    - apply validateCommon_gains.
    - apply validateArray_gains; apply yields_validateRecursive.
    - apply validateObject_gains; apply yields_validateRecursive. }
  cbv zeta.
  pose proof (validateRecursive_addsNode s value context result) as H.
  split; [apply (adds_score context), addsNode_adds, H |].
  destruct H as (dd & -> & _ & [Hb | (e & He & _ & _ & Hs)]).
  - left. pose proof (balance_mergeErrors result dd) as E.
    unfold balance, added in *. lia.
  - right. unfold added. cbn [score errors mergeErrors]. unfold Errors.
    rewrite He, length_app. cbn [List.length]. lia.
Qed.

(** ** The counted walker *)

Lemma steady_intro (f : Result -> Ranged.Run Result)
    (d : nat -> Result) (next : nat -> nat) :
  (forall r n, f r n = (mergeErrors r (d n), next n)) -> steady f.
Proof.
  intros H r n. rewrite (H newResult n), (H r n). cbn [fst snd].
  now rewrite mergeErrors_newResult_l.
Qed.

Lemma steady_ext (f g : Result -> Ranged.Run Result) :
  (forall r n, f r n = g r n) -> steady f -> steady g.
Proof. intros E H r n. rewrite <- !E. apply H. Qed.

Lemma steady_ret (h : Result -> Result) :
  additive h -> steady (fun r => Ranged.ret (h r)).
Proof.
  intros H r n. unfold Ranged.ret. cbn [fst snd].
  now rewrite (additive_apply h H r).
Qed.

Lemma steady_bind (f k : Result -> Ranged.Run Result) :
  steady f -> steady k -> steady (fun r => Ranged.bind (f r) k).
Proof.
  intros Hf Hk r n. unfold Ranged.bind. cbv zeta.
  rewrite (Hf r n). cbn [fst snd].
  rewrite (Hk (mergeErrors r _)), (Hk (fst (f newResult n))).
  cbn [fst snd]. now rewrite mergeErrors_assoc.
Qed.

Lemma steady_forEach {K : Type} (step : Result -> K -> Ranged.Run Result)
    (l : list K) :
  (forall k, In k l -> steady (fun r => step r k)) ->
  steady (Ranged.forEach step l).
Proof.
  induction l as [|k l IH]; intros H.
  - apply (steady_ret (fun r => r)), additive_id.
  - apply (steady_bind (fun r => step r k) (Ranged.forEach step l)).
    + apply H. now left.
    + apply IH. intros k' Hk'. apply H. now right.
Qed.

(** A routine that runs something apart from the result and then adds to
    the result according to the outcome. *)
Lemma steady_after {A : Type} (m : Ranged.Run A)
    (k : A -> Result -> Result) :
  (forall a, additive (k a)) ->
  steady (fun r => Ranged.bind m (fun a => Ranged.ret (k a r))).
Proof.
  intros H r n. unfold Ranged.bind, Ranged.ret. cbn [fst snd].
  now rewrite (additive_apply _ (H (fst (m n))) r).
Qed.

Lemma steady_range (choice : Ranged.Choice) {A : Type}
    (m : list (string * A))
    (k : list (string * A) -> Result -> Ranged.Run Result) :
  (forall entries, Permutation entries m -> steady (k entries)) ->
  steady (fun r => Ranged.bind (Ranged.range choice m)
                     (fun entries => k entries r)).
Proof.
  intros H r n. unfold Ranged.bind, Ranged.range. cbn [fst snd].
  apply H, Ranged.pick_Permutation.
Qed.

Lemma steady_pre (h : Result -> Result) (f : Result -> Ranged.Run Result) :
  additive h -> steady f -> steady (fun r => f (h r)).
Proof.
  intros Hh Hf.
  apply (steady_ext (fun r => Ranged.bind (Ranged.ret (h r)) f));
    [reflexivity |].
  apply (steady_bind (fun r => Ranged.ret (h r)) f);
    [now apply steady_ret | exact Hf].
Qed.

Lemma alike_steady_l f g : alike f g -> steady f.
Proof. now intros [H _]. Qed.

Lemma alike_steady_r f g : alike f g -> steady g.
Proof. now intros (_ & H & _). Qed.

Lemma alike_fresh f g :
  alike f g ->
  forall n m, sameReport (fst (f newResult n)) (fst (g newResult m)).
Proof. now intros (_ & _ & H). Qed.

(** A routine alike another is alike itself, from any two numbers. *)
Lemma alike_fresh_l f g :
  alike f g ->
  forall n m, sameReport (fst (f newResult n)) (fst (f newResult m)).
Proof.
  intros (_ & _ & H) n m.
  eapply sameReport_trans; [apply (H n 0%nat) |].
  apply sameReport_sym, H.
Qed.

Lemma alike_fresh_r f g :
  alike f g ->
  forall n m, sameReport (fst (g newResult n)) (fst (g newResult m)).
Proof.
  intros (_ & _ & H) n m.
  eapply sameReport_trans; [apply sameReport_sym, (H 0%nat n) |].
  apply H.
Qed.

Lemma alike_ext (f f' g g' : Result -> Ranged.Run Result) :
  (forall r n, f r n = f' r n) -> (forall r n, g r n = g' r n) ->
  alike f g -> alike f' g'.
Proof.
  intros Ef Eg (Hf & Hg & H).
  split; [now apply (steady_ext f) |].
  split; [now apply (steady_ext g) |].
  intros n m. rewrite <- Ef, <- Eg. apply H.
Qed.

Lemma alike_ret (h1 h2 : Result -> Result) :
  additive h1 -> additive h2 -> sameReport (h1 newResult) (h2 newResult) ->
  alike (fun r => Ranged.ret (h1 r)) (fun r => Ranged.ret (h2 r)).
Proof.
  intros H1 H2 H.
  split; [now apply steady_ret |]. split; [now apply steady_ret |].
  intros n m. exact H.
Qed.

Lemma alike_lift (h : Result -> Result) :
  additive h -> alike (fun r => Ranged.ret (h r)) (fun r => Ranged.ret (h r)).
Proof. intros H. apply alike_ret; auto. apply sameReport_refl. Qed.

Lemma alike_bind (f1 g1 f2 g2 : Result -> Ranged.Run Result) :
  alike f1 g1 -> alike f2 g2 ->
  alike (fun r => Ranged.bind (f1 r) f2) (fun r => Ranged.bind (g1 r) g2).
Proof.
  intros (Hf1 & Hg1 & H1) (Hf2 & Hg2 & H2).
  split; [now apply steady_bind |]. split; [now apply steady_bind |].
  intros n m. unfold Ranged.bind. cbv zeta.
  rewrite (Hf2 (fst (f1 newResult n))), (Hg2 (fst (g1 newResult m))).
  cbn [fst snd]. apply sameReport_mergeErrors; [apply H1 | apply H2].
Qed.

Lemma alike_pre (h1 h2 : Result -> Result)
    (f g : Result -> Ranged.Run Result) :
  additive h1 -> additive h2 -> sameReport (h1 newResult) (h2 newResult) ->
  alike f g -> alike (fun r => f (h1 r)) (fun r => g (h2 r)).
Proof.
  intros H1 H2 H Hfg.
  apply (alike_ext (fun r => Ranged.bind (Ranged.ret (h1 r)) f)
           (fun r => f (h1 r))
           (fun r => Ranged.bind (Ranged.ret (h2 r)) g)
           (fun r => g (h2 r))); try reflexivity.
  apply (alike_bind (fun r => Ranged.ret (h1 r))
           (fun r => Ranged.ret (h2 r)) f g); [| exact Hfg].
  now apply alike_ret.
Qed.

Lemma alike_forEach {K : Type}
    (step1 step2 : Result -> K -> Ranged.Run Result) (l : list K) :
  (forall k, In k l -> alike (fun r => step1 r k) (fun r => step2 r k)) ->
  alike (Ranged.forEach step1 l) (Ranged.forEach step2 l).
Proof.
  induction l as [|k l IH]; intros H.
  - apply (alike_lift (fun r => r)), additive_id.
  - apply (alike_bind (fun r => step1 r k) (fun r => step2 r k)
             (Ranged.forEach step1 l) (Ranged.forEach step2 l)).
    + apply H. now left.
    + apply IH. intros k' Hk'. apply H. now right.
Qed.

(** What a loop adds is, up to order, what its rounds add. *)
Lemma forEach_contributions {K : Type}
    (step : Result -> K -> Ranged.Run Result) (canon : K -> Result)
    (l : list K) :
  (forall k, steady (fun r => step r k)) ->
  (forall k n, sameReport (fst (step newResult k n)) (canon k)) ->
  forall n,
    sameReport (fst (Ranged.forEach step l newResult n))
               (mergeAll (map canon l)).
Proof.
  intros Hs Hc. induction l as [|k l IH]; intros n.
  - apply sameReport_refl.
  - cbn [Ranged.forEach map mergeAll fold_right]. unfold Ranged.bind.
    cbv zeta.
    rewrite (steady_forEach step l (fun k' _ => Hs k')
               (fst (step newResult k n))).
    cbn [fst]. apply sameReport_mergeErrors; [apply Hc | apply IH].
Qed.

(** A loop over the keys of a map, run in two orders. *)
Lemma alike_forEach_Permutation {K : Type}
    (step1 step2 : Result -> K -> Ranged.Run Result) (l1 l2 : list K) :
  (forall k, alike (fun r => step1 r k) (fun r => step2 r k)) ->
  Permutation l1 l2 ->
  alike (Ranged.forEach step1 l1) (Ranged.forEach step2 l2).
Proof.
  intros H Hp.
  split; [apply steady_forEach; intros k _; apply (alike_steady_l _ _ (H k)) |].
  split; [apply steady_forEach; intros k _; apply (alike_steady_r _ _ (H k)) |].
  intros n m.
  set (canon := fun k => fst (step2 newResult k 0%nat)).
  eapply sameReport_trans.
  { apply (forEach_contributions step1 canon l1).
    - intros k. apply (alike_steady_l _ _ (H k)).
    - intros k n'. apply (alike_fresh _ _ (H k)). }
  eapply sameReport_trans;
    [apply sameReport_mergeAll_Permutation, Permutation_map, Hp |].
  apply sameReport_sym.
  apply (forEach_contributions step2 canon l2).
  - intros k. apply (alike_steady_r _ _ (H k)).
  - intros k n'. apply (alike_fresh_r _ _ (H k)).
Qed.

(** A [range] over a map followed by what is done with its entries. *)
Lemma alike_range (p q : Ranged.Choice) {A B : Type}
    (m1 : list (string * A)) (m2 : list (string * B))
    (k1 : list (string * A) -> Result -> Ranged.Run Result)
    (k2 : list (string * B) -> Result -> Ranged.Run Result) :
  (forall e1 e2, Permutation e1 m1 -> Permutation e2 m2 ->
                 alike (k1 e1) (k2 e2)) ->
  alike (fun r => Ranged.bind (Ranged.range p m1) (fun e => k1 e r))
        (fun r => Ranged.bind (Ranged.range q m2) (fun e => k2 e r)).
Proof.
  intros H.
  split.
  { apply steady_range. intros e He.
    apply (alike_steady_l _ (k2 m2)), H; auto. }
  split.
  { apply steady_range. intros e He.
    apply (alike_steady_r (k1 m1)), H; auto. }
  intros n m. unfold Ranged.bind, Ranged.range. cbn [fst snd].
  apply (alike_fresh _ _ (H _ _ (Ranged.pick_Permutation p n A m1)
                            (Ranged.pick_Permutation q m B m2))).
Qed.

(** Two routines that run something apart from the result and then add to
    the result according to the outcome. *)
Lemma alike_after {A B : Type} (m1 : Ranged.Run A) (m2 : Ranged.Run B)
    (k1 : A -> Result -> Result) (k2 : B -> Result -> Result) :
  (forall a, additive (k1 a)) -> (forall b, additive (k2 b)) ->
  (forall n m, sameReport (k1 (fst (m1 n)) newResult)
                          (k2 (fst (m2 m)) newResult)) ->
  alike (fun r => Ranged.bind m1 (fun a => Ranged.ret (k1 a r)))
        (fun r => Ranged.bind m2 (fun b => Ranged.ret (k2 b r))).
Proof.
  intros H1 H2 H.
  split; [now apply steady_after |]. split; [now apply steady_after |].
  intros n m. apply H.
Qed.
Section Counted.

Context {rt : Runtime}.

Variables p q : Ranged.Choice.

Variables rec1 rec2 :
  subSchema -> Value -> Result -> jsonContext.t -> Ranged.Run Result.

Abbreviation alikeOn := (walkersAlike rec1 rec2).

Lemma alikeOn_fresh d v c :
  alikeOn d ->
  forall n m,
    sameReport (fst (Ranged.subValidateWithContext rec1 d v c n))
               (fst (Ranged.subValidateWithContext rec2 d v c m)).
Proof. intros H. apply (alike_fresh _ _ (H v c)). Qed.

(** *** anyOf *)

Lemma anyOf_loop_alike v c (l : list subSchema) :
  (forall a, In a l -> alikeOn a) ->
  forall b rs1 rs2 n m,
    Forall2 sameReport rs1 rs2 ->
    let out1 := fst (Ranged.forEach (Ranged.anyOfStep rec1 v c) l (b, rs1) n)
    in
    let out2 := fst (Ranged.forEach (Ranged.anyOfStep rec2 v c) l (b, rs2) m)
    in
    fst out1 = fst out2 /\ Forall2 sameReport (snd out1) (snd out2).
Proof.
  cbv zeta. induction l as [|a l IH]; intros Hl b rs1 rs2 n m Hrs.
  - now split.
  - cbn [Ranged.forEach]. unfold Ranged.bind. cbv zeta.
    destruct b; cbn [Ranged.anyOfStep negb Ranged.ret fst snd].
    + apply IH; [intros; apply Hl; now right | exact Hrs].
    + unfold Ranged.bind, Ranged.ret. cbn [fst snd].
      pose proof (alikeOn_fresh a v c (Hl a (or_introl eq_refl)) n m) as Ha.
      rewrite (sameReport_Valid _ _ Ha).
      apply IH; [intros; apply Hl; now right |].
      apply Forall2_app; [exact Hrs | constructor; [exact Ha | constructor]].
Qed.

Ltac steady_end :=
  unfold Ranged.ret; cbn [fst snd];
  rewrite ?addError_oneError, ?incrementScore_onePoint, ?mergeErrors_assoc,
    ?mergeErrors_newResult_l, ?mergeErrors_newResult_r;
  reflexivity.

Lemma validateAnyOf_steady rec s v c :
  steady (fun r => Ranged.validateAnyOf rec s v r c).
Proof.
  intros r n. unfold Ranged.validateAnyOf.
  destruct (0 <? _)%nat; [| steady_end].
  unfold Ranged.bind. cbv zeta.
  destruct (Ranged.forEach _ _ _ n) as [[b rs] n']. cbn [fst snd].
  destruct (negb b); [| steady_end].
  destruct (getBestResult rs); steady_end.
Qed.

Lemma validateAnyOf_alike s v c :
  (forall a, In a (anyOf s) -> alikeOn a) ->
  alike (fun r => Ranged.validateAnyOf rec1 s v r c)
        (fun r => Ranged.validateAnyOf rec2 s v r c).
Proof.
  intros Hl. split; [apply validateAnyOf_steady |].
  split; [apply validateAnyOf_steady |].
  intros n m. unfold Ranged.validateAnyOf.
  destruct (0 <? _)%nat; [| apply sameReport_refl].
  unfold Ranged.bind. cbv zeta.
  destruct (anyOf_loop_alike v c (anyOf s) Hl false [] [] n m
              (Forall2_nil _)) as [Hb Hrs].
  destruct (Ranged.forEach (Ranged.anyOfStep rec1 v c) _ _ n)
    as [[b1 rs1] n'].
  destruct (Ranged.forEach (Ranged.anyOfStep rec2 v c) _ _ m)
    as [[b2 rs2] m'].
  cbn [fst snd] in *. subst b2.
  destruct (negb b1); [| apply sameReport_refl].
  pose proof (sameBest_getBestResult _ _ Hrs) as Hbest.
  destruct (getBestResult rs1), (getBestResult rs2); cbn in Hbest;
    try contradiction; unfold Ranged.ret; cbn [fst].
  - apply sameReport_mergeErrors; [apply sameReport_refl | exact Hbest].
  - apply sameReport_refl.
Qed.

(** *** oneOf *)

Lemma oneOf_loop_alike v c (l : list subSchema) :
  (forall a, In a l -> alikeOn a) ->
  forall rs1 rs2 nb n m,
    Forall2 sameReport rs1 rs2 ->
    let out1 :=
      fst (Ranged.forEach (Ranged.oneOfStep rec1 v c) l (rs1, nb) n) in
    let out2 :=
      fst (Ranged.forEach (Ranged.oneOfStep rec2 v c) l (rs2, nb) m) in
    Forall2 sameReport (fst out1) (fst out2) /\ snd out1 = snd out2.
Proof.
  cbv zeta. induction l as [|a l IH]; intros Hl rs1 rs2 nb n m Hrs.
  - now split.
  - cbn [Ranged.forEach]. unfold Ranged.bind. cbv zeta.
    cbn [Ranged.oneOfStep]. unfold Ranged.bind. cbv zeta.
    pose proof (alikeOn_fresh a v c (Hl a (or_introl eq_refl)) n m) as Ha.
    rewrite (sameReport_Valid _ _ Ha).
    destruct (Valid (fst (Ranged.subValidateWithContext rec2 a v c m)));
      unfold Ranged.ret; cbn [fst snd].
    + apply IH; [intros; apply Hl; now right | exact Hrs].
    + apply IH; [intros; apply Hl; now right |].
      apply Forall2_app; [exact Hrs | constructor; [exact Ha | constructor]].
Qed.

Lemma validateOneOf_steady rec s v c :
  steady (fun r => Ranged.validateOneOf rec s v r c).
Proof.
  intros r n. unfold Ranged.validateOneOf.
  destruct (0 <? _)%nat; [| steady_end].
  unfold Ranged.bind. cbv zeta.
  destruct (Ranged.forEach _ _ _ n) as [[rs nb] n']. cbn [fst snd].
  destruct (negb _); [| steady_end].
  destruct (if nb =? 0 then _ else _); steady_end.
Qed.

Lemma validateOneOf_alike s v c :
  (forall a, In a (oneOf s) -> alikeOn a) ->
  alike (fun r => Ranged.validateOneOf rec1 s v r c)
        (fun r => Ranged.validateOneOf rec2 s v r c).
Proof.
  intros Hl. split; [apply validateOneOf_steady |].
  split; [apply validateOneOf_steady |].
  intros n m. unfold Ranged.validateOneOf.
  destruct (0 <? _)%nat; [| apply sameReport_refl].
  unfold Ranged.bind. cbv zeta.
  destruct (oneOf_loop_alike v c (oneOf s) Hl [] [] 0 n m (Forall2_nil _))
    as [Hrs Hnb].
  destruct (Ranged.forEach (Ranged.oneOfStep rec1 v c) _ _ n)
    as [[rs1 nb1] n'].
  destruct (Ranged.forEach (Ranged.oneOfStep rec2 v c) _ _ m)
    as [[rs2 nb2] m'].
  cbn [fst snd] in *. subst nb2.
  destruct (negb _); [| apply sameReport_refl].
  pose proof (sameBest_getBestResult _ _ Hrs) as Hbest.
  destruct (nb1 =? 0); [| apply sameReport_refl].
  destruct (getBestResult rs1), (getBestResult rs2); cbn in Hbest;
    try contradiction; unfold Ranged.ret; cbn [fst].
  - apply sameReport_mergeErrors; [apply sameReport_refl | exact Hbest].
  - apply sameReport_refl.
Qed.

(** *** allOf *)

Lemma allOf_loop_frame rec v c (l : list subSchema) :
  forall r x nb n,
    let out := Ranged.forEach (Ranged.allOfStep rec v c) l (x, nb) n in
    Ranged.forEach (Ranged.allOfStep rec v c) l (mergeErrors r x, nb) n
    = (mergeErrors r (fst (fst out)), snd (fst out), snd out).
Proof.
  cbv zeta. induction l as [|a l IH]; intros r x nb n.
  - reflexivity.
  - cbn [Ranged.forEach]. unfold Ranged.bind. cbv zeta.
    cbn [Ranged.allOfStep]. unfold Ranged.bind, Ranged.ret. cbn [fst snd].
    rewrite mergeErrors_assoc. apply IH.
Qed.

Lemma allOf_loop_alike v c (l : list subSchema) :
  (forall a, In a l -> alikeOn a) ->
  forall x1 x2 nb n m,
    sameReport x1 x2 ->
    let out1 :=
      fst (Ranged.forEach (Ranged.allOfStep rec1 v c) l (x1, nb) n) in
    let out2 :=
      fst (Ranged.forEach (Ranged.allOfStep rec2 v c) l (x2, nb) m) in
    sameReport (fst out1) (fst out2) /\ snd out1 = snd out2.
Proof.
  cbv zeta. induction l as [|a l IH]; intros Hl x1 x2 nb n m Hx.
  - now split.
  - cbn [Ranged.forEach]. unfold Ranged.bind. cbv zeta.
    cbn [Ranged.allOfStep]. unfold Ranged.bind, Ranged.ret. cbn [fst snd].
    pose proof (alikeOn_fresh a v c (Hl a (or_introl eq_refl)) n m) as Ha.
    rewrite (sameReport_Valid _ _ Ha).
    apply IH; [intros; apply Hl; now right |].
    now apply sameReport_mergeErrors.
Qed.

Lemma validateAllOf_steady rec s v c :
  steady (fun r => Ranged.validateAllOf rec s v r c).
Proof.
  intros r n. unfold Ranged.validateAllOf.
  destruct (0 <? _)%nat; [| steady_end].
  unfold Ranged.bind. cbv zeta.
  pose proof (allOf_loop_frame rec v c (allOf s) r newResult 0 n) as E.
  cbv zeta in E. rewrite mergeErrors_newResult_r in E. rewrite E. clear E.
  destruct (Ranged.forEach _ _ (newResult, 0) n) as [[x nb] n'].
  cbn [fst snd].
  destruct (negb _); steady_end.
Qed.

Lemma validateAllOf_alike s v c :
  (forall a, In a (allOf s) -> alikeOn a) ->
  alike (fun r => Ranged.validateAllOf rec1 s v r c)
        (fun r => Ranged.validateAllOf rec2 s v r c).
Proof.
  intros Hl. split; [apply validateAllOf_steady |].
  split; [apply validateAllOf_steady |].
  intros n m. unfold Ranged.validateAllOf.
  destruct (0 <? _)%nat; [| apply sameReport_refl].
  unfold Ranged.bind. cbv zeta.
  destruct (allOf_loop_alike v c (allOf s) Hl newResult newResult 0 n m
              (sameReport_refl _)) as [Hres Hnb].
  destruct (Ranged.forEach (Ranged.allOfStep rec1 v c) _ _ n)
    as [[x1 nb1] n'].
  destruct (Ranged.forEach (Ranged.allOfStep rec2 v c) _ _ m)
    as [[x2 nb2] m'].
  cbn [fst snd] in *. subst nb2.
  destruct (negb _); unfold Ranged.ret; cbn [fst];
    [now apply sameReport_addError | exact Hres].
Qed.

(** *** not *)

Lemma validateNot_steady rec s v c :
  steady (fun r => Ranged.validateNot rec s v r c).
Proof.
  intros r n. unfold Ranged.validateNot.
  destruct (not s) as [notSchema|]; [| steady_end].
  unfold Ranged.bind. cbv zeta.
  destruct (Valid _); steady_end.
Qed.

Lemma validateNot_alike s v c :
  (forall a, In a (optionSchema (not s)) -> alikeOn a) ->
  alike (fun r => Ranged.validateNot rec1 s v r c)
        (fun r => Ranged.validateNot rec2 s v r c).
Proof.
  intros Hl. split; [apply validateNot_steady |].
  split; [apply validateNot_steady |].
  intros n m. unfold Ranged.validateNot.
  destruct (not s) as [notSchema|]; [| apply sameReport_refl].
  unfold Ranged.bind. cbv zeta.
  pose proof (alikeOn_fresh notSchema v c (Hl _ (or_introl eq_refl)) n m)
    as Hn.
  rewrite (sameReport_Valid _ _ Hn).
  destruct (Valid _); apply sameReport_refl.
Qed.

(** *** dependencies *)

Lemma dependencyStep_alike s m v c k :
  (forall d, In d (flat_map (fun kv => dependencySchema (snd kv))
                     (dependencies s)) -> alikeOn d) ->
  let deps rec :=
    map (fun kv =>
           (fst kv,
            match snd kv with
            | inl names => inl names
            | inr dependency =>
                inr (rec dependency
                     : Value -> Result -> jsonContext.t -> Ranged.Run Result)
            end)) (dependencies s) in
  alike (fun r => Ranged.dependencyStep m v c (deps rec1) r k)
        (fun r => Ranged.dependencyStep m v c (deps rec2) r k).
Proof.
  intros Hl deps. unfold Ranged.dependencyStep. subst deps. cbv beta.
  rewrite !(lookup_map_values
              (fun x : list string + subSchema =>
                 match x with
                 | inl names => inl names
                 | inr dependency => inr (_ dependency)
                 end)).
  destruct (lookup k (dependencies s)) as [[names | d]|] eqn:E; cbn.
  - apply alike_lift, additive_fold_left. intros name _.
    destruct (lookup name m);
      [apply additive_id | apply additive_addError].
  - apply Hl.
    destruct (lookup_In _ _ _ E) as [k' Hin].
    apply in_flat_map. exists (k', inr d). split; [exact Hin | now left].
  - apply (alike_lift (fun r => r)), additive_id.
Qed.

Lemma validateDependencies_alike s v c :
  (forall d, In d (flat_map (fun kv => dependencySchema (snd kv))
                     (dependencies s)) -> alikeOn d) ->
  alike (fun r => Ranged.validateDependencies p rec1 s v r c)
        (fun r => Ranged.validateDependencies q rec2 s v r c).
Proof.
  intros Hl. unfold Ranged.validateDependencies.
  destruct (0 <? _)%nat; [| apply (alike_lift (fun r => r)), additive_id].
  destruct (isKind v reflect.Map);
    [| apply (alike_lift (fun r => r)), additive_id].
  destruct v; try apply (alike_lift (fun r => r)), additive_id.
  apply (alike_range p q m m
           (fun entries r =>
              Ranged.forEach (Ranged.dependencyStep m (VMap m) c _)
                (map fst entries) r)
           (fun entries r =>
              Ranged.forEach (Ranged.dependencyStep m (VMap m) c _)
                (map fst entries) r)).
  intros e1 e2 H1 H2.
  apply alike_forEach_Permutation.
  - intros k. now apply dependencyStep_alike.
  - apply Permutation_map.
    eapply Permutation_trans; [exact H1 | now apply Permutation_sym].
Qed.

Lemma validateSchema_alike s v c :
  (forall d, In d (children s) -> alikeOn d) ->
  alike (fun r => Ranged.validateSchema p rec1 s v r c)
        (fun r => Ranged.validateSchema q rec2 s v r c).
Proof.
  intros Hl. unfold Ranged.validateSchema.
  apply alike_bind;
    [apply validateAnyOf_alike; intros d Hd; apply Hl; unfold children;
     rewrite !in_app_iff; tauto |].
  apply alike_bind;
    [apply validateOneOf_alike; intros d Hd; apply Hl; unfold children;
     rewrite !in_app_iff; tauto |].
  apply alike_bind;
    [apply validateAllOf_alike; intros d Hd; apply Hl; unfold children;
     rewrite !in_app_iff; tauto |].
  apply alike_bind;
    [apply validateNot_alike; intros d Hd; apply Hl; unfold children;
     rewrite !in_app_iff; tauto |].
  apply alike_bind;
    [apply validateDependencies_alike; intros d Hd; apply Hl;
     unfold children; rewrite !in_app_iff; tauto |].
  apply alike_lift, additive_incrementScore.
Qed.

(** *** Arrays *)

Lemma items_loop_alike
    (schemaAt1 schemaAt2 : nat -> Value -> jsonContext.t -> Ranged.Run Result)
    value c (l : list nat) :
  (forall i v c n m,
      sameReport (fst (schemaAt1 i v c n)) (fst (schemaAt2 i v c m))) ->
  alike (Ranged.forEach (Ranged.validateItemAt schemaAt1 value c) l)
        (Ranged.forEach (Ranged.validateItemAt schemaAt2 value c) l).
Proof.
  intros H. apply alike_forEach. intros i _.
  unfold Ranged.validateItemAt. cbv zeta.
  apply (alike_after _ _ (fun a r => mergeErrors r a)
           (fun a r => mergeErrors r a));
    try (intros a; apply additive_mergeErrors).
  intros n m. rewrite !mergeErrors_newResult_l. apply H.
Qed.

Lemma nth_items_alike (items : list subSchema) :
  (forall a, In a items -> alikeOn a) ->
  forall i v c n m,
    sameReport
      (fst (nth i (map (Ranged.subValidateWithContext rec1) items)
              (fun _ _ => Ranged.ret newResult) v c n))
      (fst (nth i (map (Ranged.subValidateWithContext rec2) items)
              (fun _ _ => Ranged.ret newResult) v c m)).
Proof.
  induction items as [|a items IH]; intros Hl i v c n m.
  - destruct i; apply sameReport_refl.
  - destruct i as [|i]; simpl.
    + apply alikeOn_fresh, Hl. now left.
    + apply IH. intros a' Ha'. apply Hl. now right.
Qed.

Lemma validateItems_alike s value c :
  (forall d, In d (children s) -> alikeOn d) ->
  alike (fun r => Ranged.validateItems rec1 s value r c)
        (fun r => Ranged.validateItems rec2 s value r c).
Proof.
  intros Hl.
  assert (Hitems : forall a, In a (itemsChildren s) -> alikeOn a).
  { intros a Ha. apply Hl. unfold children. rewrite !in_app_iff. tauto. }
  unfold Ranged.validateItems.
  destruct (itemsChildrenIsSingleSchema s).
  - destruct (itemsChildren s) as [|item0 rest];
      [apply (alike_lift (fun r => r)), additive_id |].
    apply items_loop_alike. intros i v c' n m.
    apply alikeOn_fresh, Hitems. now left.
  - destruct (0 <? _)%nat; [| apply (alike_lift (fun r => r)), additive_id].
    cbv zeta. destruct (_ =? _)%nat.
    + apply items_loop_alike. now apply nth_items_alike.
    + destruct (_ <? _)%nat;
        [| apply (alike_lift (fun r => r)), additive_id].
      destruct (additionalItems s) as [[b | a]|] eqn:E;
        [| | apply (alike_lift (fun r => r)), additive_id].
      * destruct (negb b);
          [apply alike_lift, additive_addError
          | apply (alike_lift (fun r => r)), additive_id].
      * apply items_loop_alike. intros i v c' n m.
        apply alikeOn_fresh, Hl.
        unfold children. rewrite E, !in_app_iff. cbn. tauto.
Qed.

Ltac additive_steps :=
  cbv beta;
  lazymatch goal with
  | |- additive (fun r => r) => apply additive_id
  | |- additive (fun r => incrementScore (@?f r)) =>
      apply (additive_compose f incrementScore);
      [additive_steps | apply additive_incrementScore]
  | |- additive (fun r => addError (@?f r) ?c ?a ?q ?x ?d) =>
      apply (additive_compose f (fun r => addError r c a q x d));
      [additive_steps | apply additive_addError]
  | |- additive (fun r => mergeErrors (@?f r) ?d) =>
      apply (additive_compose f (fun r => mergeErrors r d));
      [additive_steps | apply additive_mergeErrors]
  | |- additive (fun r =>
                   fst (fold_left (uniqueItemsStep ?value ?c) ?l
                          (@?f r, ?seen))) =>
      apply (additive_compose f
               (fun r => fst (fold_left (uniqueItemsStep value c) l
                                (r, seen))));
      [additive_steps | apply uniqueItems_loop_additive]
  | |- additive (fun r => fold_left (requiredStep ?value ?c) ?l (@?f r)) =>
      apply (additive_compose f
               (fun r => fold_left (requiredStep value c) l r));
      [additive_steps
      | apply additive_fold_left; intros; apply requiredStep_additive]
  | |- additive (fun r => validateCommon ?s ?v (@?f r) ?c) =>
      apply (additive_compose f (fun r => validateCommon s v r c));
      [additive_steps | apply validateCommon_additive]
  | |- additive (fun r => validateNumber ?s ?v (@?f r) ?c) =>
      apply (additive_compose f (fun r => validateNumber s v r c));
      [additive_steps | apply validateNumber_additive]
  | |- additive (fun r => validateString ?s ?v (@?f r) ?c) =>
      apply (additive_compose f (fun r => validateString s v r c));
      [additive_steps | apply validateString_additive]
  end.

Ltac split_options :=
  repeat match goal with
         | |- context [match ?x with Some _ => _ | None => _ end] =>
             destruct x
         | |- context [if ?b then _ else _] => destruct b
         end.

Lemma validateArray_alike s value c :
  (forall d, In d (children s) -> alikeOn d) ->
  alike (fun r => Ranged.validateArray rec1 s value r c)
        (fun r => Ranged.validateArray rec2 s value r c).
Proof.
  intros Hl. unfold Ranged.validateArray. cbv zeta.
  apply alike_bind; [now apply validateItems_alike |].
  apply alike_lift. split_options; additive_steps.
Qed.

(** *** [validatePatternProperty] *)

Lemma pattern_loop_frame key value c
    (l : list (string * (Value -> jsonContext.t -> Ranged.Run Result))) :
  forall r x h vk n,
    let out :=
      Ranged.forEach (Ranged.patternPropertyStep key value c) l (x, h, vk) n
    in
    Ranged.forEach (Ranged.patternPropertyStep key value c) l
      (mergeErrors r x, h, vk) n
    = (mergeErrors r (fst (fst (fst out))), snd (fst (fst out)),
       snd (fst out), snd out).
Proof.
  cbv zeta. induction l as [|[pk pv] l IH]; intros r x h vk n.
  - reflexivity.
  - cbn [Ranged.forEach]. unfold Ranged.bind. cbv zeta.
    cbn [Ranged.patternPropertyStep].
    destruct (regexpMatchString pk key).
    + unfold Ranged.bind, Ranged.ret. cbn [fst snd].
      rewrite mergeErrors_assoc. apply IH.
    + unfold Ranged.ret. cbn [fst snd]. apply IH.
Qed.

(** What the pattern loop leaves: the results of the matching entries
    merged, and the two flags. *)
Lemma pattern_loop_content key value c
    (canon : string * (Value -> jsonContext.t -> Ranged.Run Result) ->
             Result)
    (l : list (string * (Value -> jsonContext.t -> Ranged.Run Result))) :
  (forall e n, In e l -> regexpMatchString (fst e) key = true ->
               sameReport
                 (fst (snd e value (newJsonContext key (Some c)) n))
                 (canon e)) ->
  forall x h vk n,
    let out :=
      fst (Ranged.forEach (Ranged.patternPropertyStep key value c) l
             (x, h, vk) n) in
    sameReport (fst (fst out))
      (mergeErrors x
         (mergeAll
            (map (fun e => if regexpMatchString (fst e) key then canon e
                           else newResult) l)))
    /\ snd (fst out)
       = (h || existsb (fun e => regexpMatchString (fst e) key) l)%bool
    /\ snd out
       = (vk || existsb (fun e => regexpMatchString (fst e) key
                                  && Valid (canon e)) l)%bool.
Proof.
  cbv zeta. induction l as [|[pk pv] l IH]; intros Hc x h vk n.
  - cbn. rewrite mergeErrors_newResult_r, !orb_false_r.
    split; [apply sameReport_refl | now split].
  - cbn [Ranged.forEach]. unfold Ranged.bind. cbv zeta.
    cbn [Ranged.patternPropertyStep].
    assert (Hc' : forall e n, In e l ->
                    regexpMatchString (fst e) key = true ->
                    sameReport
                      (fst (snd e value (newJsonContext key (Some c)) n))
                      (canon e)).
    { intros e n' He. apply Hc. now right. }
    cbn [map mergeAll fold_right existsb fst snd].
    destruct (regexpMatchString pk key) eqn:Em.
    + unfold Ranged.bind, Ranged.ret. cbn [fst snd].
      pose proof (Hc (pk, pv) n (or_introl eq_refl) Em) as Hpv.
      cbn [fst snd] in Hpv.
      destruct (IH Hc'
                  (mergeErrors x
                     (fst (pv value (newJsonContext key (Some c)) n)))
                  true
                  (if Valid (fst (pv value (newJsonContext key (Some c)) n))
                   then true else vk)
                  (snd (pv value (newJsonContext key (Some c)) n)))
        as (H1 & H2 & H3).
      split; [| split].
      * eapply sameReport_trans; [exact H1 |].
        rewrite mergeErrors_assoc.
        apply sameReport_mergeErrors; [apply sameReport_refl |].
        apply sameReport_mergeErrors; [exact Hpv | apply sameReport_refl].
      * rewrite H2. now rewrite orb_true_r.
      * rewrite H3. rewrite (sameReport_Valid _ _ Hpv).
        cbn [andb]. destruct (Valid (canon (pk, pv))), vk; reflexivity.
    + unfold Ranged.ret. cbn [fst snd andb orb].
      destruct (IH Hc' x h vk n) as (H1 & H2 & H3).
      split; [| split].
      * eapply sameReport_trans; [exact H1 |].
        apply sameReport_mergeErrors; [apply sameReport_refl |].
        rewrite mergeErrors_newResult_l. apply sameReport_refl.
      * exact H2.
      * exact H3.
Qed.

Lemma validatePatternProperty_frame_counted choice rec s key value c r n :
  let out :=
    Ranged.validatePatternProperty choice rec s key value newResult c n in
  Ranged.validatePatternProperty choice rec s key value r c n
  = (mergeErrors r (fst (fst out)), snd (fst out), snd out).
Proof.
  cbv zeta. unfold Ranged.validatePatternProperty, Ranged.bind,
    Ranged.range. cbv zeta. cbn [fst snd].
  set (l := Ranged.pick choice n _ _).
  pose proof (pattern_loop_frame key value c l r newResult false false
                (S n)) as E.
  cbv zeta in E. rewrite mergeErrors_newResult_r in E. rewrite E. clear E.
  destruct (Ranged.forEach (Ranged.patternPropertyStep key value c) l
              (newResult, false, false) (S n)) as [[[x h] vk] n'].
  cbn [fst snd].
  destruct (negb vk); unfold Ranged.ret; cbn [fst snd];
    rewrite ?incrementScore_onePoint, ?mergeErrors_assoc; reflexivity.
Qed.

(** The outcome of [validatePatternProperty] on a fresh result: up to the
    order of what it merged, it is the same in two invocations. *)
Lemma validatePatternProperty_alike s key value c :
  (forall d, In d (map snd (patternProperties s)) -> alikeOn d) ->
  forall n m,
    let out1 :=
      fst (Ranged.validatePatternProperty p rec1 s key value newResult c n)
    in
    let out2 :=
      fst (Ranged.validatePatternProperty q rec2 s key value newResult c m)
    in
    sameReport (fst out1) (fst out2) /\ snd out1 = snd out2.
Proof.
  intros Hl n m. cbv zeta.
  unfold Ranged.validatePatternProperty, Ranged.bind, Ranged.range.
  cbv zeta. cbn [fst snd].
  set (F1 := fun kv : string * subSchema =>
               (fst kv, Ranged.subValidateWithContext rec1 (snd kv))).
  set (F2 := fun kv : string * subSchema =>
               (fst kv, Ranged.subValidateWithContext rec2 (snd kv))).
  set (canon :=
         fun e : string * (Value -> jsonContext.t -> Ranged.Run Result) =>
           fst (snd e value (newJsonContext key (Some c)) 0%nat)).
  set (l1 := Ranged.pick p n _ (map F1 (patternProperties s))).
  set (l2 := Ranged.pick q m _ (map F2 (patternProperties s))).
  assert (P1 : Permutation l1 (map F1 (patternProperties s)))
    by apply Ranged.pick_Permutation.
  assert (P2 : Permutation l2 (map F2 (patternProperties s)))
    by apply Ranged.pick_Permutation.
  assert (C1 : forall e n', In e l1 ->
                 regexpMatchString (fst e) key = true ->
                 sameReport
                   (fst (snd e value (newJsonContext key (Some c)) n'))
                   (canon e)).
  { intros e n' He _. apply (Permutation_in _ P1) in He.
    apply in_map_iff in He. destruct He as ([pk d] & <- & Hd).
    subst canon F1. cbn [fst snd].
    apply (alike_fresh_l _ _ (Hl d ltac:(apply in_map_iff;
                                          now exists (pk, d))
                                value (newJsonContext key (Some c)))). }
  assert (C2 : forall e n', In e l2 ->
                 regexpMatchString (fst e) key = true ->
                 sameReport
                   (fst (snd e value (newJsonContext key (Some c)) n'))
                   (canon e)).
  { intros e n' He _. apply (Permutation_in _ P2) in He.
    apply in_map_iff in He. destruct He as ([pk d] & <- & Hd).
    subst canon F2. cbn [fst snd].
    apply (alike_fresh_r _ _ (Hl d ltac:(apply in_map_iff;
                                          now exists (pk, d))
                                value (newJsonContext key (Some c)))). }
  destruct (pattern_loop_content key value c canon l1 C1 newResult false
              false (S n)) as (A1 & B1 & V1).
  destruct (pattern_loop_content key value c canon l2 C2 newResult false
              false (S m)) as (A2 & B2 & V2).
  cbv zeta in *.
  destruct (Ranged.forEach (Ranged.patternPropertyStep key value c) l1
              (newResult, false, false) (S n)) as [[[x1 h1] vk1] n1].
  destruct (Ranged.forEach (Ranged.patternPropertyStep key value c) l2
              (newResult, false, false) (S m)) as [[[x2 h2] vk2] m1].
  cbn [fst snd orb] in *.
  rewrite mergeErrors_newResult_l in A1, A2.
  assert (Hpair : forall kv, In kv (patternProperties s) ->
                    sameReport (canon (F1 kv)) (canon (F2 kv))).
  { intros [pk d] Hd. subst canon F1 F2. cbn [fst snd].
    apply alikeOn_fresh, Hl. apply in_map_iff. now exists (pk, d). }
  assert (Hx : sameReport x1 x2).
  { eapply sameReport_trans; [exact A1 |].
    eapply sameReport_trans; [| apply sameReport_sym, A2].
    eapply sameReport_trans;
      [apply sameReport_mergeAll_Permutation, Permutation_map, P1 |].
    eapply sameReport_trans;
      [| apply sameReport_mergeAll_Permutation, Permutation_map,
           Permutation_sym, P2].
    rewrite !map_map. apply sameReport_mergeAll_Forall2.
    clear - Hpair. induction (patternProperties s) as [|kv l IH].
    - constructor.
    - cbn [map]. constructor.
      + subst F1 F2. cbn [fst snd].
        destruct (regexpMatchString (fst kv) key);
          [apply Hpair; now left | apply sameReport_refl].
      + apply IH. intros kv' Hkv'. apply Hpair. now right. }
  assert (Hh : h1 = h2).
  { rewrite B1, B2.
    rewrite (existsb_Permutation _ _ _ P1), (existsb_Permutation _ _ _ P2).
    rewrite !existsb_map_compose. reflexivity. }
  assert (Hv : vk1 = vk2).
  { rewrite V1, V2.
    rewrite (existsb_Permutation _ _ _ P1), (existsb_Permutation _ _ _ P2).
    rewrite !existsb_map_compose. apply existsb_ext_in.
    intros kv Hkv. subst F1 F2. cbn [fst snd]. f_equal.
    apply sameReport_Valid, (Hpair kv Hkv). }
  clear A1 A2 B1 B2 V1 V2. subst h2 vk2.
  destruct vk1; cbn [negb]; unfold Ranged.ret; cbn [fst snd];
    (split; [| reflexivity]);
    [now apply sameReport_incrementScore | exact Hx].
Qed.

(** *** The rounds of the object loops *)

Ltac object_round_steady choice rec s value c pk r n :=
  unfold Ranged.bind; cbv zeta;
  rewrite (validatePatternProperty_frame_counted choice rec s pk
             (valueAt value pk) c r n);
  cbv zeta;
  destruct (Ranged.validatePatternProperty choice rec s pk
              (valueAt value pk) newResult c n)
    as [[x [has matched]] n'];
  cbn [fst snd].

Ltac object_round_alike s value c pk Hpat n m :=
  unfold Ranged.bind; cbv zeta;
  destruct (validatePatternProperty_alike s pk (valueAt value pk) c Hpat
              n m) as [Hf Hs];
  cbv zeta in Hf, Hs;
  destruct (Ranged.validatePatternProperty p rec1 s pk (valueAt value pk)
              newResult c n) as [[x1 [has1 matched1]] n'];
  destruct (Ranged.validatePatternProperty q rec2 s pk (valueAt value pk)
              newResult c m) as [[x2 [has2 matched2]] m'];
  cbn [fst snd] in Hf, Hs |- *; injection Hs as -> ->.

Ltac same_chain :=
  repeat first
    [ assumption
    | apply sameReport_refl
    | apply sameReport_incrementScore
    | apply sameReport_addError
    | apply sameReport_mergeErrors ].

Lemma additionalPropertiesFalseStep_steady choice rec s value c pk :
  steady (fun r =>
            Ranged.additionalPropertiesFalseStep choice rec s value c r pk).
Proof.
  intros r n. unfold Ranged.additionalPropertiesFalseStep. cbv zeta.
  object_round_steady choice rec s value c pk r n.
  destruct (propertyFound s pk), has, matched; cbn [andb orb negb];
    steady_end.
Qed.

Lemma additionalPropertiesFalseStep_alike s value c pk :
  (forall d, In d (map snd (patternProperties s)) -> alikeOn d) ->
  alike (fun r => Ranged.additionalPropertiesFalseStep p rec1 s value c r pk)
        (fun r => Ranged.additionalPropertiesFalseStep q rec2 s value c r pk).
Proof.
  intros Hpat.
  split; [apply additionalPropertiesFalseStep_steady |].
  split; [apply additionalPropertiesFalseStep_steady |].
  intros n m. unfold Ranged.additionalPropertiesFalseStep. cbv zeta.
  object_round_alike s value c pk Hpat n m.
  destruct (propertyFound s pk), has2, matched2; cbn [andb orb negb];
    unfold Ranged.ret; cbn [fst]; same_chain.
Qed.

Lemma additionalPropertiesSchemaStep_steady choice rec s a value c pk :
  steady (fun r =>
            Ranged.additionalPropertiesSchemaStep choice rec s a value c r
              pk).
Proof.
  intros r n. unfold Ranged.additionalPropertiesSchemaStep. cbv zeta.
  object_round_steady choice rec s value c pk r n.
  destruct (propertyFound s pk), has, matched; cbn [andb orb negb];
    unfold Ranged.bind; cbv zeta; steady_end.
Qed.

Lemma additionalPropertiesSchemaStep_alike s a value c pk :
  (forall d, In d (map snd (patternProperties s)) -> alikeOn d) ->
  alikeOn a ->
  alike (fun r =>
           Ranged.additionalPropertiesSchemaStep p rec1 s
             (Ranged.subValidateWithContext rec1 a) value c r pk)
        (fun r =>
           Ranged.additionalPropertiesSchemaStep q rec2 s
             (Ranged.subValidateWithContext rec2 a) value c r pk).
Proof.
  intros Hpat Ha.
  split; [apply additionalPropertiesSchemaStep_steady |].
  split; [apply additionalPropertiesSchemaStep_steady |].
  intros n m. unfold Ranged.additionalPropertiesSchemaStep. cbv zeta.
  object_round_alike s value c pk Hpat n m.
  pose proof (alikeOn_fresh a (valueAt value pk) c Ha n' m') as Hsub.
  destruct (propertyFound s pk), has2, matched2; cbn [andb orb negb];
    unfold Ranged.bind, Ranged.ret; cbn [fst snd]; same_chain.
Qed.

Lemma patternPropertiesOnlyStep_steady choice rec s value c pk :
  steady (fun r =>
            Ranged.patternPropertiesOnlyStep choice rec s value c r pk).
Proof.
  intros r n. unfold Ranged.patternPropertiesOnlyStep. cbv zeta.
  object_round_steady choice rec s value c pk r n.
  destruct has, matched; cbn [andb orb negb];
    unfold Ranged.bind; cbv zeta; steady_end.
Qed.

Lemma patternPropertiesOnlyStep_alike s value c pk :
  (forall d, In d (map snd (patternProperties s)) -> alikeOn d) ->
  alike (fun r => Ranged.patternPropertiesOnlyStep p rec1 s value c r pk)
        (fun r => Ranged.patternPropertiesOnlyStep q rec2 s value c r pk).
Proof.
  intros Hpat.
  split; [apply patternPropertiesOnlyStep_steady |].
  split; [apply patternPropertiesOnlyStep_steady |].
  intros n m. unfold Ranged.patternPropertiesOnlyStep. cbv zeta.
  object_round_alike s value c pk Hpat n m.
  destruct has2, matched2; cbn [andb orb negb];
    unfold Ranged.bind, Ranged.ret; cbn [fst snd]; same_chain.
Qed.

(** *** [validateObject] *)

Lemma Permutation_keys_of {A : Type} (e1 e2 m : list (string * A)) :
  Permutation e1 m -> Permutation e2 m ->
  Permutation (map fst e1) (map fst e2).
Proof.
  intros H1 H2. apply Permutation_map.
  eapply Permutation_trans; [exact H1 | now apply Permutation_sym].
Qed.

Lemma validateObject_alike s value c :
  (forall d, In d (children s) -> alikeOn d) ->
  alike (fun r => Ranged.validateObject p rec1 s value r c)
        (fun r => Ranged.validateObject q rec2 s value r c).
Proof.
  intros Hl.
  assert (Hpat : forall d, In d (map snd (patternProperties s)) ->
                           alikeOn d).
  { intros d Hd. apply Hl. unfold children. rewrite !in_app_iff. tauto. }
  unfold Ranged.validateObject. cbv zeta.
  apply alike_bind; [| apply alike_lift, additive_incrementScore].
  set (h := fun r : Result =>
              fold_left (requiredStep value c) (required s)
                match maxProperties s with
                | Some max =>
                    if max <? Z.of_nat (List.length value) then
                      addError
                        match minProperties s with
                        | Some min =>
                            if Z.of_nat (List.length value) <? min then
                              addError r c KEY_MIN_PROPERTIES (ReqInt min)
                                (VMap value)
                                (Sprintf invalidMinProperties [ArgInt min])
                            else r
                        | None => r
                        end c KEY_MAX_PROPERTIES (ReqInt max) (VMap value)
                        (Sprintf invalidMaxProperties [ArgInt max])
                    else
                      match minProperties s with
                      | Some min =>
                          if Z.of_nat (List.length value) <? min then
                            addError r c KEY_MIN_PROPERTIES (ReqInt min)
                              (VMap value)
                              (Sprintf invalidMinProperties [ArgInt min])
                          else r
                      | None => r
                      end
                | None =>
                    match minProperties s with
                    | Some min =>
                        if Z.of_nat (List.length value) <? min then
                          addError r c KEY_MIN_PROPERTIES (ReqInt min)
                            (VMap value)
                            (Sprintf invalidMinProperties [ArgInt min])
                        else r
                    | None => r
                    end
                end).
  assert (Hh : additive h).
  { subst h. split_options; additive_steps. }
  destruct (additionalProperties s) as [[b | a]|] eqn:E;
    [destruct (negb b) | |].
  - apply (alike_pre h h
             (fun r =>
                Ranged.bind (Ranged.range p value)
                  (fun entries =>
                     Ranged.forEach
                       (Ranged.additionalPropertiesFalseStep p rec1 s value
                          c) (map fst entries) r))
             (fun r =>
                Ranged.bind (Ranged.range q value)
                  (fun entries =>
                     Ranged.forEach
                       (Ranged.additionalPropertiesFalseStep q rec2 s value
                          c) (map fst entries) r)));
      [exact Hh | exact Hh | apply sameReport_refl |].
    apply (alike_range p q value value
             (fun entries =>
                Ranged.forEach
                  (Ranged.additionalPropertiesFalseStep p rec1 s value c)
                  (map fst entries))
             (fun entries =>
                Ranged.forEach
                  (Ranged.additionalPropertiesFalseStep q rec2 s value c)
                  (map fst entries))).
    intros e1 e2 H1 H2. apply alike_forEach_Permutation.
    + intros k. now apply additionalPropertiesFalseStep_alike.
    + now apply (Permutation_keys_of e1 e2 value).
  - apply (alike_lift h), Hh.
  - apply (alike_pre h h
             (fun r =>
                Ranged.bind (Ranged.range p value)
                  (fun entries =>
                     Ranged.forEach
                       (Ranged.additionalPropertiesSchemaStep p rec1 s
                          (Ranged.subValidateWithContext rec1 a) value c)
                       (map fst entries) r))
             (fun r =>
                Ranged.bind (Ranged.range q value)
                  (fun entries =>
                     Ranged.forEach
                       (Ranged.additionalPropertiesSchemaStep q rec2 s
                          (Ranged.subValidateWithContext rec2 a) value c)
                       (map fst entries) r)));
      [exact Hh | exact Hh | apply sameReport_refl |].
    apply (alike_range p q value value
             (fun entries =>
                Ranged.forEach
                  (Ranged.additionalPropertiesSchemaStep p rec1 s
                     (Ranged.subValidateWithContext rec1 a) value c)
                  (map fst entries))
             (fun entries =>
                Ranged.forEach
                  (Ranged.additionalPropertiesSchemaStep q rec2 s
                     (Ranged.subValidateWithContext rec2 a) value c)
                  (map fst entries))).
    intros e1 e2 H1 H2. apply alike_forEach_Permutation.
    + intros k. apply additionalPropertiesSchemaStep_alike; [exact Hpat |].
      apply Hl. unfold children. rewrite E, !in_app_iff. cbn. tauto.
    + now apply (Permutation_keys_of e1 e2 value).
  - apply (alike_pre h h
             (fun r =>
                Ranged.bind (Ranged.range p value)
                  (fun entries =>
                     Ranged.forEach
                       (Ranged.patternPropertiesOnlyStep p rec1 s value c)
                       (map fst entries) r))
             (fun r =>
                Ranged.bind (Ranged.range q value)
                  (fun entries =>
                     Ranged.forEach
                       (Ranged.patternPropertiesOnlyStep q rec2 s value c)
                       (map fst entries) r)));
      [exact Hh | exact Hh | apply sameReport_refl |].
    apply (alike_range p q value value
             (fun entries =>
                Ranged.forEach
                  (Ranged.patternPropertiesOnlyStep p rec1 s value c)
                  (map fst entries))
             (fun entries =>
                Ranged.forEach
                  (Ranged.patternPropertiesOnlyStep q rec2 s value c)
                  (map fst entries))).
    intros e1 e2 H1 H2. apply alike_forEach_Permutation.
    + intros k. now apply patternPropertiesOnlyStep_alike.
    + now apply (Permutation_keys_of e1 e2 value).
Qed.

(** *** The node *)

Lemma propertyStep_alike m c d :
  alikeOn d ->
  alike (fun r => Ranged.propertyStep rec1 m c r d)
        (fun r => Ranged.propertyStep rec2 m c r d).
Proof.
  intros Hd. unfold Ranged.propertyStep.
  destruct (lookup (property d) m);
    [apply Hd | apply (alike_lift (fun r => r)), additive_id].
Qed.

Lemma validateNode_alike s v c :
  (forall d, In d (children s) -> alikeOn d) ->
  alike (fun r => Ranged.validateNode p rec1 s v r c)
        (fun r => Ranged.validateNode q rec2 s v r c).
Proof.
  intros Hl. unfold Ranged.validateNode, typeError.
  destruct v as [| l | m | b | str | f | k].
  - destruct (typeMismatch s TYPE_NULL);
      [apply alike_lift, additive_addError |].
    apply alike_bind; [now apply validateSchema_alike |].
    cbv zeta. apply alike_lift. additive_steps.
  - destruct (typeMismatch s TYPE_ARRAY);
      [apply alike_lift, additive_addError |].
    apply alike_bind; [now apply validateSchema_alike |].
    apply alike_bind; [now apply validateArray_alike |].
    cbv zeta. apply alike_lift. additive_steps.
  - destruct (typeMismatch s TYPE_OBJECT);
      [apply alike_lift, additive_addError |].
    apply alike_bind; [now apply validateSchema_alike |].
    apply alike_bind; [now apply validateObject_alike |].
    cbv zeta.
    apply (alike_pre (fun r => validateCommon s (VMap m) r c)
             (fun r => validateCommon s (VMap m) r c)
             (fun r =>
                Ranged.bind
                  (Ranged.forEach (Ranged.propertyStep rec1 m c)
                     (propertiesChildren s) r)
                  (fun result => Ranged.ret (incrementScore result)))
             (fun r =>
                Ranged.bind
                  (Ranged.forEach (Ranged.propertyStep rec2 m c)
                     (propertiesChildren s) r)
                  (fun result => Ranged.ret (incrementScore result))));
      try apply validateCommon_additive; [apply sameReport_refl |].
    apply (alike_bind
             (Ranged.forEach (Ranged.propertyStep rec1 m c)
                (propertiesChildren s))
             (Ranged.forEach (Ranged.propertyStep rec2 m c)
                (propertiesChildren s)));
      [| apply alike_lift, additive_incrementScore].
    apply alike_forEach. intros d Hd. apply propertyStep_alike, Hl.
    unfold children. rewrite !in_app_iff. tauto.
  - destruct (typeMismatch s TYPE_BOOLEAN);
      [apply alike_lift, additive_addError |].
    apply alike_bind; [now apply validateSchema_alike |].
    cbv zeta. apply alike_lift. additive_steps.
  - destruct (typeMismatch s TYPE_STRING);
      [apply alike_lift, additive_addError |].
    apply alike_bind; [now apply validateSchema_alike |].
    cbv zeta. apply alike_lift. additive_steps.
  - cbv zeta. destruct (_ && _); [apply alike_lift, additive_addError |].
    apply alike_bind; [now apply validateSchema_alike |].
    apply alike_lift. additive_steps.
  - apply alike_lift, additive_incrementScore.
Qed.

End Counted.

Lemma validateRecursive_counted_eq {rt : Runtime} (choice : Ranged.Choice)
    (s : subSchema) node result context :
  Ranged.validateRecursive choice s node result context
  = match refSchema s with
    | Some ref => Ranged.validateRecursive choice ref node result context
    | None =>
        Ranged.validateNode choice (Ranged.validateRecursive choice) s node
          result context
    end.
Proof. destruct s; reflexivity. Qed.

(** The counted walkers of two invocations are alike on every schema. *)
Lemma validateRecursive_alike {rt : Runtime} (p q : Ranged.Choice)
    (s : subSchema) :
  walkersAlike (Ranged.validateRecursive p) (Ranged.validateRecursive q) s.
Proof.
  induction s as [s IH] using subSchema_children_ind. intros v c.
  apply (alike_ext
           (fun r => match refSchema s with
                     | Some ref => Ranged.validateRecursive p ref v r c
                     | None =>
                         Ranged.validateNode p (Ranged.validateRecursive p)
                           s v r c
                     end)
           _
           (fun r => match refSchema s with
                     | Some ref => Ranged.validateRecursive q ref v r c
                     | None =>
                         Ranged.validateNode q (Ranged.validateRecursive q)
                           s v r c
                     end)
           _);
    try (intros r n; now rewrite (validateRecursive_counted_eq _ s)).
  destruct (refSchema s) as [ref|] eqn:E.
  - apply IH. unfold children. rewrite E. now left.
  - now apply validateNode_alike.
Qed.

(** ** C4: two invocations *)

(** C4 (as the code has it).  On a compiled schema and a document, two
    invocations of [Schema.Validate] record the same errors up to order:
    the same location, keyword, requirement and offending value for each,
    with the same score, hence the same validity.  This holds whatever
    order each [range] statement over a map takes each time it runs, in
    either invocation; a loader error is handed back by both.  (The order
    of the errors, and the order in which the description of a
    [patternProperties] error lists the patterns, follow those orders.) *)
Theorem C4_same_errors_whatever_each_range_picks :
  forall (rt : Runtime) (first second : Ranged.Choice) (v : Schema)
         (document : Value) (err : string),
    (exists r1 r2,
        Ranged.Validate first v (inl document) = inl r1
        /\ Ranged.Validate second v (inl document) = inl r2
        /\ Permutation (map core (errors r1)) (map core (errors r2))
        /\ score r1 = score r2
        /\ Valid r1 = Valid r2)
    /\ Ranged.Validate first v (inr err) = inr err
    /\ Ranged.Validate second v (inr err) = inr err.
Proof.
  intros rt first second v document err.
  split; [| split; reflexivity].
  eexists. eexists. split; [reflexivity |]. split; [reflexivity |].
  pose proof (alike_fresh _ _
                (validateRecursive_alike first second (rootSchema v)
                   document (newJsonContext STRING_CONTEXT_ROOT None))
                0%nat 0%nat) as H.
  cbv beta in H.
  split; [apply H |]. split; [apply H |].
  now apply sameReport_Valid.
Qed.

(* ================================================================== *)
(** * Runs on concrete documents *)

(** ** C8: the location of an error at the root *)

(** [{"type": "string"}] against [true] records a type error at the
    document root, and its location reads ["(root)"]; one level down,
    [{"properties": {"a": {"type": "string"}}}] against [{"a": true}]
    reports at ["(root).a"]. *)
Lemma type_error_at_root_and_below :
  (exists r : Result,
      @Validate Run.forward (mkSchema Sample.stringSchema) (inl (VBool true))
        = inl r
      /\ located r = [("(root)", "type")])
  /\ (exists r : Result,
        @Validate Run.forward
          (mkSchema
             (withPropertiesChildren
                [withProperty "a" Sample.stringSchema] emptySubSchema))
          (inl (VMap [("a", VBool true)])) = inl r
        /\ located r = [("(root).a", "type")]).
Proof.
  split; eexists; split; reflexivity.
Qed.

(** ** C1 and C6: a single failed alternative *)

(** C1, the claim as written fails.  [{"anyOf": [{"type": "string"}]}]
    against [true] is invalid like its alternative, but it records the
    [anyOf] summary error where the alternative records a [type] error. *)
Lemma C1_single_anyOf_replaces_errors :
  let viaAnyOf :=
    @validateRecursive Run.forward Sample.anyOfString (VBool true)
      newResult Run.root in
  let direct :=
    @validateRecursive Run.forward Sample.stringSchema (VBool true)
      newResult Run.root in
  map Attribute (errors viaAnyOf) = ["anyOf"]
  /\ map Attribute (errors direct) = ["type"]
  /\ ~ (Valid viaAnyOf = Valid direct /\ errors viaAnyOf = errors direct).
Proof.
  split; [reflexivity |]. split; [reflexivity |].
  intros [_ H]. apply (f_equal (map Attribute)) in H. discriminate H.
Qed.

(** C6, the claim as written fails.  A list holding one failed result has
    that result as its unique best (there is no other), yet
    [getBestResult] returns nothing for it, and
    [{"oneOf": [{"type": "string"}]}] against [true] records the [oneOf]
    summary error, not the alternative's type error. *)
Lemma C6_single_result_is_never_selected :
  uniqueBest [failedString] failedString
  /\ getBestResult [failedString] = None
  /\ map Attribute
       (errors (@validateRecursive Run.forward Sample.oneOfString
                  (VBool true) newResult Run.root)) = ["oneOf"]
  /\ ~ (forall results r,
          results <> [] -> uniqueBest results r ->
          getBestResult results = Some r).
Proof.
  assert (U : uniqueBest [failedString] failedString).
  { exists [], []. split; [reflexivity | constructor]. }
  split; [exact U |]. split; [reflexivity |]. split; [reflexivity |].
  intros H. specialize (H [failedString] failedString).
  discriminate H; [discriminate | exact U].
Qed.

(** C6 at a concrete input.  Of the two failed results, the one of the
    schema that got past its type test (score 0) is the unique best over
    the one stopped by a type error (score -2), and it is selected; two
    type errors tie and nothing is selected. *)
Lemma C6_best_of_two_failed_results :
  uniqueBest [failedString; failedTwice] failedTwice
  /\ getBestResult [failedString; failedTwice] = Some failedTwice
  /\ getBestResult [failedString; failedNumber] = None.
Proof.
  assert (U : uniqueBest [failedString; failedTwice] failedTwice).
  { exists [failedString], []. split; [reflexivity |].
    constructor; [vm_compute; reflexivity | constructor]. }
  pose proof (@C6_best_match_needs_two_results Run.forward
                emptySubSchema VNil newResult Run.root) as H.
  cbv zeta in H. destruct H as (Hbest & Htie & _).
  split; [exact U |]. split.
  - apply Hbest; [simpl; lia | exact U].
  - apply (Htie _ failedString failedNumber []).
    + apply Permutation_refl.
    + reflexivity.
    + constructor.
Defined.

(** ** C2 and C3: tuple items *)

(** C2 at the failing input.  [{"items": [{"type": "string"}]}] against
    [[true, true]] records nothing, although element 0 fails
    [{"type": "string"}]; the same holds for a tuple longer than the
    array.  Only an array as long as the tuple has its elements
    validated. *)
Lemma C2_tuple_items_skipped_when_lengths_differ :
  located (@validateRecursive Run.forward Sample.tupleOfString
             (VSlice [VBool true; VBool true]) newResult Run.root) = []
  /\ located (@validateRecursive Run.forward
                (withItemsChildren [Sample.stringSchema; Sample.stringSchema]
                   emptySubSchema)
                (VSlice [VBool true]) newResult Run.root) = []
  /\ located (subValidateWithContext (@validateRecursive Run.forward)
                Sample.stringSchema (VBool true)
                (newJsonContext (Itoa 0) (Some Run.root)))
     = [("(root).0", "type")]
  /\ located (@validateRecursive Run.forward Sample.tupleOfString
                (VSlice [VBool true]) newResult Run.root)
     = [("(root).0", "type")].
Proof. repeat split. Qed.

(** C3, the claim as written fails.  [{"items": [{}], "additionalItems":
    false}] against [[true, true, true]] has two elements beyond the
    tuple and records one [additionalItems] error, at the array. *)
Lemma C3_two_extra_elements_one_error :
  let r :=
    @validateRecursive Run.forward Sample.closedTuple
      (VSlice [VBool true; VBool true; VBool true]) newResult Run.root in
  located r = [("(root)", "additionalItems")]
  /\ List.length (errorsWith KEY_ADDITIONAL_ITEMS r) <> (3 - 1)%nat.
Proof. split; [reflexivity | discriminate]. Qed.

(** C3 at a concrete input. *)
Lemma C3_closed_tuple_three_elements :
  errorsWith KEY_ADDITIONAL_ITEMS
    (@validateArray Run.forward (@validateRecursive Run.forward)
       Sample.closedTuple [VBool true; VBool true; VBool true]
       newResult Run.root)
  = [additionalItemsError [VBool true; VBool true; VBool true] Run.root].
Proof.
  apply (@C3_one_additionalItems_error_per_array Run.forward
           Sample.closedTuple [VBool true; VBool true; VBool true]
           newResult Run.root); simpl; [reflexivity | reflexivity | lia | lia].
Defined.

(** ** C5: declared keys and matching patterns *)

(** C5, the claim as written fails, in both directions.  The key ["a"] is
    declared, hence permitted as specified, and still gets an
    [additionalProperties] error because the one pattern matching it
    rejects its value.  The key ["ab"] is not declared and one of its two
    matching patterns rejects its value, hence it is not permitted as
    specified, and still it gets no [additionalProperties] error because
    the other pattern accepts it. *)
Lemma C5_declared_key_rejected_undeclared_key_accepted :
  @permittedAsSpecified Run.forward Sample.declaredAndPattern
    [("a", VBool true)] Run.root "a" = true
  /\ located (@validateRecursive Run.forward Sample.declaredAndPattern
                (VMap [("a", VBool true)]) newResult Run.root)
     = [("(root).a", "type"); ("(root).a", "additionalProperties")]
  /\ @permittedAsSpecified Run.forward twoPatterns
       [("ab", VBool true)] Run.root "ab" = false
  /\ located (@validateRecursive Run.forward twoPatterns
                (VMap [("ab", VBool true)]) newResult Run.root)
     = [("(root).ab", "type")].
Proof. repeat split. Qed.

(** C5 at a concrete input. *)
Lemma C5_declared_and_pattern_object :
  located
    (@validateObject Run.forward (@validateRecursive Run.forward)
       Sample.declaredAndPattern [("a", VBool true)] newResult Run.root)
  = [("(root).a", "type"); ("(root).a", "additionalProperties")].
Proof.
  unfold located.
  rewrite (@C5_additionalProperties_false_per_key Run.forward
             Sample.declaredAndPattern [("a", VBool true)] newResult
             Run.root eq_refl).
  reflexivity.
Defined.

(** ** C7: two errors in one routine *)

(** C7, the claim as written fails.  [validateString] with
    [{"minLength": 5, "pattern": "x"}] on ["ab"] records two errors and
    leaves the score at -3, not at -1 per error; with
    [{"minLength": 1, "pattern": "a"}] both checks pass and the score
    goes up by 1, not by 1 per check. *)
Lemma C7_two_errors_cost_three :
  let failing :=
    @validateString Run.forward Sample.longWithX (VString "ab") newResult
      Run.root in
  let passing :=
    @validateString Run.forward
      (withPattern (Some "a") (withMinLength (Some 1) emptySubSchema))
      (VString "ab") newResult Run.root in
  map Attribute (errors failing) = ["minLength"; "pattern"]
  /\ score failing = -3
  /\ score failing <> - added newResult failing
  /\ errors passing = []
  /\ score passing = 1.
Proof. repeat split. discriminate. Qed.

(** ** C10: a bool node *)

(** C10 at a concrete input: [true] goes through [validateString] and
    [validateNumber] of [{"type": "string", "minLength": 5, "pattern":
    "x"}] without a trace. *)
Lemma C10_bool_node_untouched :
  @validateString Run.forward Sample.longWithX (VBool true) newResult Run.root
    = newResult
  /\ @validateNumber Run.forward Sample.longWithX (VBool true) newResult
       Run.root = newResult.
Proof.
  destruct (@C10_cross_calls_leave_result_unchanged Run.forward
              Sample.longWithX (VBool true) newResult Run.root)
    as (Hs & Hn & _).
  split; [apply Hs | apply Hn]; simpl; intro H; discriminate H.
Defined.

(** ** C4: the same document, its maps ranged in two orders *)

(** C4 at failing inputs.  [{"additionalProperties": false}] against
    [{"a": true, "b": true}] records its two errors in the order the
    document's keys are ranged, so two invocations return different error
    sequences.  [{"patternProperties": {"a": {"type": "string"}, "b":
    {"type": "number"}}}] against [{"ab": true}] files the two type errors
    under the same location in the order the patterns are ranged, so the
    report handed to [json.Marshal] differs.  Within one invocation the
    patterns may be ranged in one order for the key [ab] and in the other
    for the key [ba]. *)
Lemma C4_error_order_follows_each_range :
  let straight := reversedAt [] in
  (exists r1 r2,
      @Ranged.Validate Run.forward straight (mkSchema Sample.closedObject)
        (inl (VMap [("a", VBool true); ("b", VBool true)])) = inl r1
      /\ @Ranged.Validate Run.forward (reversedAt [0%nat])
           (mkSchema Sample.closedObject)
           (inl (VMap [("a", VBool true); ("b", VBool true)])) = inl r2
      /\ located r1 = [("(root).a", "additionalProperties");
                       ("(root).b", "additionalProperties")]
      /\ located r2 = [("(root).b", "additionalProperties");
                       ("(root).a", "additionalProperties")]
      /\ errors r1 <> errors r2)
  /\ (exists r1 r2,
        @Ranged.Validate Run.forward straight
          (mkSchema stringAndNumberPatterns)
          (inl (VMap [("ab", VBool true)])) = inl r1
        /\ @Ranged.Validate Run.forward (reversedAt [1%nat])
             (mkSchema stringAndNumberPatterns)
             (inl (VMap [("ab", VBool true)])) = inl r2
        /\ typeErrors r1 = [("(root).ab", "string"); ("(root).ab", "number")]
        /\ typeErrors r2 = [("(root).ab", "number"); ("(root).ab", "string")]
        /\ lookup "(root).ab" (jmapOf r1) <> lookup "(root).ab" (jmapOf r2))
  /\ (exists r,
        @Ranged.Validate Run.forward (reversedAt [3%nat])
          (mkSchema stringAndNumberPatterns)
          (inl (VMap [("ab", VBool true); ("ba", VBool true)])) = inl r
        /\ typeErrors r
           = [("(root).ab", "string"); ("(root).ab", "number");
              ("(root).ba", "number"); ("(root).ba", "string")]).
Proof.
  cbv zeta. split; [| split].
  - eexists. eexists. split; [reflexivity |]. split; [reflexivity |].
    split; [reflexivity |]. split; [reflexivity |].
    intros H. apply (f_equal (map (fun e => jsonContext.String (Context e))))
      in H. discriminate H.
  - eexists. eexists. split; [reflexivity |]. split; [reflexivity |].
    split; [reflexivity |]. split; [reflexivity |].
    intros H.
    apply (f_equal (fun o => match o with
                             | Some (s :: _) => nth 1 s (inl "")
                             | _ => inl ""
                             end)) in H.
    discriminate H.
  - eexists. split; reflexivity.
Qed.
